(** * pyMON: the enhanced Python-to-EVM transpiler, embedded and verified

    Shallow embedding of [pymon/transpiler_enhanced.py] (the bytecode
    generator, the dispatcher, the statement and expression compiler, the
    constructor and the assembler) and of [StorageLayout] from
    [pymon/evm_compiler.py], together with the fragment of the EVM that the
    generated code runs on.

    Bytes are integers in [0, 256) held in [list Z]; Python's unbounded
    [int] is [Z]; Python exceptions are the [Err] case of [result]. *)

From Stdlib Require Import ZArith List Lia String Ascii Bool.
From stdpp Require Import gmap strings list fin_maps.

Local Open Scope string_scope.
Local Open Scope list_scope.
Local Open Scope Z_scope.
Set Warnings "-register-all".

(** ** Python values and exceptions *)

Inductive pyerr : Type :=
| OverflowError   (* int.to_bytes: negative, or too big for the width *)
| IndexError      (* list index out of range *)
| ValueError.     (* bytearray.append: a value outside range(0, 256) *)

Inductive result (A : Type) : Type :=
| Ok (a : A)
| Err (e : pyerr).
Arguments Ok {A} a.
Arguments Err {A} e.

(** The error monad of a computation that may raise: stdpp's [mbind]
    notation [x ← c; k] threads it. *)
#[global] Instance result_ret : MRet result := fun A a => Ok a.
#[global] Instance result_bind : MBind result := fun A B k r =>
  match r with
  | Ok a => k a
  | Err e => Err e
  end.

(** ** Integers and byte strings *)

Definition is_byte (b : Z) : Prop := 0 <= b < 256.

(** [int.bit_length()]: bits of the absolute value, 0 for 0. *)
Definition bit_length (v : Z) : Z :=
  if v =? 0 then 0 else Z.log2 (Z.abs v) + 1.

(** The [size] low bytes of [v], most significant first. *)
Fixpoint be_bytes (size : nat) (v : Z) : list Z :=
  match size with
  | O => []
  | S n => be_bytes n (v / 256) ++ [v mod 256]
  end.

(** [v.to_bytes(size, 'big')] for unsigned conversion. *)
Definition to_bytes (v : Z) (size : nat) : result (list Z) :=
  if (v <? 0) || (256 ^ Z.of_nat size <=? v)
  then Err OverflowError
  else Ok (be_bytes size v).

(** [int.from_bytes(bs, 'big')]. *)
Definition from_bytes (bs : list Z) : Z :=
  fold_left (fun acc b => acc * 256 + b) bs 0.

(** [bs[-n:]]: the last [n] elements; the whole of [bs] when [n] is 0 or
    not smaller than the length. *)
Definition last_n (n : nat) (bs : list Z) : list Z :=
  match n with
  | O => bs
  | _ => drop (length bs - n)%nat bs
  end.

(** [s.encode('utf-8')], a [string] being its own UTF-8 byte sequence. *)
Definition encode_utf8 (s : string) : list Z :=
  map (fun c => Z.of_nat (nat_of_ascii c)) (list_ascii_of_string s).

(** ** Keccak-256, as computed by [Crypto.Hash.keccak] with
    [digest_bits=256]: the Keccak-f[1600] permutation, rate 136 bytes,
    the original Keccak padding. *)

Module Keccak.

Definition mask64 : Z := 2 ^ 64 - 1.

Definition rotl64 (v n : Z) : Z :=
  Z.lor (Z.land (Z.shiftl v n) mask64) (Z.shiftr v (64 - n)).

Definition lane (st : list Z) (i : nat) : Z := nth i st 0.

Definition round_constants : list Z :=
  [ 0x0000000000000001; 0x0000000000008082; 0x800000000000808A;
    0x8000000080008000; 0x000000000000808B; 0x0000000080000001;
    0x8000000080008081; 0x8000000000008009; 0x000000000000008A;
    0x0000000000000088; 0x0000000080008009; 0x000000008000000A;
    0x000000008000808B; 0x800000000000008B; 0x8000000000008089;
    0x8000000000008003; 0x8000000000008002; 0x8000000000000080;
    0x000000000000800A; 0x800000008000000A; 0x8000000080008081;
    0x8000000000008080; 0x0000000080000001; 0x8000000080008008 ].

(** Rotation offsets, indexed by [x + 5 * y]. *)
Definition rotation_offsets : list Z :=
  [  0;  1; 62; 28; 27;
    36; 44;  6; 55; 20;
     3; 10; 43; 25; 39;
    41; 45; 15; 21;  8;
    18;  2; 61; 56; 14 ].

Definition theta (st : list Z) : list Z :=
  let c := fun x : nat =>
    Z.lxor (lane st x)
      (Z.lxor (lane st (x + 5))
         (Z.lxor (lane st (x + 10))
            (Z.lxor (lane st (x + 15)) (lane st (x + 20))))) in
  let d := fun x : nat =>
    Z.lxor (c ((x + 4) mod 5)%nat) (rotl64 (c ((x + 1) mod 5)%nat) 1) in
  map (fun i : nat => Z.lxor (lane st i) (d (i mod 5)%nat)) (seq 0 25).

(** [B[y, 2x+3y] = rot(A[x, y], r[x, y])], read off at the target index. *)
Definition rho_pi (st : list Z) : list Z :=
  map (fun i : nat =>
         let X := (i mod 5)%nat in
         let Y := (i / 5)%nat in
         let x := ((X + 3 * Y) mod 5)%nat in
         let src := (x + 5 * X)%nat in
         rotl64 (lane st src) (nth src rotation_offsets 0))
      (seq 0 25).

Definition chi (st : list Z) : list Z :=
  map (fun i : nat =>
         let x := (i mod 5)%nat in
         let y := (i / 5)%nat in
         Z.lxor (lane st i)
           (Z.land (Z.lxor (lane st ((x + 1) mod 5 + 5 * y)) mask64)
                   (lane st ((x + 2) mod 5 + 5 * y))))
      (seq 0 25).

Definition iota (rc : Z) (st : list Z) : list Z :=
  match st with
  | [] => []
  | a :: rest => Z.lxor a rc :: rest
  end.

Definition round (st : list Z) (rc : Z) : list Z :=
  iota rc (chi (rho_pi (theta st))).

Definition keccak_f (st : list Z) : list Z :=
  fold_left round round_constants st.

Definition rate : nat := 136.

Definition pad (msg : list Z) : list Z :=
  let q := (rate - length msg mod rate)%nat in
  match q with
  | 1%nat => msg ++ [0x81]
  | _ => msg ++ [0x01] ++ repeat 0 (q - 2) ++ [0x80]
  end.

(** Eight bytes, least significant first, as one lane. *)
Definition lane_of_bytes (bs : list Z) : Z :=
  fold_right (fun b acc => b + 256 * acc) 0 bs.

Fixpoint lanes_of_bytes (n : nat) (bs : list Z) : list Z :=
  match n with
  | O => []
  | S n' => lane_of_bytes (take 8 bs) :: lanes_of_bytes n' (drop 8 bs)
  end.

Definition xor_block (st block : list Z) : list Z :=
  map (fun i : nat => Z.lxor (lane st i) (nth i block 0)) (seq 0 25).

Fixpoint absorb (blocks : nat) (st msg : list Z) : list Z :=
  match blocks with
  | O => st
  | S n =>
      absorb n (keccak_f (xor_block st (lanes_of_bytes 17 (take rate msg))))
             (drop rate msg)
  end.

Definition bytes_of_lane (l : Z) : list Z :=
  map (fun i : nat => Z.shiftr l (8 * Z.of_nat i) mod 256) (seq 0 8).

Definition squeeze (st : list Z) : list Z :=
  concat (map (fun i : nat => bytes_of_lane (lane st i)) (seq 0 4)).

Definition keccak256 (data : list Z) : list Z :=
  let padded := pad data in
  squeeze (absorb (length padded / rate) (repeat 0 25%nat) padded).

End Keccak.

Definition keccak256 (data : list Z) : list Z := Keccak.keccak256 data.

(** [function_selector]: the first four bytes of the hash of the
    signature. *)
Definition function_selector (signature : string) : list Z :=
  take 4 (keccak256 (encode_utf8 signature)).

(** ** EVM opcodes (class [EVMOpcode]) *)

Module EVMOpcode.
Definition STOP : Z := 0x00.
Definition ADD : Z := 0x01.
Definition MUL : Z := 0x02.
Definition SUB : Z := 0x03.
Definition DIV : Z := 0x04.
Definition MOD : Z := 0x06.
Definition EXP : Z := 0x0a.
Definition LT : Z := 0x10.
Definition GT : Z := 0x11.
Definition EQ : Z := 0x14.
Definition ISZERO : Z := 0x15.
Definition AND : Z := 0x16.
Definition OR : Z := 0x17.
Definition XOR : Z := 0x18.
Definition NOT : Z := 0x19.
Definition SHL : Z := 0x1b.
Definition SHR : Z := 0x1c.
Definition SHA3 : Z := 0x20.
Definition ADDRESS : Z := 0x30.
Definition CALLER : Z := 0x33.
Definition CALLVALUE : Z := 0x34.
Definition CALLDATALOAD : Z := 0x35.
Definition CALLDATASIZE : Z := 0x36.
Definition CALLDATACOPY : Z := 0x37.
Definition CODESIZE : Z := 0x38.
Definition CODECOPY : Z := 0x39.
Definition MLOAD : Z := 0x51.
Definition MSTORE : Z := 0x52.
Definition MSTORE8 : Z := 0x53.
Definition SLOAD : Z := 0x54.
Definition SSTORE : Z := 0x55.
Definition JUMP : Z := 0x56.
Definition JUMPI : Z := 0x57.
Definition PC : Z := 0x58.
Definition MSIZE : Z := 0x59.
Definition JUMPDEST : Z := 0x5b.
Definition PUSH1 : Z := 0x60.
Definition PUSH2 : Z := 0x61.
Definition PUSH4 : Z := 0x63.
Definition PUSH32 : Z := 0x7f.
Definition DUP1 : Z := 0x80.
Definition DUP2 : Z := 0x81.
Definition DUP3 : Z := 0x82.
Definition DUP4 : Z := 0x83.
Definition SWAP1 : Z := 0x90.
Definition SWAP2 : Z := 0x91.
Definition RETURN : Z := 0xf3.
Definition REVERT : Z := 0xfd.
End EVMOpcode.

(** ** The bytecode generator (class [EnhancedBytecodeGenerator])

    [current_mode] is the Python string itself: [emit] and [emit_push]
    test it against ['init'], [get_offset] against ['runtime'].  The
    fields [current_state] and [memory_offset] are written but never read
    and are left out. *)

Record generator : Type := Generator {
  init_code : list Z;
  runtime_code : list Z;
  current_mode : string;
  gas_used : Z
}.

(** [EnhancedBytecodeGenerator.__init__]. *)
Definition new_generator : generator :=
  {| init_code := []; runtime_code := []; current_mode := "init";
     gas_used := 0 |}.

(** The region [emit], [emit_push] and [_backpatch] write to. *)
Definition active_code (g : generator) : list Z :=
  if String.eqb (current_mode g) "init" then init_code g else runtime_code g.

Definition set_active_code (g : generator) (code : list Z) : generator :=
  if String.eqb (current_mode g) "init"
  then {| init_code := code; runtime_code := runtime_code g;
          current_mode := current_mode g; gas_used := gas_used g |}
  else {| init_code := init_code g; runtime_code := code;
          current_mode := current_mode g; gas_used := gas_used g |}.

(** [emit] on a byte: append one opcode to the active region.  The
    compiler calls [emit] on the constants of [EVMOpcode] only, all of
    them bytes, so its code is embedded with this function; [emit_int]
    is the method on any [int]. *)
Definition emit (opcode : Z) (g : generator) : generator :=
  set_active_code g (active_code g ++ [opcode]).

(** [emit(opcode)] for any [int]: the regions are [bytearray]s, whose
    [append] raises [ValueError] for a value outside [range(0, 256)] and
    appends nothing. *)
Definition emit_int (opcode : Z) (g : generator) : result generator :=
  if (0 <=? opcode) && (opcode <? 256)
  then Ok (emit opcode g)
  else Err ValueError.

(** The first argument of [emit_push]: an [int] or a [bytes]. *)
Inductive push_value : Type :=
| PInt (v : Z)
| PBytes (bs : list Z).

(** [max(1, (value.bit_length() + 7) // 8)], the width [emit_push]
    picks when none is given. *)
Definition push_width (v : Z) : nat :=
  Z.to_nat (Z.max 1 ((bit_length v + 7) / 8)).

(** [emit_push(value, size)]; [size] is [None] when omitted. *)
Definition emit_push (value : push_value) (size : option nat)
    (g : generator) : result generator :=
  '(value_bytes, size) ←
     match value with
     | PInt v =>
         let size := match size with
                     | None => push_width v
                     | Some n => n
                     end in
         value_bytes ← to_bytes v size; Ok (value_bytes, size)
     | PBytes bs => Ok (bs, length bs)
     end;
  let size := Nat.min size 32 in
  let push_opcode := EVMOpcode.PUSH1 + Z.of_nat size - 1 in
  let g' := set_active_code g
              (active_code g ++ [push_opcode] ++ last_n size value_bytes) in
  Ok {| init_code := init_code g'; runtime_code := runtime_code g';
        current_mode := current_mode g'; gas_used := gas_used g' + 3 |}.

(** [get_offset]. *)
Definition get_offset (g : generator) : nat :=
  if String.eqb (current_mode g) "runtime"
  then length (runtime_code g) else length (init_code g).

(** [set_mode]. *)
Definition set_mode (mode : string) (g : generator) : generator :=
  {| init_code := init_code g; runtime_code := runtime_code g;
     current_mode := mode; gas_used := gas_used g |}.

(** [_backpatch(offset, target, size)]: the slice assignment
    [code[offset:offset+size] = target_bytes] on the active region; a
    slice reaching past the end is clamped, as [take] and [drop] are. *)
Definition _backpatch (offset : nat) (target : Z) (size : nat)
    (g : generator) : result generator :=
  target_bytes ← to_bytes target size;
  let code := active_code g in
  Ok (set_active_code g
        (take offset code ++ target_bytes ++ drop (offset + size) code)).

(** ** The syntax trees the generator consumes (Python's [ast] nodes)

    Only the node classes and fields the generator inspects are kept; every
    other class is the [Other...] constructor of its category. *)

Module ast.

(** The [value] of an [ast.Constant]: an [int] ([bool] included, as the
    integers 1 and 0) or anything else ([str], [float], [None], ...). *)
Inductive constant_value : Type :=
| CInt (v : Z)
| COther.

Inductive operator : Type :=
| Add | Sub | Mult | Div | Mod
| OtherOperator.          (* Pow, FloorDiv, BitAnd, LShift, ... *)

Inductive cmpop : Type :=
| Eq | Lt | Gt | LtE | GtE
| OtherCmpop.             (* NotEq, Is, IsNot, In, NotIn *)

Inductive expr : Type :=
| Constant (value : constant_value)
| Name (id : string)
| Attribute (value : expr) (attr : string)
| Subscript (value : expr) (slice : expr)
| BinOp (left : expr) (op : operator) (right : expr)
| Compare (left : expr) (ops : list cmpop) (comparators : list expr)
| OtherExpr.              (* UnaryOp, BoolOp, Call, IfExp, List, ... *)

Inductive stmt : Type :=
| Return (value : option expr)
| Assign (targets : list expr) (value : expr)
| If (test : expr) (body : list stmt) (orelse : list stmt)
| Expr (value : expr)
| OtherStmt.              (* AugAssign, While, For, Pass, Assert, ... *)

End ast.

(** ** The contract model ([ContractState] and the per-function dicts)

    A Python [dict] that is iterated is an association list in insertion
    order; [dict_get] is the lookup. *)

Fixpoint dict_get {V : Type} (k : string) (d : list (string * V)) : option V :=
  match d with
  | [] => None
  | (k', v) :: d' => if String.eqb k k' then Some v else dict_get k d'
  end.

(** An entry of [initial_values]: an [int] or any other object. *)
Inductive pyvalue : Type :=
| PyInt (v : Z)
| PyOther.

(** The keys of a [func_info] dict that the generator reads. *)
Record func_info : Type := FuncInfo {
  is_public : bool;
  is_view : bool;
  has_return : bool;
  args : list string;
  param_types : list string;
  body : list ast.stmt
}.

(** [ContractState]; [events] and [variable_types] are not read by the
    generator and are left out. *)
Record ContractState : Type := {
  variables : list (string * Z);
  functions : list (string * func_info);
  initial_values : list (string * pyvalue)
}.

(** ** The statement and expression compiler *)

Definition push_int (v : Z) (g : generator) : result generator :=
  emit_push (PInt v) None g.

(** [isinstance(e, ast.Name) and e.id == 'self']. *)
Definition is_self (e : ast.expr) : bool :=
  match e with
  | ast.Name id => String.eqb id "self"
  | _ => false
  end.

(** [isinstance(e, ast.Attribute) and isinstance(e.value, ast.Name) and
    e.value.id == 'self'], with the attribute name. *)
Definition self_attribute (e : ast.expr) : option string :=
  match e with
  | ast.Attribute value attr => if is_self value then Some attr else None
  | _ => None
  end.

(** [generate_abi_encoded_return]. *)
Definition generate_abi_encoded_return (g : generator) : result generator :=
  g ← push_int 0 g;
  let g := emit EVMOpcode.MSTORE g in
  g ← push_int 32 g;
  g ← push_int 0 g;
  Ok (emit EVMOpcode.RETURN g).

(** The body of [_compile_mapping_slot], the compilation of the key
    expression being [compile_key]. *)
Definition mapping_slot_code (compile_key : generator -> result generator)
    (base_slot : Z) (g : generator) : result generator :=
  g ← compile_key g;
  g ← push_int 0 g;
  let g := emit EVMOpcode.MSTORE g in
  g ← push_int base_slot g;
  g ← push_int 32 g;
  let g := emit EVMOpcode.MSTORE g in
  g ← push_int 64 g;
  g ← push_int 0 g;
  Ok (emit EVMOpcode.SHA3 g).

(** [_compile_expression].  The [ast.Num] branch of the source is shadowed
    by the [ast.Constant] branch before it and has no case of its own. *)
Fixpoint _compile_expression (e : ast.expr) (arg_map : gmap string nat)
    (state : ContractState) (g : generator) : result generator :=
  match e with
  | ast.Constant (ast.CInt v) => push_int v g
  | ast.Constant ast.COther => push_int 0 g
  | ast.Name id =>
      match arg_map !! id with
      | Some arg_index =>
          let offset := 4 + Z.of_nat arg_index * 32 in
          g ← push_int offset g;
          Ok (emit EVMOpcode.CALLDATALOAD g)
      | None => push_int 0 g
      end
  | ast.Attribute value attr =>
      if is_self value then
        match dict_get attr (variables state) with
        | Some slot =>
            g ← push_int slot g;
            Ok (emit EVMOpcode.SLOAD g)
        | None => push_int 0 g
        end
      else push_int 0 g
  | ast.Subscript value slice =>
      match self_attribute value with
      | Some mapping_name =>
          match dict_get mapping_name (variables state) with
          | Some base_slot =>
              g ← mapping_slot_code (_compile_expression slice arg_map state)
                    base_slot g;
              Ok (emit EVMOpcode.SLOAD g)
          | None => push_int 0 g
          end
      | None => push_int 0 g
      end
  | ast.BinOp lhs op rhs =>
      g ← _compile_expression lhs arg_map state g;
      g ← _compile_expression rhs arg_map state g;
      match op with
      | ast.Add => Ok (emit EVMOpcode.ADD g)
      | ast.Sub => Ok (emit EVMOpcode.SUB g)
      | ast.Mult => Ok (emit EVMOpcode.MUL g)
      | ast.Div => Ok (emit EVMOpcode.DIV g)
      | ast.Mod => Ok (emit EVMOpcode.MOD g)
      | ast.OtherOperator => Ok g
      end
  | ast.Compare lhs ops comparators =>
      g ← _compile_expression lhs arg_map state g;
      match comparators with
      | [] => Ok g
      | comparator :: _ =>
          g ← _compile_expression comparator arg_map state g;
          match ops with
          | [] => Err IndexError
          | ast.Eq :: _ => Ok (emit EVMOpcode.EQ g)
          | ast.Lt :: _ =>
              Ok (emit EVMOpcode.LT (emit EVMOpcode.SWAP1 g))
          | ast.Gt :: _ =>
              Ok (emit EVMOpcode.GT (emit EVMOpcode.SWAP1 g))
          | ast.LtE :: _ =>
              Ok (emit EVMOpcode.ISZERO
                    (emit EVMOpcode.GT (emit EVMOpcode.SWAP1 g)))
          | ast.GtE :: _ =>
              Ok (emit EVMOpcode.ISZERO
                    (emit EVMOpcode.LT (emit EVMOpcode.SWAP1 g)))
          | ast.OtherCmpop :: _ => Ok g
          end
      end
  | ast.OtherExpr => push_int 0 g
  end.

(** [_compile_mapping_slot]. *)
Definition _compile_mapping_slot (key_expr : ast.expr) (base_slot : Z)
    (arg_map : gmap string nat) (state : ContractState)
    (g : generator) : result generator :=
  mapping_slot_code (_compile_expression key_expr arg_map state) base_slot g.

(** [_backpatch] of a two-byte jump operand. *)
Definition backpatch2 (offset : nat) (target : nat)
    (g : generator) : result generator :=
  _backpatch offset (Z.of_nat target) 2 g.

(** The body of [_compile_if_statement], the compilation of the test and
    of the two blocks being given. *)
Definition if_statement_code
    (compile_test compile_body compile_orelse : generator -> result generator)
    (g : generator) : result generator :=
  g ← compile_test g;
  let g := emit EVMOpcode.ISZERO g in
  let else_placeholder := (get_offset g + 1)%nat in
  g ← emit_push (PInt 0xDEAD) (Some 2%nat) g;
  let g := emit EVMOpcode.JUMPI g in
  g ← compile_body g;
  let end_placeholder := (get_offset g + 1)%nat in
  g ← emit_push (PInt 0xBEEF) (Some 2%nat) g;
  let g := emit EVMOpcode.JUMP g in
  let else_offset := get_offset g in
  let g := emit EVMOpcode.JUMPDEST g in
  g ← compile_orelse g;
  let end_offset := get_offset g in
  let g := emit EVMOpcode.JUMPDEST g in
  g ← backpatch2 else_placeholder else_offset g;
  backpatch2 end_placeholder end_offset g.

(** [_compile_statement].  A statement of any other class, an assignment
    with several targets, or one whose target is not a known [self]
    attribute or mapping entry, emits nothing. *)
Fixpoint _compile_statement (s : ast.stmt) (arg_map : gmap string nat)
    (state : ContractState) (g : generator) : result generator :=
  match s with
  | ast.Return (Some value) =>
      g ← _compile_expression value arg_map state g;
      generate_abi_encoded_return g
  | ast.Return None =>
      g ← push_int 0 g;
      g ← push_int 0 g;
      Ok (emit EVMOpcode.RETURN g)
  | ast.Assign [target] value =>
      match target with
      | ast.Attribute tvalue var_name =>
          if is_self tvalue then
            match dict_get var_name (variables state) with
            | Some slot =>
                g ← _compile_expression value arg_map state g;
                g ← push_int slot g;
                Ok (emit EVMOpcode.SSTORE g)
            | None => Ok g
            end
          else Ok g
      | ast.Subscript tvalue slice =>
          match self_attribute tvalue with
          | Some mapping_name =>
              match dict_get mapping_name (variables state) with
              | Some base_slot =>
                  g ← _compile_expression value arg_map state g;
                  g ← _compile_mapping_slot slice base_slot arg_map state g;
                  Ok (emit EVMOpcode.SSTORE g)
              | None => Ok g
              end
          | None => Ok g
          end
      | _ => Ok g
      end
  | ast.Assign _ _ => Ok g
  | ast.If test body orelse =>
      let compile_block :=
        fix compile_block (ss : list ast.stmt) (g : generator)
            : result generator :=
          match ss with
          | [] => Ok g
          | s' :: ss' =>
              g ← _compile_statement s' arg_map state g;
              compile_block ss' g
          end in
      if_statement_code (_compile_expression test arg_map state)
        (compile_block body) (compile_block orelse) g
  | ast.Expr _ => Ok g
  | ast.OtherStmt => Ok g
  end.

(** [for s in stmts: self._compile_statement(s, arg_map, state)]. *)
Fixpoint compile_statements (ss : list ast.stmt) (arg_map : gmap string nat)
    (state : ContractState) (g : generator) : result generator :=
  match ss with
  | [] => Ok g
  | s :: ss' =>
      g ← _compile_statement s arg_map state g;
      compile_statements ss' arg_map state g
  end.

(** [_compile_if_statement]. *)
Definition _compile_if_statement (test : ast.expr)
    (body orelse : list ast.stmt) (arg_map : gmap string nat)
    (state : ContractState) (g : generator) : result generator :=
  if_statement_code (_compile_expression test arg_map state)
    (compile_statements body arg_map state)
    (compile_statements orelse arg_map state) g.

(** ** The function dispatcher, the function bodies, the constructor *)

(** [','.join(param_types)]. *)
Fixpoint join_comma (l : list string) : string :=
  match l with
  | [] => ""
  | [x] => x
  | x :: l' => String.append x (String.append "," (join_comma l'))
  end.

(** [f"{func_name}({','.join(param_types)})"]. *)
Definition signature_of (func_name : string) (f : func_info) : string :=
  String.append func_name
    (String.append "(" (String.append (join_comma (param_types f)) ")")).

(** [func_info.get('is_public') or func_info.get('is_view')]. *)
Definition exposed (f : func_info) : bool := is_public f || is_view f.

(** One turn of the selector loop of [generate_function_dispatcher]. *)
Definition dispatcher_entry (func_name : string) (f : func_info)
    (acc : generator * gmap string nat)
    : result (generator * gmap string nat) :=
  let '(g, placeholders) := acc in
  if negb (exposed f) then Ok (g, placeholders) else
  let selector := function_selector (signature_of func_name f) in
  let selector_int := from_bytes selector in
  let g := emit EVMOpcode.DUP1 g in
  g ← emit_push (PInt selector_int) (Some 4%nat) g;
  let g := emit EVMOpcode.EQ g in
  let placeholder_offset := (get_offset g + 1)%nat in
  let placeholders := <[func_name := placeholder_offset]> placeholders in
  g ← emit_push (PInt 0xDEAD) (Some 2%nat) g;
  Ok (emit EVMOpcode.JUMPI g, placeholders).

Fixpoint dispatcher_entries (fs : list (string * func_info))
    (acc : generator * gmap string nat)
    : result (generator * gmap string nat) :=
  match fs with
  | [] => Ok acc
  | (func_name, f) :: fs' =>
      acc ← dispatcher_entry func_name f acc;
      dispatcher_entries fs' acc
  end.

(** [generate_function_dispatcher] up to, not including, its last
    statement (the [_backpatch] of the guard's jump): the generator, the
    dict of placeholder offsets, [revert_offset] and [revert_start]. *)
Definition dispatcher_code (fs : list (string * func_info))
    (g : generator) : result (generator * gmap string nat * nat * nat) :=
  g ← push_int 4 g;
  let g := emit EVMOpcode.CALLDATASIZE g in
  let g := emit EVMOpcode.LT g in
  let revert_offset := (get_offset g + 3)%nat in
  g ← emit_push (PInt 0xFFFF) (Some 2%nat) g;
  let g := emit EVMOpcode.JUMPI g in
  g ← push_int 0 g;
  let g := emit EVMOpcode.CALLDATALOAD g in
  g ← push_int 224 g;
  let g := emit EVMOpcode.SHR g in
  '(g, placeholders) ← dispatcher_entries fs (g, ∅);
  let revert_start := get_offset g in
  let g := emit EVMOpcode.JUMPDEST g in
  g ← push_int 0 g;
  g ← push_int 0 g;
  let g := emit EVMOpcode.REVERT g in
  Ok (g, placeholders, revert_offset, revert_start).

(** [generate_function_dispatcher]: the generator after it and the dict
    of placeholder offsets it returns. *)
Definition generate_function_dispatcher (fs : list (string * func_info))
    (g : generator) : result (generator * gmap string nat) :=
  '(g, placeholders, revert_offset, revert_start) ← dispatcher_code fs g;
  g ← backpatch2 revert_offset revert_start g;
  Ok (g, placeholders).

(** [{arg: i for i, arg in enumerate(args)}]: a later duplicate wins. *)
Fixpoint arg_map_from (i : nat) (l : list string) (m : gmap string nat)
    : gmap string nat :=
  match l with
  | [] => m
  | arg :: l' => arg_map_from (S i) l' (<[arg := i]> m)
  end.

Definition arg_map_of (l : list string) : gmap string nat :=
  arg_map_from 0 l ∅.

(** [not body or not isinstance(body[-1], ast.Return)]. *)
Definition lacks_final_return (ss : list ast.stmt) : bool :=
  match last ss with
  | Some (ast.Return _) => false
  | _ => true
  end.

(** [generate_function_body]. *)
Definition generate_function_body (func_name : string) (f : func_info)
    (state : ContractState) (g : generator) : result generator :=
  let arg_map := arg_map_of (args f) in
  g ← compile_statements (body f) arg_map state g;
  if is_view f || has_return f then
    if lacks_final_return (body f) then
      g ← push_int 0 g;
      generate_abi_encoded_return g
    else Ok g
  else
    g ← push_int 0 g;
    g ← push_int 0 g;
    Ok (emit EVMOpcode.RETURN g).

(** The initialisation loop of [generate_constructor]:
    [initial_values.get(var_name, 0)], stored when it is an [int]. *)
Fixpoint constructor_stores (vars : list (string * Z))
    (state : ContractState) (g : generator) : result generator :=
  match vars with
  | [] => Ok g
  | (var_name, slot) :: vars' =>
      g ← match default (PyInt 0) (dict_get var_name (initial_values state)) with
          | PyInt initial_value =>
              g ← push_int initial_value g;
              g ← push_int slot g;
              Ok (emit EVMOpcode.SSTORE g)
          | PyOther => Ok g
          end;
      constructor_stores vars' state g
  end.

(** [generate_constructor]. *)
Definition generate_constructor (state : ContractState) (runtime_size : nat)
    (g : generator) : result generator :=
  g ← constructor_stores (variables state) state g;
  let runtime_offset := (length (init_code g) + 13)%nat in
  g ← emit_push (PInt (Z.of_nat runtime_size)) (Some 2%nat) g;
  g ← emit_push (PInt (Z.of_nat runtime_offset)) (Some 2%nat) g;
  let g := emit EVMOpcode.DUP2 g in
  g ← push_int 0 g;
  let g := emit EVMOpcode.CODECOPY g in
  g ← push_int 0 g;
  Ok (emit EVMOpcode.RETURN g).

(** The function-body loop of [_generate_enhanced_bytecode]. *)
Fixpoint function_bodies (fs : list (string * func_info))
    (placeholders : gmap string nat) (state : ContractState)
    (g : generator) : result generator :=
  match fs with
  | [] => Ok g
  | (func_name, f) :: fs' =>
      if negb (exposed f) then function_bodies fs' placeholders state g else
      let func_start := get_offset g in
      let g := emit EVMOpcode.JUMPDEST g in
      g ← generate_function_body func_name f state g;
      g ← match placeholders !! func_name with
          | Some placeholder => backpatch2 placeholder func_start g
          | None => Ok g
          end;
      function_bodies fs' placeholders state g
  end.

(** The generator at the end of [_generate_enhanced_bytecode]. *)
Definition assemble (state : ContractState) (g : generator)
    : result generator :=
  let g := set_mode "runtime" g in
  '(g, placeholders) ← generate_function_dispatcher (functions state) g;
  g ← function_bodies (functions state) placeholders state g;
  let runtime_bytecode := runtime_code g in
  let g := set_mode "init" g in
  generate_constructor state (length runtime_bytecode) g.

(** [_generate_enhanced_bytecode]: [bytes(gen.init_code + gen.runtime_code)]. *)
Definition _generate_enhanced_bytecode (state : ContractState)
    (g : generator) : result (list Z) :=
  g ← assemble state g;
  Ok (init_code g ++ runtime_code g).

(** The contract with no state variable and no function. *)
Definition empty_contract : ContractState :=
  {| variables := []; functions := []; initial_values := [] |}.

(** The contract of the module's own [__main__] test: two state
    variables, [increment] (public) and [get_count] (view). *)
Definition self_attr (name : string) : ast.expr :=
  ast.Attribute (ast.Name "self") name.

Definition test_contract : ContractState :=
  {| variables := [("count", 0); ("owner", 1)];
     functions :=
       [ ("increment",
          {| is_public := true; is_view := false; has_return := false;
             args := []; param_types := [];
             body := [ ast.Assign [self_attr "count"]
                         (ast.BinOp (self_attr "count") ast.Add
                            (ast.Constant (ast.CInt 1))) ] |});
         ("get_count",
          {| is_public := false; is_view := true; has_return := true;
             args := []; param_types := [];
             body := [ ast.Return (Some (self_attr "count")) ] |}) ];
     initial_values := [("count", PyInt 0); ("owner", PyInt 0)] |}.

(** [calculate_mapping_slot]: the compile-time reference for the slot of
    a mapping entry. *)
Definition calculate_mapping_slot (key : push_value) (base_slot : Z)
    : result Z :=
  key_bytes ← match key with
              | PInt k => to_bytes k 32
              | PBytes bs => Ok bs
              end;
  slot_bytes ← to_bytes base_slot 32;
  let data := key_bytes ++ slot_bytes in
  let hash_result := keccak256 data in
  Ok (from_bytes hash_result).

(** ** Storage layout ([StorageLayout] of [evm_compiler.py]) *)

Record StorageLayout : Type := {
  slots : gmap string nat;
  next_slot : nat
}.

(** [StorageLayout(slots={})], as [EVMBytecodeGenerator.__init__] builds it. *)
Definition empty_layout : StorageLayout :=
  {| slots := ∅; next_slot := 0 |}.

(** [allocate]: the slot returned and the layout afterwards. *)
Definition allocate (var_name : string) (l : StorageLayout)
    : nat * StorageLayout :=
  match slots l !! var_name with
  | Some slot => (slot, l)
  | None =>
      (next_slot l,
       {| slots := <[var_name := next_slot l]> (slots l);
          next_slot := S (next_slot l) |})
  end.

(** A sequence of allocations, the slots returned in order. *)
Fixpoint allocate_all (names : list string) (l : StorageLayout)
    : list nat * StorageLayout :=
  match names with
  | [] => ([], l)
  | x :: names' =>
      let '(slot, l) := allocate x l in
      let '(rest, l) := allocate_all names' l in
      (slot :: rest, l)
  end.

(** ** The target machine: the EVM on the opcodes the generator emits

    Words are integers modulo [2^256]; memory is a byte list read as
    zero beyond its end; gas and the stack limit are not modelled.  An
    opcode that takes operands [a, b, ...] finds [a] on top of the
    stack. *)

Module EVM.

Definition modulus : Z := 2 ^ 256.

Record machine : Type := Machine {
  pc : nat;
  stack : list Z;
  memory : list Z;
  storage : gmap Z Z
}.

Record env : Type := Env {
  code : list Z;
  calldata : list Z
}.

Inductive outcome : Type :=
| Running (m : machine)
| Stopped (m : machine)
| Returned (data : list Z) (m : machine)
| Reverted (data : list Z)
| Fault.

(** [n] bytes of [bs] from [off], zero beyond the end. *)
Definition read_bytes (off n : nat) (bs : list Z) : list Z :=
  take n (drop off bs ++ repeat 0 n).

(** Write [bs] at [off], growing the memory with zeros as needed. *)
Definition write_bytes (off : nat) (bs mem : list Z) : list Z :=
  let mem := mem ++ repeat 0 (off + length bs - length mem) in
  take off mem ++ bs ++ drop (off + length bs) mem.

Definition bool_word (b : bool) : Z := if b then 1 else 0.

(** The positions of [code] that hold a JUMPDEST outside push data:
    [scan] walks the instructions from position [pos]. *)
Fixpoint jumpdest_scan (fuel pos : nat) (code : list Z) (dest : nat) : bool :=
  match fuel with
  | O => false
  | S fuel' =>
      match code !! pos with
      | None => false
      | Some op =>
          if (pos =? dest)%nat then op =? EVMOpcode.JUMPDEST
          else if (0x60 <=? op) && (op <=? 0x7f)
               then jumpdest_scan fuel' (pos + 1 + Z.to_nat (op - 0x5f)) code dest
               else jumpdest_scan fuel' (pos + 1) code dest
      end
  end.

Definition valid_jumpdest (code : list Z) (dest : Z) : bool :=
  (dest <? Z.of_nat (length code)) &&
  jumpdest_scan (length code) 0 code (Z.to_nat dest).

Definition next (m : machine) (st : list Z) : machine :=
  {| pc := S (pc m); stack := st; memory := memory m; storage := storage m |}.

(** One instruction. *)
Definition step (e : env) (m : machine) : outcome :=
  match code e !! pc m with
  | None => Stopped m
  | Some op =>
      if (0x60 <=? op) && (op <=? 0x7f) then
        let n := Z.to_nat (op - 0x5f) in
        let v := from_bytes (read_bytes (S (pc m)) n (code e)) in
        Running {| pc := (pc m + 1 + n)%nat; stack := v :: stack m;
                   memory := memory m; storage := storage m |}
      else if op =? EVMOpcode.STOP then Stopped m
      else if op =? EVMOpcode.JUMPDEST then Running (next m (stack m))
      else if op =? EVMOpcode.CALLDATASIZE then
        Running (next m (Z.of_nat (length (calldata e)) :: stack m))
      else
      match stack m with
      | [] => Fault
      | a :: st1 =>
          if op =? EVMOpcode.ISZERO then
            Running (next m (bool_word (a =? 0) :: st1))
          else if op =? EVMOpcode.DUP1 then Running (next m (a :: a :: st1))
          else if op =? EVMOpcode.CALLDATALOAD then
            Running (next m
              (from_bytes (read_bytes (Z.to_nat a) 32 (calldata e)) :: st1))
          else if op =? EVMOpcode.SLOAD then
            Running (next m (default 0 (storage m !! a) :: st1))
          else if op =? EVMOpcode.JUMP then
            if valid_jumpdest (code e) a
            then Running {| pc := Z.to_nat a; stack := st1;
                            memory := memory m; storage := storage m |}
            else Fault
          else
          match st1 with
          | [] => Fault
          | b :: st2 =>
              if op =? EVMOpcode.ADD then
                Running (next m ((a + b) mod modulus :: st2))
              else if op =? EVMOpcode.MUL then
                Running (next m ((a * b) mod modulus :: st2))
              else if op =? EVMOpcode.SUB then
                Running (next m ((a - b) mod modulus :: st2))
              else if op =? EVMOpcode.DIV then
                Running (next m ((if b =? 0 then 0 else a / b) :: st2))
              else if op =? EVMOpcode.MOD then
                Running (next m ((if b =? 0 then 0 else a mod b) :: st2))
              else if op =? EVMOpcode.LT then
                Running (next m (bool_word (a <? b) :: st2))
              else if op =? EVMOpcode.GT then
                Running (next m (bool_word (b <? a) :: st2))
              else if op =? EVMOpcode.EQ then
                Running (next m (bool_word (a =? b) :: st2))
              else if op =? EVMOpcode.SHR then
                Running (next m
                  ((if 256 <=? a then 0 else Z.shiftr b a) :: st2))
              else if op =? EVMOpcode.DUP2 then
                Running (next m (b :: a :: b :: st2))
              else if op =? EVMOpcode.SWAP1 then
                Running (next m (b :: a :: st2))
              else if op =? EVMOpcode.SHA3 then
                Running (next m
                  (from_bytes
                     (keccak256
                        (read_bytes (Z.to_nat a) (Z.to_nat b) (memory m)))
                   :: st2))
              else if op =? EVMOpcode.MSTORE then
                Running {| pc := S (pc m); stack := st2;
                           memory := write_bytes (Z.to_nat a) (be_bytes 32 b)
                                       (memory m);
                           storage := storage m |}
              else if op =? EVMOpcode.SSTORE then
                Running {| pc := S (pc m); stack := st2;
                           memory := memory m;
                           storage := <[a := b]> (storage m) |}
              else if op =? EVMOpcode.JUMPI then
                if b =? 0 then Running (next m st2)
                else if valid_jumpdest (code e) a
                     then Running {| pc := Z.to_nat a; stack := st2;
                                     memory := memory m;
                                     storage := storage m |}
                     else Fault
              else if op =? EVMOpcode.RETURN then
                Returned (read_bytes (Z.to_nat a) (Z.to_nat b) (memory m)) m
              else if op =? EVMOpcode.REVERT then
                Reverted (read_bytes (Z.to_nat a) (Z.to_nat b) (memory m))
              else if op =? EVMOpcode.CODECOPY then
                match st2 with
                | [] => Fault
                | c :: st3 =>
                    Running {| pc := S (pc m); stack := st3;
                               memory :=
                                 write_bytes (Z.to_nat a)
                                   (read_bytes (Z.to_nat b) (Z.to_nat c)
                                      (code e))
                                   (memory m);
                               storage := storage m |}
                end
              else Fault
          end
      end
  end.

(** At most [fuel] instructions. *)
Fixpoint run (fuel : nat) (e : env) (m : machine) : outcome :=
  match fuel with
  | O => Running m
  | S fuel' =>
      match step e m with
      | Running m' => run fuel' e m'
      | o => o
      end
  end.

Definition initial (st : gmap Z Z) : machine :=
  {| pc := 0; stack := []; memory := []; storage := st |}.

(** Contract creation: the deployment bytecode runs as the code, with
    empty calldata and storage; what it returns is the deployed code. *)
Definition create (fuel : nat) (artifact : list Z) : outcome :=
  run fuel {| code := artifact; calldata := [] |} (initial ∅).

(** A call to deployed code. *)
Definition call (fuel : nat) (deployed data : list Z) (st : gmap Z Z)
    : outcome :=
  run fuel {| code := deployed; calldata := data |} (initial st).

End EVM.

(** ** Vocabulary of the statements *)

(** The region that [emit], [emit_push] and [_backpatch] leave alone. *)
Definition inactive_code (g : generator) : list Z :=
  if String.eqb (current_mode g) "init" then runtime_code g else init_code g.

(** [g'] is [g] with [bs] appended to the active region and nothing else
    changed but the gas counter. *)
Definition appended (g g' : generator) (bs : list Z) : Prop :=
  active_code g' = active_code g ++ bs /\
  inactive_code g' = inactive_code g /\
  current_mode g' = current_mode g.

(** The distinct names of a sequence in first-seen order. *)
Definition note_first_seen (seen : list string) (x : string) : list string :=
  if bool_decide (x ∈ seen) then seen else seen ++ [x].

Definition first_seen (names : list string) : list string :=
  fold_left note_first_seen names [].

(** The layout that gives the names of [seen], in order, the slots
    0, 1, 2, ... and has handed out nothing else. *)
Definition layout_of (seen : list string) (l : StorageLayout) : Prop :=
  NoDup seen /\
  next_slot l = length seen /\
  forall (x : string) (n : nat), slots l !! x = Some n <-> seen !! n = Some x.

(** A computation that raised. *)
Definition raises {A : Type} (r : result A) : Prop := exists e, r = Err e.

(** Straight-line execution of a code fragment: wherever [frag] sits in
    the code, [steps] instructions started at its first byte with stack,
    memory and storage [s] end just past its last byte with [s']. *)
Definition runs (frag : list Z) (steps : nat)
    (s s' : list Z * list Z * gmap Z Z) : Prop :=
  forall pre post cd : list Z,
    EVM.run steps
      {| EVM.code := pre ++ frag ++ post; EVM.calldata := cd |}
      {| EVM.pc := length pre; EVM.stack := s.1.1;
         EVM.memory := s.1.2; EVM.storage := s.2 |}
    = EVM.Running
        {| EVM.pc := length pre + length frag; EVM.stack := s'.1.1;
           EVM.memory := s'.1.2; EVM.storage := s'.2 |}.

(** A public function whose body is made of constructs outside the
    supported grammar only. *)
Definition unsupported_contract : ContractState :=
  {| variables := [];
     functions :=
       [ ("f",
          {| is_public := true; is_view := false; has_return := true;
             args := []; param_types := [];
             body := [ ast.OtherStmt; ast.Return (Some ast.OtherExpr) ] |}) ];
     initial_values := [] |}.

(** The bytes [emit_push] appends for an integer when no width is
    given: the push opcode of the chosen width, then the operand. *)
Definition push_code (v : Z) : list Z :=
  [EVMOpcode.PUSH1 + Z.of_nat (push_width v) - 1] ++ be_bytes (push_width v) v.

(** What [_compile_mapping_slot] emits after the code of the key, for the
    base slot [p]. *)
Definition mapping_tail (p : Z) : list Z :=
  push_code 0 ++ [EVMOpcode.MSTORE] ++
  push_code p ++ push_code 32 ++ [EVMOpcode.MSTORE] ++
  push_code 64 ++ push_code 0 ++ [EVMOpcode.SHA3].

(** The calldata-length guard, the selector load and the terminal revert
    block of the dispatcher, as emitted. *)
Definition guard_code : list Z :=
  [EVMOpcode.PUSH1; 4; EVMOpcode.CALLDATASIZE; EVMOpcode.LT;
   EVMOpcode.PUSH2; 0xFF; 0xFF; EVMOpcode.JUMPI].

Definition selector_load_code : list Z :=
  [EVMOpcode.PUSH1; 0; EVMOpcode.CALLDATALOAD; EVMOpcode.PUSH1; 224;
   EVMOpcode.SHR].

Definition revert_code : list Z :=
  [EVMOpcode.JUMPDEST; EVMOpcode.PUSH1; 0; EVMOpcode.PUSH1; 0;
   EVMOpcode.REVERT].

(** [g'] is [g] with the other region and the mode untouched, the active
    region no shorter, and its first [n] bytes, if it had that many, as
    they were. *)
Definition keeps (n : nat) (g g' : generator) : Prop :=
  current_mode g' = current_mode g /\
  inactive_code g' = inactive_code g /\
  (length (active_code g) <= length (active_code g'))%nat /\
  ((n <= length (active_code g))%nat ->
   take n (active_code g') = take n (active_code g)).

(** A piece of the generator that, run in runtime mode, keeps the first
    [n] bytes. *)
Definition keeps_prefix (n : nat) (c : generator -> result generator) : Prop :=
  forall g g',
    current_mode g = "runtime" -> (n <= length (active_code g))%nat ->
    c g = Ok g' -> keeps n g g'.

(** The copy-and-return sequence that ends the constructor, for a
    runtime region of [size] bytes starting at [offset] in the artifact. *)
Definition copy_code (size offset : nat) : list Z :=
  [EVMOpcode.PUSH2] ++ be_bytes 2 (Z.of_nat size) ++
  [EVMOpcode.PUSH2] ++ be_bytes 2 (Z.of_nat offset) ++
  [EVMOpcode.DUP2; EVMOpcode.PUSH1; 0; EVMOpcode.CODECOPY;
   EVMOpcode.PUSH1; 0; EVMOpcode.RETURN].

(** ** ABI encoding (class [ABIEncoder]) *)

Module ABIEncoder.

(** [encode_uint256]. *)
Definition encode_uint256 (value : Z) : result (list Z) :=
  to_bytes value 32.

(** The argument of [encode_bytes32]: a [bytes] or a [str]. *)
Inductive bytes_or_str : Type :=
| Bytes (bs : list Z)
| Str (s : string).

(** [data.ljust(32, b'\x00')]: zero bytes appended up to 32; a longer
    [data] is returned as it is. *)
Definition ljust32 (data : list Z) : list Z :=
  data ++ repeat 0 (32 - length data).

(** [encode_bytes32]. *)
Definition encode_bytes32 (data : bytes_or_str) : list Z :=
  let data := match data with
              | Bytes bs => bs
              | Str s => encode_utf8 s
              end in
  ljust32 data.

(** [decode_uint256]. *)
Definition decode_uint256 (data : list Z) : Z :=
  from_bytes (take 32 data).

(** [decode_address]. *)
Definition decode_address (data : list Z) : Z :=
  from_bytes (take 32 data).

End ABIEncoder.

(** ** Vocabulary of the further properties *)

(** [runs], for code that reads the calldata [cd]. *)
Definition runs_in (cd : list Z) (frag : list Z) (steps : nat)
    (s s' : list Z * list Z * gmap Z Z) : Prop :=
  forall pre post : list Z,
    EVM.run steps
      {| EVM.code := pre ++ frag ++ post; EVM.calldata := cd |}
      {| EVM.pc := length pre; EVM.stack := s.1.1;
         EVM.memory := s.1.2; EVM.storage := s.2 |}
    = EVM.Running
        {| EVM.pc := length pre + length frag; EVM.stack := s'.1.1;
           EVM.memory := s'.1.2; EVM.storage := s'.2 |}.

(** The storage slot of entry [k] of the mapping at base slot [p], as the
    emitted code computes it from the two words. *)
Definition mapping_slot_word (k p : Z) : Z :=
  from_bytes (keccak256 (be_bytes 32 k ++ be_bytes 32 p)).

(** The word the code of an expression pushes, given the calldata and the
    storage; read off the opcodes [_compile_expression] emits.  The
    arithmetic opcodes find the operands in the order they were pushed,
    the right one on top. *)
Fixpoint eval_expr (e : ast.expr) (arg_map : gmap string nat)
    (state : ContractState) (cd : list Z) (sto : gmap Z Z) : Z :=
  match e with
  | ast.Constant (ast.CInt v) => v mod EVM.modulus
  | ast.Constant ast.COther => 0
  | ast.Name id =>
      match arg_map !! id with
      | Some arg_index =>
          let offset := (4 + Z.of_nat arg_index * 32) mod EVM.modulus in
          from_bytes (EVM.read_bytes (Z.to_nat offset) 32 cd)
      | None => 0
      end
  | ast.Attribute value attr =>
      if is_self value then
        match dict_get attr (variables state) with
        | Some slot => default 0 (sto !! (slot mod EVM.modulus))
        | None => 0
        end
      else 0
  | ast.Subscript value slice =>
      match self_attribute value with
      | Some mapping_name =>
          match dict_get mapping_name (variables state) with
          | Some base_slot =>
              let k := eval_expr slice arg_map state cd sto in
              default 0 (sto !! mapping_slot_word k base_slot)
          | None => 0
          end
      | None => 0
      end
  | ast.BinOp lhs op rhs =>
      let x := eval_expr lhs arg_map state cd sto in
      let y := eval_expr rhs arg_map state cd sto in
      match op with
      | ast.Add => (y + x) mod EVM.modulus
      | ast.Sub => (y - x) mod EVM.modulus
      | ast.Mult => (y * x) mod EVM.modulus
      | ast.Div => if x =? 0 then 0 else y / x
      | ast.Mod => if x =? 0 then 0 else y mod x
      | ast.OtherOperator => y
      end
  | ast.Compare lhs ops comparators =>
      let x := eval_expr lhs arg_map state cd sto in
      match comparators with
      | [] => x
      | comparator :: _ =>
          let y := eval_expr comparator arg_map state cd sto in
          match ops with
          | ast.Eq :: _ => EVM.bool_word (y =? x)
          | ast.Lt :: _ => EVM.bool_word (x <? y)
          | ast.Gt :: _ => EVM.bool_word (y <? x)
          | ast.LtE :: _ => EVM.bool_word (EVM.bool_word (y <? x) =? 0)
          | ast.GtE :: _ => EVM.bool_word (EVM.bool_word (x <? y) =? 0)
          | _ => y
          end
      end
  | ast.OtherExpr => 0
  end.

(** An expression all of whose operators the compiler has an opcode
    for. *)
Fixpoint supported (e : ast.expr) : bool :=
  match e with
  | ast.Subscript _ slice => supported slice
  | ast.BinOp lhs op rhs =>
      supported lhs && supported rhs &&
      match op with ast.OtherOperator => false | _ => true end
  | ast.Compare lhs ops comparators =>
      supported lhs &&
      match comparators with
      | [] => true
      | comparator :: _ =>
          supported comparator &&
          match ops with
          | [] | ast.OtherCmpop :: _ => false
          | _ => true
          end
      end
  | _ => true
  end.

(** The code between [g] and [g'] is straight-line and pushes one word,
    [w] of the storage, leaving the stack below it and the storage as they
    were (the memory may change). *)
Definition pushes (cd : list Z) (g g' : generator) (w : gmap Z Z -> Z)
    : Prop :=
  exists bs steps,
    appended g g' bs /\
    forall stk mem sto, exists mem',
      runs_in cd bs steps (stk, mem, sto) (w sto :: stk, mem', sto).

(** Code that halts with RETURN: wherever [frag] sits in the code,
    [steps] instructions started at its first byte with stack, memory and
    storage [s] end in a RETURN of [data] with the storage [sto']. *)
Definition returns_in (cd : list Z) (frag : list Z) (steps : nat)
    (s : list Z * list Z * gmap Z Z) (data : list Z) (sto' : gmap Z Z)
    : Prop :=
  forall pre post : list Z, exists m,
    EVM.run steps
      {| EVM.code := pre ++ frag ++ post; EVM.calldata := cd |}
      {| EVM.pc := length pre; EVM.stack := s.1.1;
         EVM.memory := s.1.2; EVM.storage := s.2 |}
    = EVM.Returned data m /\ EVM.storage m = sto'.

(** The storage after the code of a statement that is neither a [return]
    nor an [if]; read off the stores [_compile_statement] emits. *)
Definition exec_stmt (s : ast.stmt) (arg_map : gmap string nat)
    (state : ContractState) (cd : list Z) (sto : gmap Z Z) : gmap Z Z :=
  match s with
  | ast.Assign [ast.Attribute tvalue var_name] value =>
      if is_self tvalue then
        match dict_get var_name (variables state) with
        | Some slot =>
            <[slot mod EVM.modulus := eval_expr value arg_map state cd sto]>
              sto
        | None => sto
        end
      else sto
  | ast.Assign [ast.Subscript tvalue slice] value =>
      match self_attribute tvalue with
      | Some mapping_name =>
          match dict_get mapping_name (variables state) with
          | Some base_slot =>
              <[mapping_slot_word (eval_expr slice arg_map state cd sto)
                  base_slot
                := eval_expr value arg_map state cd sto]> sto
          | None => sto
          end
      | None => sto
      end
  | _ => sto
  end.

Definition exec_stmts (ss : list ast.stmt) (arg_map : gmap string nat)
    (state : ContractState) (cd : list Z) (sto : gmap Z Z) : gmap Z Z :=
  fold_left (fun sto s => exec_stmt s arg_map state cd sto) ss sto.

(** A statement without control flow whose expressions are supported. *)
Definition straight_line (s : ast.stmt) : bool :=
  match s with
  | ast.Return _ | ast.If _ _ _ => false
  | ast.Assign [ast.Attribute _ _] value => supported value
  | ast.Assign [ast.Subscript _ slice] value =>
      supported value && supported slice
  | _ => true
  end.

(** The code between [g] and [g'] is straight-line and turns the storage
    [sto] into [f sto], leaving the stack as it was (the memory may
    change). *)
Definition updates (cd : list Z) (g g' : generator)
    (f : gmap Z Z -> gmap Z Z) : Prop :=
  exists bs steps,
    appended g g' bs /\
    forall stk mem sto, exists mem',
      runs_in cd bs steps (stk, mem, sto) (stk, mem', f sto).

(** The code between [g] and [g'] halts with RETURN: it turns the storage
    [sto] into [f sto] and returns [data sto]. *)
Definition returns (cd : list Z) (g g' : generator)
    (data : gmap Z Z -> list Z) (f : gmap Z Z -> gmap Z Z) : Prop :=
  exists bs steps,
    appended g g' bs /\
    forall stk mem sto,
      returns_in cd bs steps (stk, mem, sto) (data sto) (f sto).

(** The number of functions the dispatcher has an entry for. *)
Definition count_exposed (fs : list (string * func_info)) : nat :=
  length (List.filter (fun p => exposed p.2) fs).

(** The selector check of one function, as emitted; nothing for a
    function that is neither public nor a view. *)
Definition entry_code (func_name : string) (f : func_info) : list Z :=
  if exposed f then
    [EVMOpcode.DUP1; EVMOpcode.PUSH4] ++
    function_selector (signature_of func_name f) ++
    [EVMOpcode.EQ; EVMOpcode.PUSH2; 0xDE; 0xAD; EVMOpcode.JUMPI]
  else [].

Definition entries_code (fs : list (string * func_info)) : list Z :=
  concat (map (fun p => entry_code p.1 p.2) fs).

(** The storage after the initialisation stores of the constructor; read
    off the loop of [generate_constructor]. *)
Fixpoint constructor_storage (vars : list (string * Z))
    (state : ContractState) (sto : gmap Z Z) : gmap Z Z :=
  match vars with
  | [] => sto
  | (var_name, slot) :: vars' =>
      constructor_storage vars' state
        match default (PyInt 0) (dict_get var_name (initial_values state)) with
        | PyInt initial_value =>
            <[slot mod EVM.modulus := initial_value mod EVM.modulus]> sto
        | PyOther => sto
        end
  end.

(** ** The fixed contracts of [evm_compiler.py]
    (class [EVMBytecodeGenerator], [generate_working_bytecode]) *)

Module EVMBytecodeGenerator.

(** The value of a hexadecimal digit.  Every argument of [bytes.fromhex]
    in the module is a literal made of an even number of such digits. *)
Definition hex_value (c : ascii) : Z :=
  let n := Z.of_nat (nat_of_ascii c) in
  if (48 <=? n) && (n <=? 57) then n - 48
  else if (97 <=? n) && (n <=? 102) then n - 87
  else if (65 <=? n) && (n <=? 70) then n - 55
  else 0.

(** [bytes.fromhex]. *)
Fixpoint fromhex (s : string) : list Z :=
  match s with
  | String a (String b s') => (hex_value a * 16 + hex_value b) :: fromhex s'
  | _ => []
  end.

Definition hex_digit (d : Z) : ascii :=
  nth (Z.to_nat d) (list_ascii_of_string "0123456789abcdef") "0"%char.

(** [bytearray.hex()]. *)
Fixpoint hex (bs : list Z) : string :=
  match bs with
  | [] => ""
  | b :: bs' => String (hex_digit (b / 16)) (String (hex_digit (b mod 16)) (hex bs'))
  end.

(** [while len(runtime) < n: runtime.append(0x00)]. *)
Definition pad_to (n : nat) (runtime : list Z) : list Z :=
  runtime ++ repeat 0 (n - length runtime).

(** The end of the three constructors: the two PUSH2 of the size of
    the runtime code and of its offset in the artifact, the bytes of
    [high] and [low] being [(x >> 8) & 0xFF] and [x & 0xFF]. *)
Definition push2 (x : Z) : list Z :=
  [0x61; Z.land (Z.shiftr x 8) 0xFF; Z.land x 0xFF].

(** The [runtime] bytearray of [generate_simple_storage]. *)
Definition simple_storage_runtime : list Z :=
  let runtime := [] in
  (* function dispatcher: load the selector *)
  let runtime := runtime ++ [0x60; 0x00; 0x35; 0x60; 0xe0; 0x1c] in
  (* set(uint256), selector 0x60fe47b1 *)
  let runtime := runtime ++ [0x80; 0x63] ++ fromhex "60fe47b1" ++
                 [0x14; 0x61] ++ fromhex "0020" ++ [0x57] in
  (* get(), selector 0x6d4ce63c *)
  let runtime := runtime ++ [0x80; 0x63] ++ fromhex "6d4ce63c" ++
                 [0x14; 0x61] ++ fromhex "0040" ++ [0x57] in
  let runtime := runtime ++ [0x00] in
  let runtime := pad_to 0x20 runtime in
  (* set(uint256) at 0x20 *)
  let runtime := runtime ++ [0x5b; 0x60; 0x04; 0x35; 0x60; 0x00; 0x55; 0x00] in
  let runtime := pad_to 0x40 runtime in
  (* get() at 0x40 *)
  let runtime := runtime ++ [0x5b; 0x60; 0x00; 0x54; 0x60; 0x00; 0x52;
                             0x60; 0x20; 0x60; 0x00; 0xf3] in
  runtime.

(** The [full_constructor] bytearray of [generate_simple_storage], the
    runtime code appended.  (The bytearray [constructor] the function
    fills first is never read.) *)
Definition simple_storage_code : list Z :=
  let runtime := simple_storage_runtime in
  let runtime_size := Z.of_nat (length runtime) in
  let full_constructor := [0x60; 0x00; 0x60; 0x00; 0x55] in
  let full_constructor := full_constructor ++ push2 runtime_size in
  let runtime_offset := Z.of_nat (length full_constructor) + 10 in
  let full_constructor := full_constructor ++ push2 runtime_offset in
  let full_constructor := full_constructor ++
                          [0x81; 0x60; 0x00; 0x39; 0x60; 0x00; 0xf3] in
  full_constructor ++ runtime.

(** [generate_simple_storage]. *)
Definition generate_simple_storage : string :=
  String.append "0x" (hex simple_storage_code).

(** The [runtime] bytearray of [generate_counter]. *)
Definition counter_runtime : list Z :=
  let runtime := [] in
  let runtime := runtime ++ fromhex "6000356000351c" in
  (* increment(), 0xd09de08a *)
  let runtime := runtime ++ [0x80] ++ fromhex "63d09de08a14" ++
                 fromhex "6100305761" in
  (* decrement(), 0x2baeceb7 *)
  let runtime := runtime ++ [0x80] ++ fromhex "632baeceb714" ++
                 fromhex "6100505761" in
  (* get_count(), 0xe7278e7f *)
  let runtime := runtime ++ [0x80] ++ fromhex "63e7278e7f14" ++
                 fromhex "6100705761" in
  let runtime := runtime ++ fromhex "00" in
  let runtime := pad_to 0x30 runtime in
  let runtime := runtime ++ [0x5b] ++ fromhex "600054" ++ fromhex "600101" ++
                 fromhex "600055" ++ [0x00] in
  let runtime := pad_to 0x50 runtime in
  let runtime := runtime ++ [0x5b] ++ fromhex "600054" ++ fromhex "600103" ++
                 fromhex "600055" ++ [0x00] in
  let runtime := pad_to 0x70 runtime in
  let runtime := runtime ++ [0x5b] ++ fromhex "600054" ++ fromhex "600052" ++
                 fromhex "602060" ++ [0xf3] in
  runtime.

(** The constructor of [generate_counter] and of [generate_token], the
    runtime code appended. *)
Definition with_constructor (runtime : list Z) : list Z :=
  let constructor := fromhex "6000600055" in
  let runtime_size := Z.of_nat (length runtime) in
  let runtime_offset := Z.of_nat (length constructor) + 13 in
  let constructor := constructor ++ push2 runtime_size in
  let constructor := constructor ++ push2 runtime_offset in
  let constructor := constructor ++ fromhex "816000396000f3" in
  constructor ++ runtime.

(** [generate_counter]. *)
Definition generate_counter : string :=
  String.append "0x" (hex (with_constructor counter_runtime)).

(** The [runtime] bytearray of [generate_token]. *)
Definition token_runtime : list Z :=
  let runtime := [] in
  let runtime := runtime ++ fromhex "600035600e1c" in
  (* mint(), 0x1249c58b *)
  let runtime := runtime ++ [0x80] ++ fromhex "631249c58b14" ++
                 fromhex "61003057" in
  (* balanceOf(address), 0x70a08231 *)
  let runtime := runtime ++ [0x80] ++ fromhex "6370a0823114" ++
                 fromhex "61005057" in
  (* totalSupply(), 0x18160ddd *)
  let runtime := runtime ++ [0x80] ++ fromhex "6318160ddd14" ++
                 fromhex "61007057" in
  let runtime := runtime ++ [0x00] in
  let runtime := pad_to 0x30 runtime in
  (* mint() *)
  let runtime := runtime ++ [0x5b; 0x33] ++ fromhex "620f4240" ++ [0x01] ++
                 [0x80; 0x54] ++ fromhex "688ac7230489e80000" ++ [0x01] ++
                 [0x90; 0x55] ++ fromhex "600054" ++
                 fromhex "688ac7230489e80000" ++ [0x01] ++
                 fromhex "600055" ++ [0x00] in
  let runtime := pad_to 0x50 runtime in
  (* balanceOf(address) *)
  let runtime := runtime ++ [0x5b] ++ fromhex "600435" ++ fromhex "620f4240" ++
                 [0x01; 0x54] ++ fromhex "600052" ++ fromhex "602060f3" in
  let runtime := pad_to 0x70 runtime in
  (* totalSupply() *)
  let runtime := runtime ++ [0x5b] ++ fromhex "600054" ++ fromhex "600052" ++
                 fromhex "602060f3" in
  runtime.

(** [generate_token]. *)
Definition generate_token : string :=
  String.append "0x" (hex (with_constructor token_runtime)).

(** The runtime code and the artifact [generate_working_bytecode] builds
    for a contract type, as bytes. *)
Definition working_runtime (contract_type : string) : list Z :=
  if String.eqb contract_type "storage" then simple_storage_runtime
  else if String.eqb contract_type "counter" then counter_runtime
  else if String.eqb contract_type "token" then token_runtime
  else simple_storage_runtime.

Definition working_code (contract_type : string) : list Z :=
  if String.eqb contract_type "storage" then simple_storage_code
  else if String.eqb contract_type "counter" then with_constructor counter_runtime
  else if String.eqb contract_type "token" then with_constructor token_runtime
  else simple_storage_code.

End EVMBytecodeGenerator.

(** [generate_working_bytecode]. *)
Definition generate_working_bytecode (contract_type : string) : string :=
  if String.eqb contract_type "storage"
  then EVMBytecodeGenerator.generate_simple_storage
  else if String.eqb contract_type "counter"
  then EVMBytecodeGenerator.generate_counter
  else if String.eqb contract_type "token"
  then EVMBytecodeGenerator.generate_token
  else EVMBytecodeGenerator.generate_simple_storage.

(** The word CALLDATALOAD reads at offset [off], and the selector the
    dispatchers of [evm_compiler.py] mean to compare: the first word of
    the calldata shifted right by 224 bits. *)
Definition calldata_word (cd : list Z) (off : nat) : Z :=
  from_bytes (EVM.read_bytes off 32 cd).

Definition calldata_selector (cd : list Z) : Z :=
  Z.shiftr (calldata_word cd 0) 224.

(** A statement that is not a conditional. *)
Definition no_if (s : ast.stmt) : bool :=
  match s with
  | ast.If _ _ _ => false
  | _ => true
  end.

(** The dict of placeholder offsets the selector loop of
    [generate_function_dispatcher] builds, the first check being emitted
    at offset [off]: for every function that is public or a view, the
    offset of the operand of its PUSH2, eight bytes into its check. *)
Fixpoint entry_placeholders (off : nat) (fs : list (string * func_info))
    (placeholders : gmap string nat) : gmap string nat :=
  match fs with
  | [] => placeholders
  | (func_name, f) :: fs' =>
      if exposed f
      then entry_placeholders (off + 11) fs'
             (<[func_name := (off + 8)%nat]> placeholders)
      else entry_placeholders off fs' placeholders
  end.

(** * Properties *)

(** ** Keccak test vectors: the selectors written out in [evm_compiler.py] *)

Example selector_get : from_bytes (function_selector "get()") = 0x6d4ce63c.
Proof. vm_compute. reflexivity. Qed.

Example selector_set :
  from_bytes (function_selector "set(uint256)") = 0x60fe47b1.
Proof. vm_compute. reflexivity. Qed.

Example selector_get_count :
  from_bytes (function_selector "get_count()") = 0xe7278e7f.
Proof. vm_compute. reflexivity. Qed.

Example keccak_abc :
  keccak256 (encode_utf8 "abc")
  = [0x4e; 0x03; 0x65; 0x7a; 0xea; 0x45; 0xa9; 0x4f; 0xc7; 0xd4; 0x7b; 0xa8;
     0x26; 0xc8; 0xd6; 0x67; 0xc0; 0xd1; 0xe6; 0xe3; 0x3a; 0x64; 0xa0; 0x36;
     0xec; 0x44; 0xf5; 0x8f; 0xa1; 0x2d; 0x6c; 0x45].
Proof. vm_compute. reflexivity. Qed.

(** ** Big-endian encoding *)

Section BigEndian.

Lemma length_be_bytes (n : nat) (v : Z) : length (be_bytes n v) = n.
Proof.
  revert v. induction n as [|n IH]; intros v; simpl; [reflexivity|].
  rewrite length_app, IH. simpl. lia.
Qed.

Lemma be_bytes_is_byte (n : nat) (v : Z) : Forall is_byte (be_bytes n v).
Proof.
  revert v. induction n as [|n IH]; intros v; simpl; [constructor|].
  apply Forall_app. split; [apply IH|].
  constructor; [|constructor]. unfold is_byte. apply Z.mod_pos_bound. lia.
Qed.

Lemma from_bytes_snoc (bs : list Z) (b : Z) :
  from_bytes (bs ++ [b]) = from_bytes bs * 256 + b.
Proof. unfold from_bytes. rewrite fold_left_app. reflexivity. Qed.

Lemma from_bytes_be_bytes (n : nat) (v : Z) :
  from_bytes (be_bytes n v) = v mod 256 ^ Z.of_nat n.
Proof.
  revert v. induction n as [|n IH]; intros v.
  - simpl. rewrite Z.mod_1_r. reflexivity.
  - cbn [be_bytes]. rewrite from_bytes_snoc, IH.
    rewrite Nat2Z.inj_succ, Z.pow_succ_r by lia.
    rewrite Z.rem_mul_r by lia. lia.
Qed.

Lemma from_bytes_bound (bs : list Z) :
  Forall is_byte bs -> 0 <= from_bytes bs < 256 ^ Z.of_nat (length bs).
Proof.
  induction bs as [|b bs IH] using rev_ind; intros H.
  - change (0 <= 0 < 1). lia.
  - apply Forall_app in H as [Hbs Hb]. inversion Hb as [|? ? Hb' _]; subst.
    rewrite from_bytes_snoc, length_app. simpl length.
    replace (Z.of_nat (length bs + 1)) with (Z.succ (Z.of_nat (length bs)))
      by lia.
    rewrite Z.pow_succ_r by lia. unfold is_byte in Hb'.
    specialize (IH Hbs). nia.
Qed.

(** The low [k] bytes of a wider encoding are the [k]-byte encoding. *)
Lemma be_bytes_split (m k : nat) (v : Z) :
  be_bytes (m + k) v = be_bytes m (v / 256 ^ Z.of_nat k) ++ be_bytes k v.
Proof.
  revert v. induction k as [|k IH]; intros v.
  - rewrite Nat.add_0_r. simpl. rewrite Z.div_1_r, app_nil_r. reflexivity.
  - rewrite Nat.add_succ_r. cbn [be_bytes]. rewrite IH, <- app_assoc.
    rewrite Nat2Z.inj_succ, Z.pow_succ_r by lia.
    rewrite Z.div_div by lia. reflexivity.
Qed.

Lemma last_n_be_bytes (n k : nat) (v : Z) :
  (0 < k <= n)%nat -> last_n k (be_bytes n v) = be_bytes k v.
Proof.
  intros Hk. unfold last_n. destruct k as [|k]; [lia|].
  rewrite length_be_bytes.
  replace n with ((n - S k) + S k)%nat at 2 by lia.
  rewrite be_bytes_split, drop_app_length'; [reflexivity|].
  symmetry. apply length_be_bytes.
Qed.

End BigEndian.

(** ** The width chosen by [emit_push] *)

Section PushWidth.

Lemma bit_length_spec (v : Z) :
  0 < v -> 2 ^ (bit_length v - 1) <= v < 2 ^ bit_length v.
Proof.
  intros Hv. unfold bit_length.
  destruct (Z.eqb_spec v 0) as [->|_]; [lia|].
  rewrite Z.abs_eq by lia.
  replace (Z.log2 v + 1 - 1) with (Z.log2 v) by lia.
  replace (Z.log2 v + 1) with (Z.succ (Z.log2 v)) by lia.
  apply Z.log2_spec. exact Hv.
Qed.

Lemma bit_length_nonneg (v : Z) : 0 <= bit_length v.
Proof.
  unfold bit_length. destruct (v =? 0); [lia|].
  pose proof (Z.log2_nonneg (Z.abs v)). lia.
Qed.

Lemma pow256 (n : Z) : 0 <= n -> 256 ^ n = 2 ^ (8 * n).
Proof. intros Hn. rewrite Z.pow_mul_r by lia. reflexivity. Qed.

Lemma push_width_pos (v : Z) : (1 <= push_width v)%nat.
Proof. unfold push_width. lia. Qed.

(** The chosen width holds the value. *)
Lemma push_width_fits (v : Z) :
  0 <= v -> v < 256 ^ Z.of_nat (push_width v).
Proof.
  intros Hv. rewrite pow256 by lia.
  destruct (Z.eq_dec v 0) as [->|Hne].
  - apply Z.pow_pos_nonneg; lia.
  - destruct (bit_length_spec v) as [_ Hhi]; [lia|].
    eapply Z.lt_le_trans; [exact Hhi|].
    apply Z.pow_le_mono_r; [lia|]. unfold push_width.
    pose proof (bit_length_nonneg v).
    pose proof (Z.div_mod (bit_length v + 7) 8 ltac:(lia)).
    pose proof (Z.mod_pos_bound (bit_length v + 7) 8 ltac:(lia)). lia.
Qed.

(** No narrower width does, unless the width is the least one, 1. *)
Lemma push_width_minimal (v : Z) :
  0 <= v ->
  push_width v = 1%nat \/ 256 ^ (Z.of_nat (push_width v) - 1) <= v.
Proof.
  intros Hv. destruct (Z.eq_dec v 0) as [->|Hne]; [left; reflexivity|].
  destruct (bit_length_spec v) as [Hlo _]; [lia|].
  pose proof (bit_length_nonneg v) as Hb.
  pose proof (Z.div_mod (bit_length v + 7) 8 ltac:(lia)) as Hdm.
  pose proof (Z.mod_pos_bound (bit_length v + 7) 8 ltac:(lia)) as Hm.
  unfold push_width.
  destruct (Z.le_gt_cases ((bit_length v + 7) / 8) 1) as [Hle|Hgt].
  - left. lia.
  - right. rewrite pow256 by lia.
    eapply Z.le_trans; [|exact Hlo].
    apply Z.pow_le_mono_r; lia.
Qed.

Lemma push_width_le_32 (v : Z) :
  0 <= v < 2 ^ 256 -> (push_width v <= 32)%nat.
Proof.
  intros [Hlo Hhi].
  destruct (push_width_minimal v Hlo) as [->|Hmin]; [lia|].
  destruct (Nat.le_gt_cases (push_width v) 32) as [|Hgt]; [assumption|].
  exfalso.
  assert (256 ^ 32 <= 256 ^ (Z.of_nat (push_width v) - 1))
    by (apply Z.pow_le_mono_r; lia).
  change (256 ^ 32) with (2 ^ 256) in *. lia.
Qed.

Lemma push_width_gt_32 (v : Z) :
  2 ^ 256 <= v -> (32 < push_width v)%nat.
Proof.
  intros Hv.
  destruct (Nat.le_gt_cases (push_width v) 32) as [Hle|]; [|assumption].
  exfalso. pose proof (push_width_fits v ltac:(lia)) as Hfit.
  assert (256 ^ Z.of_nat (push_width v) <= 256 ^ 32)
    by (apply Z.pow_le_mono_r; lia).
  change (256 ^ 32) with (2 ^ 256) in *. lia.
Qed.

Lemma to_bytes_ok (v : Z) (n : nat) :
  0 <= v < 256 ^ Z.of_nat n -> to_bytes v n = Ok (be_bytes n v).
Proof.
  intros [Hlo Hhi]. unfold to_bytes.
  destruct (Z.ltb_spec v 0); [lia|].
  destruct (Z.leb_spec (256 ^ Z.of_nat n) v); [lia|]. reflexivity.
Qed.

Lemma to_bytes_overflow (v : Z) (n : nat) :
  v < 0 \/ 256 ^ Z.of_nat n <= v -> to_bytes v n = Err OverflowError.
Proof.
  intros H. unfold to_bytes.
  destruct (Z.ltb_spec v 0); [reflexivity|].
  destruct (Z.leb_spec (256 ^ Z.of_nat n) v); [reflexivity|]. lia.
Qed.

End PushWidth.

(** ** The emitter *)

Section Emitter.

Lemma active_set_active (g : generator) (code : list Z) :
  active_code (set_active_code g code) = code.
Proof.
  unfold active_code, set_active_code.
  destruct (String.eqb (current_mode g) "init") eqn:E; simpl; rewrite E;
    reflexivity.
Qed.

Lemma inactive_set_active (g : generator) (code : list Z) :
  inactive_code (set_active_code g code) = inactive_code g.
Proof.
  unfold inactive_code, set_active_code.
  destruct (String.eqb (current_mode g) "init") eqn:E; simpl; rewrite E;
    reflexivity.
Qed.

Lemma mode_set_active (g : generator) (code : list Z) :
  current_mode (set_active_code g code) = current_mode g.
Proof.
  unfold set_active_code.
  destruct (String.eqb (current_mode g) "init"); reflexivity.
Qed.

Lemma appended_refl (g : generator) : appended g g [].
Proof. unfold appended. rewrite app_nil_r. auto. Qed.

Lemma appended_trans (g1 g2 g3 : generator) (bs1 bs2 : list Z) :
  appended g1 g2 bs1 -> appended g2 g3 bs2 -> appended g1 g3 (bs1 ++ bs2).
Proof.
  unfold appended. intros (A1 & I1 & M1) (A2 & I2 & M2).
  rewrite A2, A1, I2, I1, M2, M1, app_assoc. auto.
Qed.

Lemma emit_appended (op : Z) (g : generator) : appended g (emit op g) [op].
Proof.
  unfold appended, emit.
  rewrite active_set_active, inactive_set_active, mode_set_active. auto.
Qed.

(** What [emit_push] does once the operand bytes are known. *)
Lemma emit_push_int_sized (v : Z) (n : nat) (g : generator) :
  0 <= v < 256 ^ Z.of_nat n -> (0 < n <= 32)%nat ->
  exists g', emit_push (PInt v) (Some n) g = Ok g' /\
    appended g g' ([EVMOpcode.PUSH1 + Z.of_nat n - 1] ++ be_bytes n v).
Proof.
  intros Hv Hn. unfold emit_push. rewrite to_bytes_ok by exact Hv.
  cbn [mbind result_bind]. rewrite Nat.min_l by lia.
  rewrite last_n_be_bytes by lia.
  eexists. split; [reflexivity|].
  unfold appended, active_code, inactive_code, set_active_code; simpl.
  destruct (String.eqb (current_mode g) "init") eqn:E; simpl; rewrite E;
    auto.
Qed.

Lemma emit_push_int_auto (v : Z) (g : generator) :
  0 <= v ->
  let n := Nat.min (push_width v) 32 in
  exists g', emit_push (PInt v) None g = Ok g' /\
    appended g g' ([EVMOpcode.PUSH1 + Z.of_nat n - 1] ++ be_bytes n v).
Proof.
  intros Hv n. unfold emit_push.
  rewrite to_bytes_ok by (split; [exact Hv|apply push_width_fits; exact Hv]).
  cbn [mbind result_bind]. fold n.
  pose proof (push_width_pos v).
  rewrite last_n_be_bytes by lia.
  eexists. split; [reflexivity|].
  unfold appended, active_code, inactive_code, set_active_code; simpl.
  destruct (String.eqb (current_mode g) "init") eqn:E; simpl; rewrite E;
    auto.
Qed.

Lemma emit3_appended (op1 op2 op3 : Z) (g : generator) :
  appended g (emit op3 (emit op2 (emit op1 g))) [op1; op2; op3].
Proof.
  change [op1; op2; op3] with ([op1] ++ [op2] ++ [op3]).
  eapply appended_trans; [apply emit_appended|].
  eapply appended_trans; apply emit_appended.
Qed.

End Emitter.

(** C4. For every value [0 <= v < 2^256], [emit_push] without a width
    succeeds and appends the opcode [PUSH1 + n - 1] followed by exactly [n]
    operand bytes, where [n] in 1..32 is the least width that holds [v];
    read back as an unsigned big-endian integer the operand is [v]; the
    value 0 is emitted as the single byte 0 under PUSH1. *)
Theorem emit_push_minimal_roundtrip (v : Z) (g : generator) :
  0 <= v < 2 ^ 256 ->
  exists (n : nat) (operand : list Z) (g' : generator),
    emit_push (PInt v) None g = Ok g' /\
    appended g g' ([EVMOpcode.PUSH1 + Z.of_nat n - 1] ++ operand) /\
    (1 <= n <= 32)%nat /\
    v < 256 ^ Z.of_nat n /\
    (n = 1%nat \/ 256 ^ (Z.of_nat n - 1) <= v) /\
    length operand = n /\
    Forall is_byte operand /\
    from_bytes operand = v /\
    (v = 0 -> n = 1%nat /\ operand = [0]).
Proof.
  intros Hv.
  pose proof (push_width_le_32 v Hv) as Hle.
  pose proof (push_width_pos v) as Hpos.
  destruct (emit_push_int_auto v g) as (g' & Hg' & Happ); [lia|].
  rewrite Nat.min_l in Happ by exact Hle.
  exists (push_width v), (be_bytes (push_width v) v), g'.
  split; [exact Hg'|]. split; [exact Happ|]. split; [lia|].
  split; [apply push_width_fits; lia|].
  split; [apply push_width_minimal; lia|].
  split; [apply length_be_bytes|].
  split; [apply be_bytes_is_byte|].
  split.
  - rewrite from_bytes_be_bytes. apply Z.mod_small.
    split; [lia|apply push_width_fits; lia].
  - intros ->. split; reflexivity.
Qed.

Lemma emit_push_minimal_roundtrip_witness :
  exists (n : nat) (operand : list Z) (g' : generator),
    emit_push (PInt 0x1234) None new_generator = Ok g' /\
    appended new_generator g' ([EVMOpcode.PUSH1 + Z.of_nat n - 1] ++ operand) /\
    (1 <= n <= 32)%nat /\
    0x1234 < 256 ^ Z.of_nat n /\
    (n = 1%nat \/ 256 ^ (Z.of_nat n - 1) <= 0x1234) /\
    length operand = n /\
    Forall is_byte operand /\
    from_bytes operand = 0x1234 /\
    (0x1234 = 0 -> n = 1%nat /\ operand = [0]).
Proof.
  apply (emit_push_minimal_roundtrip 0x1234 new_generator).
  split; [discriminate|reflexivity].
Defined.

(** C10. For every value [v >= 2^256], [emit_push] without a width does
    not fail: it appends PUSH32 and the 32 low bytes of [v], which read
    back as [v mod 2^256]. *)
Theorem emit_push_oversized_truncates (v : Z) (g : generator) :
  2 ^ 256 <= v ->
  exists (operand : list Z) (g' : generator),
    emit_push (PInt v) None g = Ok g' /\
    appended g g' ([EVMOpcode.PUSH32] ++ operand) /\
    length operand = 32%nat /\
    operand = be_bytes 32 v /\
    from_bytes operand = v mod 2 ^ 256 /\
    from_bytes operand <> v.
Proof.
  intros Hv.
  pose proof (push_width_gt_32 v Hv) as Hgt.
  destruct (emit_push_int_auto v g) as (g' & Hg' & Happ); [lia|].
  rewrite Nat.min_r in Happ by lia.
  exists (be_bytes 32 v), g'.
  split; [exact Hg'|]. split; [exact Happ|].
  split; [apply length_be_bytes|]. split; [reflexivity|].
  rewrite from_bytes_be_bytes. change (256 ^ Z.of_nat 32) with (2 ^ 256).
  split; [reflexivity|].
  pose proof (Z.mod_pos_bound v (2 ^ 256) ltac:(lia)). lia.
Qed.

Lemma emit_push_oversized_truncates_witness :
  exists (operand : list Z) (g' : generator),
    emit_push (PInt (2 ^ 256 + 5)) None new_generator = Ok g' /\
    appended new_generator g' ([EVMOpcode.PUSH32] ++ operand) /\
    length operand = 32%nat /\
    operand = be_bytes 32 (2 ^ 256 + 5) /\
    from_bytes operand = (2 ^ 256 + 5) mod 2 ^ 256 /\
    from_bytes operand <> 2 ^ 256 + 5.
Proof.
  apply (emit_push_oversized_truncates (2 ^ 256 + 5) new_generator).
  vm_compute. discriminate.
Defined.

(** ** Backpatching *)

Section Backpatch.

Lemma be_bytes_2 (target : Z) :
  0 <= target <= 0xFFFF ->
  be_bytes 2 target = [target / 256; target mod 256].
Proof.
  intros Ht. cbn [be_bytes app]. f_equal.
  apply Z.mod_small. split.
  - apply Z.div_pos; lia.
  - apply Z.div_lt_upper_bound; lia.
Qed.

Lemma from_bytes_2 (target : Z) :
  from_bytes [target / 256; target mod 256] = target.
Proof.
  unfold from_bytes. simpl.
  pose proof (Z.div_mod target 256 ltac:(lia)). lia.
Qed.

Lemma backpatch_ok (offset : nat) (target : Z) (g : generator) :
  0 <= target <= 0xFFFF ->
  _backpatch offset target 2 g =
    Ok (set_active_code g
          (take offset (active_code g) ++ [target / 256; target mod 256] ++
           drop (offset + 2) (active_code g))).
Proof.
  intros Ht. unfold _backpatch.
  rewrite to_bytes_ok by (change (256 ^ Z.of_nat 2) with 65536; lia).
  cbn [mbind result_bind]. rewrite be_bytes_2 by exact Ht. reflexivity.
Qed.

End Backpatch.

(** C9, as stated, fails on two counts.  The code has no [LinkError]: a
    target beyond 16 bits raises the [OverflowError] of [int.to_bytes].
    And the two bytes are written to the region that is active when
    [_backpatch] is called, whatever region the placeholder was reserved
    in: a placeholder reserved in runtime mode and patched in init mode
    keeps its bytes DE AD, the target landing in the initialisation
    region. *)
Lemma backpatch_writes_active_region :
  exists g1 g2,
    emit_push (PInt 0xDEAD) (Some 2%nat) (set_mode "runtime" new_generator)
    = Ok g1 /\
    runtime_code g1 = [EVMOpcode.PUSH2; 0xDE; 0xAD] /\
    _backpatch 1 0x0102 2 (set_mode "init" g1) = Ok g2 /\
    runtime_code g2 = [EVMOpcode.PUSH2; 0xDE; 0xAD] /\
    init_code g2 = [0x01; 0x02] /\
    _backpatch 1 0x10000 2 g1 = Err OverflowError.
Proof.
  eexists _, _. split; [vm_compute; reflexivity|].
  split; [reflexivity|]. split; [vm_compute; reflexivity|].
  split; [reflexivity|]. split; reflexivity.
Qed.

(** C9, amended. [_backpatch(offset, target, 2)] raises when [target] is
    outside the 16-bit range (the [OverflowError] of [int.to_bytes];
    nothing is written, nothing is truncated).  When [target] is within
    range and the two bytes at [offset] lie in the active region, the
    region of the mode in force at the call, it succeeds and overwrites
    exactly those two bytes of that region with [target] in big-endian
    order: the region keeps its length, every other byte, the other
    region, the mode and the gas counter are unchanged. *)
Theorem backpatch_range (offset : nat) (target : Z) (g : generator) :
  (target < 0 \/ 0xFFFF < target ->
   _backpatch offset target 2 g = Err OverflowError) /\
  (0 <= target <= 0xFFFF ->
   (offset + 2 <= length (active_code g))%nat ->
   exists g', _backpatch offset target 2 g = Ok g' /\
     active_code g' !! offset = Some (target / 256) /\
     active_code g' !! S offset = Some (target mod 256) /\
     from_bytes (take 2 (drop offset (active_code g'))) = target /\
     (forall i : nat, (i < offset \/ offset + 2 <= i)%nat ->
        active_code g' !! i = active_code g !! i) /\
     length (active_code g') = length (active_code g) /\
     inactive_code g' = inactive_code g /\
     current_mode g' = current_mode g /\
     gas_used g' = gas_used g).
Proof.
  split.
  - intros Ht. unfold _backpatch. rewrite to_bytes_overflow; [reflexivity|].
    change (256 ^ Z.of_nat 2) with 65536. lia.
  - intros Ht Hlen. eexists. split; [apply backpatch_ok; exact Ht|].
    rewrite active_set_active, inactive_set_active, mode_set_active.
    set (code := active_code g) in *.
    assert (Htake : length (take offset code) = offset)
      by (rewrite length_take; lia).
    split; [|split; [|split; [|split; [|split; [|split; [|split]]]]]].
    + rewrite lookup_app_r by lia. rewrite Htake, Nat.sub_diag. reflexivity.
    + rewrite lookup_app_r by lia. rewrite Htake.
      replace (S offset - offset)%nat with 1%nat by lia. reflexivity.
    + rewrite drop_app_length' by (symmetry; exact Htake).
      cbn [app take]. apply from_bytes_2.
    + intros i [Hi|Hi].
      * rewrite lookup_app_l by lia. apply lookup_take_lt. exact Hi.
      * rewrite lookup_app_r by lia. rewrite Htake.
        destruct (i - offset)%nat as [|[|k]] eqn:E; [lia|lia|].
        change (drop (offset + 2) code !! k = code !! i).
        rewrite lookup_drop. f_equal. lia.
    + rewrite !length_app, Htake, length_drop. simpl. lia.
    + reflexivity.
    + reflexivity.
    + unfold set_active_code.
      destruct (String.eqb (current_mode g) "init"); reflexivity.
Qed.

Lemma backpatch_range_witness :
  let g := {| init_code := []; runtime_code := [0x61; 0xDE; 0xAD; 0x57];
              current_mode := "runtime"; gas_used := 3 |} in
  _backpatch 1 0x10000 2 g = Err OverflowError /\
  exists g', _backpatch 1 0x0102 2 g = Ok g' /\
     active_code g' !! 1%nat = Some (0x0102 / 256) /\
     active_code g' !! 2%nat = Some (0x0102 mod 256) /\
     from_bytes (take 2 (drop 1 (active_code g'))) = 0x0102 /\
     (forall i : nat, (i < 1 \/ 1 + 2 <= i)%nat ->
        active_code g' !! i = active_code g !! i) /\
     length (active_code g') = length (active_code g) /\
     inactive_code g' = inactive_code g /\
     current_mode g' = current_mode g /\
     gas_used g' = gas_used g.
Proof.
  intros g. split.
  - apply (proj1 (backpatch_range 1 0x10000 g)). right. reflexivity.
  - apply (proj2 (backpatch_range 1 0x0102 g)).
    + split; discriminate.
    + simpl. lia.
Defined.

(** ** Storage layout *)

Section Layout.

Lemma layout_of_empty : layout_of [] empty_layout.
Proof.
  split; [constructor|]. split; [reflexivity|].
  intros x n. simpl. rewrite lookup_empty, lookup_nil. split; discriminate.
Qed.

Lemma layout_of_seen (seen : list string) (l : StorageLayout) (x : string) :
  layout_of seen l -> (x ∈ seen <-> is_Some (slots l !! x)).
Proof.
  intros (_ & _ & H). rewrite list_elem_of_lookup. split.
  - intros [n Hn]. exists n. apply H. exact Hn.
  - intros [n Hn]. exists n. apply H. exact Hn.
Qed.

(** One allocation keeps the layout in step with the first-seen order. *)
Lemma allocate_layout_of (seen : list string) (l : StorageLayout)
    (x : string) :
  layout_of seen l -> layout_of (note_first_seen seen x) (allocate x l).2.
Proof.
  intros Hl. pose proof (layout_of_seen seen l x Hl) as Hseen.
  destruct Hl as (Hnd & Hnext & Hslots).
  unfold note_first_seen, allocate.
  destruct (slots l !! x) as [s|] eqn:E.
  - rewrite bool_decide_eq_true_2 by (apply Hseen; eauto).
    simpl. split; [exact Hnd|]. split; [exact Hnext|exact Hslots].
  - assert (Hx : x ∉ seen).
    { intros Hin. apply Hseen in Hin. destruct Hin as [? ?]. discriminate. }
    rewrite bool_decide_eq_false_2 by exact Hx.
    unfold layout_of. cbn [snd slots next_slot].
    split; [|split].
    + apply NoDup_app. split; [exact Hnd|]. split.
      * intros y Hy Hy'. apply list_elem_of_singleton in Hy'. subst y.
        exact (Hx Hy).
      * apply NoDup_singleton.
    + rewrite length_app. simpl. lia.
    + intros y n. destruct (decide (x = y)) as [->|Hne].
      * rewrite lookup_insert_eq, Hnext. split.
        -- intros [= <-]. rewrite lookup_app_r by lia.
           rewrite Nat.sub_diag. reflexivity.
        -- intros Hn. f_equal.
           destruct (Nat.lt_ge_cases n (length seen)) as [Hlt|Hge].
           ++ rewrite lookup_app_l in Hn by exact Hlt.
              exfalso. apply Hx. apply list_elem_of_lookup. eauto.
           ++ apply lookup_lt_Some in Hn. rewrite length_app in Hn.
              simpl in Hn. lia.
      * rewrite lookup_insert_ne by exact Hne. rewrite Hslots. split.
        -- intros Hn. rewrite lookup_app_l; [exact Hn|].
           apply lookup_lt_Some in Hn. exact Hn.
        -- intros Hn.
           destruct (Nat.lt_ge_cases n (length seen)) as [Hlt|Hge].
           ++ rewrite lookup_app_l in Hn by exact Hlt. exact Hn.
           ++ rewrite lookup_app_r in Hn by exact Hge.
              destruct (n - length seen)%nat; simpl in Hn;
                [congruence|discriminate].
Qed.

Lemma allocate_all_layout_of (names seen : list string) (l : StorageLayout) :
  layout_of seen l ->
  layout_of (fold_left note_first_seen names seen) (allocate_all names l).2.
Proof.
  revert seen l. induction names as [|x names IH]; intros seen l Hl.
  - exact Hl.
  - simpl. pose proof (allocate_layout_of seen l x Hl) as Hstep.
    destruct (allocate x l) as [s l1]. simpl in Hstep.
    specialize (IH _ _ Hstep).
    destruct (allocate_all names l1) as [rest l2]. exact IH.
Qed.

(** A slot, once handed out, stays with its name. *)
Lemma allocate_keeps (x y : string) (s : nat) (l : StorageLayout) :
  slots l !! x = Some s -> slots (allocate y l).2 !! x = Some s.
Proof.
  intros Hx. unfold allocate.
  destruct (slots l !! y) eqn:E; cbn [snd slots].
  - exact Hx.
  - rewrite lookup_insert_ne; [exact Hx|]. intros ->. congruence.
Qed.

Lemma allocate_all_keeps (more : list string) (x : string) (s : nat)
    (l : StorageLayout) :
  slots l !! x = Some s -> slots (allocate_all more l).2 !! x = Some s.
Proof.
  revert l. induction more as [|y more IH]; intros l Hx; [exact Hx|].
  simpl. pose proof (allocate_keeps x y s l Hx) as Hstep.
  destruct (allocate y l) as [s1 l1]. simpl in Hstep.
  specialize (IH l1 Hstep).
  destruct (allocate_all more l1) as [rest l2]. exact IH.
Qed.

End Layout.

(** C5. After any sequence of allocations on a fresh layout, the [n]-th
    distinct first-seen name holds slot [n] (zero-indexed) and no name
    holds any other slot; allocating a name that already has a slot
    returns that slot and leaves the layout as it is; a slot belongs to
    one name only, and further allocations never move it. *)
Theorem allocate_first_seen_slots (names : list string) :
  let l := (allocate_all names empty_layout).2 in
  (forall (n : nat) (x : string),
     first_seen names !! n = Some x <-> slots l !! x = Some n) /\
  next_slot l = length (first_seen names) /\
  (forall (x : string) (s : nat),
     slots l !! x = Some s -> allocate x l = (s, l)) /\
  (forall (x y : string) (s : nat),
     slots l !! x = Some s -> slots l !! y = Some s -> x = y) /\
  (forall (more : list string) (x : string) (s : nat),
     slots l !! x = Some s ->
     slots (allocate_all more l).2 !! x = Some s).
Proof.
  intros l.
  destruct (allocate_all_layout_of names [] empty_layout layout_of_empty)
    as (Hnd & Hnext & Hslots).
  fold (first_seen names) in Hnd, Hnext, Hslots. fold l in Hnext, Hslots.
  split; [|split; [|split; [|split]]].
  - intros n x. symmetry. apply Hslots.
  - exact Hnext.
  - intros x s Hx. unfold allocate. rewrite Hx. reflexivity.
  - intros x y s Hx Hy. apply Hslots in Hx, Hy. congruence.
  - intros more x s Hx. apply allocate_all_keeps. exact Hx.
Qed.

Lemma allocate_first_seen_slots_witness :
  let l := (allocate_all ["count"; "owner"; "count"] empty_layout).2 in
  (forall (n : nat) (x : string),
     first_seen ["count"; "owner"; "count"] !! n = Some x
     <-> slots l !! x = Some n) /\
  next_slot l = length (first_seen ["count"; "owner"; "count"]) /\
  (forall (x : string) (s : nat),
     slots l !! x = Some s -> allocate x l = (s, l)) /\
  (forall (x y : string) (s : nat),
     slots l !! x = Some s -> slots l !! y = Some s -> x = y) /\
  (forall (more : list string) (x : string) (s : nat),
     slots l !! x = Some s ->
     slots (allocate_all more l).2 !! x = Some s).
Proof. exact (allocate_first_seen_slots ["count"; "owner"; "count"]). Defined.

Example allocate_first_seen_example :
  (allocate_all ["count"; "owner"; "count"; "total"] empty_layout).1
  = [0; 1; 0; 2]%nat.
Proof. reflexivity. Qed.

(** ** Constructs outside the supported grammar *)

(** C7, as stated, fails: an expression of an unsupported kind compiles,
    without any error, to [PUSH1 0], and a contract whose only function
    is made of unsupported constructs still yields an artifact. *)
Lemma unsupported_construct_compiles :
  ~ raises (_compile_expression ast.OtherExpr ∅ empty_contract new_generator)
  /\ _compile_expression ast.OtherExpr ∅ empty_contract new_generator
     = Ok {| init_code := [0x60; 0x00]; runtime_code := [];
             current_mode := "init"; gas_used := 3 |}
  /\ ~ raises (_compile_statement ast.OtherStmt ∅ empty_contract new_generator)
  /\ ~ raises (_generate_enhanced_bytecode unsupported_contract new_generator).
Proof.
  split; [intros [e He]; discriminate He|].
  split; [reflexivity|].
  split; [intros [e He]; discriminate He|].
  intros [e He]. vm_compute in He. discriminate He.
Qed.

(** C7, amended. Compilation never fails on a construct outside the
    supported grammar: an expression of any other kind is compiled to
    [PUSH1 0], a statement of any other kind to nothing, and a binary or
    comparison operator outside the supported ones to the code of its
    operands alone. *)
Theorem unsupported_construct_default (arg_map : gmap string nat)
    (state : ContractState) (g : generator) :
  (exists g', _compile_expression ast.OtherExpr arg_map state g = Ok g' /\
     appended g g' [EVMOpcode.PUSH1; 0]) /\
  _compile_statement ast.OtherStmt arg_map state g = Ok g /\
  (forall a b : ast.expr,
     _compile_expression (ast.BinOp a ast.OtherOperator b) arg_map state g
     = (g1 ← _compile_expression a arg_map state g;
        _compile_expression b arg_map state g1)) /\
  (forall a b : ast.expr,
     _compile_expression (ast.Compare a [ast.OtherCmpop] [b]) arg_map state g
     = (g1 ← _compile_expression a arg_map state g;
        _compile_expression b arg_map state g1)).
Proof.
  split; [|split; [reflexivity|split]].
  - destruct (emit_push_int_auto 0 g) as (g' & Hg' & Happ); [lia|].
    exists g'. split; [exact Hg'|exact Happ].
  - intros a b. cbn [_compile_expression].
    destruct (_compile_expression a arg_map state g) as [g1|]; [|reflexivity].
    cbn [mbind result_bind].
    destruct (_compile_expression b arg_map state g1); reflexivity.
  - intros a b. cbn [_compile_expression].
    destruct (_compile_expression a arg_map state g) as [g1|]; [|reflexivity].
    cbn [mbind result_bind].
    destruct (_compile_expression b arg_map state g1); reflexivity.
Qed.

(** ** Straight-line execution on the EVM *)

Section StraightLine.

Lemma run_add (n1 n2 : nat) (e : EVM.env) (m m' : EVM.machine) :
  EVM.run n1 e m = EVM.Running m' ->
  EVM.run (n1 + n2) e m = EVM.run n2 e m'.
Proof.
  revert m. induction n1 as [|n1 IH]; intros m H.
  - simpl in H. injection H as ->. reflexivity.
  - simpl in *. destruct (EVM.step e m) as [m1| | | |]; try discriminate.
    apply IH. exact H.
Qed.

(** Fragments compose. *)
Lemma runs_app (f1 f2 : list Z) (n1 n2 : nat)
    (s1 s2 s3 : list Z * list Z * gmap Z Z) :
  runs f1 n1 s1 s2 -> runs f2 n2 s2 s3 -> runs (f1 ++ f2) (n1 + n2) s1 s3.
Proof.
  intros H1 H2 pre post cd.
  rewrite <- (app_assoc f1 f2 post).
  rewrite (run_add n1 n2 _ _ _ (H1 pre (f2 ++ post) cd)).
  specialize (H2 (pre ++ f1) post cd).
  rewrite <- app_assoc in H2. rewrite length_app in H2.
  rewrite H2. rewrite length_app, Nat.add_assoc. reflexivity.
Qed.

Lemma lookup_middle (pre post : list Z) (op : Z) :
  (pre ++ op :: post) !! length pre = Some op.
Proof. rewrite lookup_app_r by lia. rewrite Nat.sub_diag. reflexivity. Qed.

(** One instruction without operand bytes, given what [step] does on it. *)
Lemma runs_one (op : Z) (s s' : list Z * list Z * gmap Z Z) :
  (forall (e : EVM.env) (pc : nat),
     EVM.code e !! pc = Some op ->
     EVM.step e {| EVM.pc := pc; EVM.stack := s.1.1;
                   EVM.memory := s.1.2; EVM.storage := s.2 |}
     = EVM.Running {| EVM.pc := S pc; EVM.stack := s'.1.1;
                      EVM.memory := s'.1.2; EVM.storage := s'.2 |}) ->
  runs [op] 1 s s'.
Proof.
  intros H pre post cd. cbn [EVM.run].
  rewrite H by (cbn [EVM.code app]; apply lookup_middle).
  cbn [length]. rewrite Nat.add_1_r. reflexivity.
Qed.

Ltac step_op :=
  apply runs_one; intros e pc Hop; unfold EVM.step; cbn [EVM.pc EVM.stack];
  rewrite Hop; reflexivity.

Lemma runs_swap1 (a b : Z) (st mem : list Z) (sto : gmap Z Z) :
  runs [EVMOpcode.SWAP1] 1 (a :: b :: st, mem, sto) (b :: a :: st, mem, sto).
Proof. step_op. Qed.

Lemma runs_gt (a b : Z) (st mem : list Z) (sto : gmap Z Z) :
  runs [EVMOpcode.GT] 1 (a :: b :: st, mem, sto)
       (EVM.bool_word (b <? a) :: st, mem, sto).
Proof. step_op. Qed.

Lemma runs_lt (a b : Z) (st mem : list Z) (sto : gmap Z Z) :
  runs [EVMOpcode.LT] 1 (a :: b :: st, mem, sto)
       (EVM.bool_word (a <? b) :: st, mem, sto).
Proof. step_op. Qed.

Lemma runs_iszero (a : Z) (st mem : list Z) (sto : gmap Z Z) :
  runs [EVMOpcode.ISZERO] 1 (a :: st, mem, sto)
       (EVM.bool_word (a =? 0) :: st, mem, sto).
Proof. step_op. Qed.

Lemma runs_mstore (a b : Z) (st mem : list Z) (sto : gmap Z Z) :
  runs [EVMOpcode.MSTORE] 1 (a :: b :: st, mem, sto)
       (st, EVM.write_bytes (Z.to_nat a) (be_bytes 32 b) mem, sto).
Proof. step_op. Qed.

Lemma runs_sha3 (a b : Z) (st mem : list Z) (sto : gmap Z Z) :
  runs [EVMOpcode.SHA3] 1 (a :: b :: st, mem, sto)
       (from_bytes (keccak256 (EVM.read_bytes (Z.to_nat a) (Z.to_nat b) mem))
          :: st, mem, sto).
Proof. step_op. Qed.

Lemma runs_sload (a : Z) (st mem : list Z) (sto : gmap Z Z) :
  runs [EVMOpcode.SLOAD] 1 (a :: st, mem, sto)
       (default 0 (sto !! a) :: st, mem, sto).
Proof. step_op. Qed.

Lemma runs_sstore (a b : Z) (st mem : list Z) (sto : gmap Z Z) :
  runs [EVMOpcode.SSTORE] 1 (a :: b :: st, mem, sto)
       (st, mem, <[a := b]> sto).
Proof. step_op. Qed.

(** A push with its operand bytes, as [emit_push] lays it out. *)
Lemma runs_push (n : nat) (v : Z) (st mem : list Z) (sto : gmap Z Z) :
  (1 <= n <= 32)%nat -> 0 <= v < 256 ^ Z.of_nat n ->
  runs ([EVMOpcode.PUSH1 + Z.of_nat n - 1] ++ be_bytes n v) 1
       (st, mem, sto) (v :: st, mem, sto).
Proof.
  intros Hn Hv pre post cd. cbn [EVM.run]. unfold EVM.step.
  cbn [EVM.pc EVM.stack EVM.code EVM.memory EVM.storage fst snd].
  rewrite <- (app_assoc [_] (be_bytes n v) post). cbn [app].
  rewrite lookup_middle.
  assert (Hop : (0x60 <=? EVMOpcode.PUSH1 + Z.of_nat n - 1) &&
                (EVMOpcode.PUSH1 + Z.of_nat n - 1 <=? 0x7f) = true).
  { unfold EVMOpcode.PUSH1. apply andb_true_intro.
    split; apply Z.leb_le; lia. }
  rewrite Hop.
  replace (Z.to_nat (EVMOpcode.PUSH1 + Z.of_nat n - 1 - 0x5f)) with n
    by (unfold EVMOpcode.PUSH1; lia).
  assert (Hread : EVM.read_bytes (S (length pre)) n
                    (pre ++ (EVMOpcode.PUSH1 + Z.of_nat n - 1)
                         :: be_bytes n v ++ post) = be_bytes n v).
  { unfold EVM.read_bytes.
    rewrite (cons_middle _ pre), app_assoc.
    replace (S (length pre))
      with (length (pre ++ [EVMOpcode.PUSH1 + Z.of_nat n - 1]))
      by (rewrite length_app; simpl; lia).
    rewrite drop_app_length, <- app_assoc.
    apply take_app_length'. symmetry. apply length_be_bytes. }
  rewrite Hread, from_bytes_be_bytes, Z.mod_small by exact Hv.
  cbn [length]. rewrite length_be_bytes. do 2 f_equal. lia.
Qed.

Lemma runs_push_code (v : Z) (st mem : list Z) (sto : gmap Z Z) :
  0 <= v < 2 ^ 256 ->
  runs (push_code v) 1 (st, mem, sto) (v :: st, mem, sto).
Proof.
  intros Hv. apply runs_push.
  - pose proof (push_width_pos v). pose proof (push_width_le_32 v Hv). lia.
  - split; [lia|apply push_width_fits; lia].
Qed.

Lemma push_int_appended (v : Z) (g : generator) :
  0 <= v < 2 ^ 256 ->
  exists g', push_int v g = Ok g' /\ appended g g' (push_code v).
Proof.
  intros Hv. destruct (emit_push_int_auto v g) as (g' & Hg' & Happ); [lia|].
  rewrite Nat.min_l in Happ by (apply push_width_le_32; exact Hv).
  exists g'. split; [exact Hg'|exact Happ].
Qed.

End StraightLine.

(** ** Comparisons *)

(** C8. For [a <= b] the compiler emits the code of [a], the code of
    [b], then SWAP1, GT, ISZERO; for [a >= b], SWAP1, LT, ISZERO: the
    strict opposite comparison on the operands in source order, negated,
    and no other opcode.  Run on the EVM with the value [x] of [a] below
    the value [y] of [b] on the stack, the three instructions replace
    both by 1 when [x <= y] (respectively [x >= y]) and by 0 otherwise,
    for all operand values. *)
Theorem compare_le_ge_negated_strict (a b : ast.expr)
    (arg_map : gmap string nat) (state : ContractState)
    (g g1 g2 : generator) :
  _compile_expression a arg_map state g = Ok g1 ->
  _compile_expression b arg_map state g1 = Ok g2 ->
  let le_code := [EVMOpcode.SWAP1; EVMOpcode.GT; EVMOpcode.ISZERO] in
  let ge_code := [EVMOpcode.SWAP1; EVMOpcode.LT; EVMOpcode.ISZERO] in
  (exists g3,
     _compile_expression (ast.Compare a [ast.LtE] [b]) arg_map state g
     = Ok g3 /\ appended g2 g3 le_code) /\
  (exists g3,
     _compile_expression (ast.Compare a [ast.GtE] [b]) arg_map state g
     = Ok g3 /\ appended g2 g3 ge_code) /\
  (forall (x y : Z) (st mem : list Z) (sto : gmap Z Z),
     runs le_code 3 (y :: x :: st, mem, sto)
          ((if x <=? y then 1 else 0) :: st, mem, sto) /\
     runs ge_code 3 (y :: x :: st, mem, sto)
          ((if x >=? y then 1 else 0) :: st, mem, sto)).
Proof.
  intros Ha Hb le_code ge_code.
  split; [|split].
  - cbn [_compile_expression]. rewrite Ha. cbn [mbind result_bind].
    rewrite Hb. cbn [mbind result_bind]. eexists. split; [reflexivity|].
    apply emit3_appended.
  - cbn [_compile_expression]. rewrite Ha. cbn [mbind result_bind].
    rewrite Hb. cbn [mbind result_bind]. eexists. split; [reflexivity|].
    apply emit3_appended.
  - intros x y st mem sto. split.
    + replace (if x <=? y then 1 else 0)
        with (EVM.bool_word (EVM.bool_word (y <? x) =? 0)).
      * apply (runs_app [EVMOpcode.SWAP1] [EVMOpcode.GT; EVMOpcode.ISZERO]
                 1 2 _ (x :: y :: st, mem, sto)); [apply runs_swap1|].
        apply (runs_app [EVMOpcode.GT] [EVMOpcode.ISZERO] 1 1 _
                 (EVM.bool_word (y <? x) :: st, mem, sto));
          [apply runs_gt|apply runs_iszero].
      * destruct (Z.ltb_spec y x), (Z.leb_spec x y); try reflexivity; lia.
    + replace (if x >=? y then 1 else 0)
        with (EVM.bool_word (EVM.bool_word (x <? y) =? 0)).
      * apply (runs_app [EVMOpcode.SWAP1] [EVMOpcode.LT; EVMOpcode.ISZERO]
                 1 2 _ (x :: y :: st, mem, sto)); [apply runs_swap1|].
        apply (runs_app [EVMOpcode.LT] [EVMOpcode.ISZERO] 1 1 _
                 (EVM.bool_word (x <? y) :: st, mem, sto));
          [apply runs_lt|apply runs_iszero].
      * rewrite Z.geb_leb.
        destruct (Z.ltb_spec x y), (Z.leb_spec y x); try reflexivity; lia.
Qed.

Lemma compare_le_ge_negated_strict_witness :
  let a := ast.Constant (ast.CInt 3) in
  let b := ast.Constant (ast.CInt 5) in
  let g := set_mode "runtime" new_generator in
  let g2 := {| init_code := []; runtime_code := [0x60; 3; 0x60; 5];
               current_mode := "runtime"; gas_used := 6 |} in
  let le_code := [EVMOpcode.SWAP1; EVMOpcode.GT; EVMOpcode.ISZERO] in
  let ge_code := [EVMOpcode.SWAP1; EVMOpcode.LT; EVMOpcode.ISZERO] in
  (exists g3,
     _compile_expression (ast.Compare a [ast.LtE] [b]) ∅ empty_contract g
     = Ok g3 /\ appended g2 g3 le_code) /\
  (exists g3,
     _compile_expression (ast.Compare a [ast.GtE] [b]) ∅ empty_contract g
     = Ok g3 /\ appended g2 g3 ge_code) /\
  (forall (x y : Z) (st mem : list Z) (sto : gmap Z Z),
     runs le_code 3 (y :: x :: st, mem, sto)
          ((if x <=? y then 1 else 0) :: st, mem, sto) /\
     runs ge_code 3 (y :: x :: st, mem, sto)
          ((if x >=? y then 1 else 0) :: st, mem, sto)).
Proof.
  intros a b g g2.
  apply (compare_le_ge_negated_strict a b ∅ empty_contract g
           {| init_code := []; runtime_code := [0x60; 3];
              current_mode := "runtime"; gas_used := 3 |} g2);
    reflexivity.
Defined.

(** ** Mapping slots *)

Section MappingSlot.

Lemma small_word (v : Z) : 0 <= v <= 64 -> 0 <= v < 2 ^ 256.
Proof.
  intros Hv. split; [lia|].
  apply Z.le_lt_trans with 64; [lia|]. apply Z.ltb_lt. reflexivity.
Qed.

(** The code emitted after the key. *)
Lemma mapping_slot_code_appended
    (compile_key : generator -> result generator) (p : Z)
    (g g1 : generator) :
  0 <= p < 2 ^ 256 -> compile_key g = Ok g1 ->
  exists g2, mapping_slot_code compile_key p g = Ok g2 /\
    appended g1 g2 (mapping_tail p).
Proof.
  intros Hp Hkey. unfold mapping_slot_code. rewrite Hkey.
  cbn [mbind result_bind].
  destruct (push_int_appended 0 g1 (small_word 0 ltac:(lia)))
    as (ga & -> & Ha). cbn [mbind result_bind].
  destruct (push_int_appended p (emit EVMOpcode.MSTORE ga) Hp)
    as (gb & -> & Hb). cbn [mbind result_bind].
  destruct (push_int_appended 32 gb (small_word 32 ltac:(lia)))
    as (gc & -> & Hc). cbn [mbind result_bind].
  destruct (push_int_appended 64 (emit EVMOpcode.MSTORE gc)
              (small_word 64 ltac:(lia)))
    as (gd & -> & Hd). cbn [mbind result_bind].
  destruct (push_int_appended 0 gd (small_word 0 ltac:(lia)))
    as (ge & -> & He). cbn [mbind result_bind].
  eexists. split; [reflexivity|]. unfold mapping_tail.
  eapply appended_trans; [exact Ha|].
  eapply appended_trans; [apply emit_appended|].
  eapply appended_trans; [exact Hb|].
  eapply appended_trans; [exact Hc|].
  eapply appended_trans; [apply emit_appended|].
  eapply appended_trans; [exact Hd|].
  eapply appended_trans; [exact He|].
  apply emit_appended.
Qed.

(** Two word stores at offsets 0 and 32 fill the first 64 bytes. *)
Lemma read_after_two_writes (bk bp mem : list Z) :
  length bk = 32%nat -> length bp = 32%nat ->
  EVM.read_bytes 0 64 (EVM.write_bytes 32 bp (EVM.write_bytes 0 bk mem))
  = bk ++ bp.
Proof.
  intros Hk Hp.
  assert (H1 : exists rest, EVM.write_bytes 0 bk mem = bk ++ rest).
  { unfold EVM.write_bytes. rewrite take_0. eexists. reflexivity. }
  destruct H1 as [rest ->].
  unfold EVM.write_bytes. rewrite Hp.
  rewrite <- (app_assoc bk rest).
  rewrite take_app_length' by (symmetry; exact Hk).
  unfold EVM.read_bytes. rewrite drop_0.
  rewrite <- !app_assoc. rewrite (app_assoc bk bp).
  apply take_app_length'. rewrite length_app. lia.
Qed.

(** The emitted tail, run with the key on top of the stack. *)
Lemma runs_mapping_tail (k p : Z) (st mem : list Z) (sto : gmap Z Z) :
  0 <= p < 2 ^ 256 ->
  let mem' := EVM.write_bytes 32 (be_bytes 32 p)
                (EVM.write_bytes 0 (be_bytes 32 k) mem) in
  runs (mapping_tail p) 8 (k :: st, mem, sto)
       (from_bytes (keccak256 (be_bytes 32 k ++ be_bytes 32 p)) :: st,
        mem', sto).
Proof.
  intros Hp mem'. unfold mapping_tail.
  rewrite <- (read_after_two_writes (be_bytes 32 k) (be_bytes 32 p) mem)
    by apply length_be_bytes.
  fold mem'.
  apply (runs_app _ _ 1 7 _ (0 :: k :: st, mem, sto));
    [apply runs_push_code, small_word; lia|].
  apply (runs_app _ _ 1 6 _
           (st, EVM.write_bytes 0 (be_bytes 32 k) mem, sto));
    [apply (runs_mstore 0 k)|].
  apply (runs_app _ _ 1 5 _
           (p :: st, EVM.write_bytes 0 (be_bytes 32 k) mem, sto));
    [apply runs_push_code; exact Hp|].
  apply (runs_app _ _ 1 4 _
           (32 :: p :: st, EVM.write_bytes 0 (be_bytes 32 k) mem, sto));
    [apply runs_push_code, small_word; lia|].
  apply (runs_app _ _ 1 3 _ (st, mem', sto)); [apply (runs_mstore 32 p)|].
  apply (runs_app _ _ 1 2 _ (64 :: st, mem', sto));
    [apply runs_push_code, small_word; lia|].
  apply (runs_app _ _ 1 1 _ (0 :: 64 :: st, mem', sto));
    [apply runs_push_code, small_word; lia|].
  apply (runs_sha3 0 64).
Qed.

End MappingSlot.

(** C6. For a mapping with base slot [p] (a 256-bit word) and a key whose
    code leaves the word [k] on the stack, the code emitted after the key
    writes [k] as 32 bytes at memory offset 0 and [p] as 32 bytes at
    offset 32, then hashes those 64 bytes: it leaves
    [keccak256(k_32 ++ p_32)], read as an unsigned big-endian integer, in
    place of [k].  That word is what [calculate_mapping_slot] returns; it
    is the slot the SLOAD of a mapping read loads from and the slot the
    SSTORE of a mapping store writes the value beneath it to. *)
Theorem mapping_slot_keccak (key : ast.expr) (name : string) (p k : Z)
    (arg_map : gmap string nat) (state : ContractState)
    (g g1 : generator) :
  dict_get name (variables state) = Some p ->
  0 <= p < 2 ^ 256 -> 0 <= k < 2 ^ 256 ->
  _compile_expression key arg_map state g = Ok g1 ->
  let slot := from_bytes (keccak256 (be_bytes 32 k ++ be_bytes 32 p)) in
  calculate_mapping_slot (PInt k) p = Ok slot /\
  (exists g2, _compile_mapping_slot key p arg_map state g = Ok g2 /\
     appended g1 g2 (mapping_tail p)) /\
  (exists g3,
     _compile_expression (ast.Subscript (self_attr name) key) arg_map state g
     = Ok g3 /\
     appended g1 g3 (mapping_tail p ++ [EVMOpcode.SLOAD])) /\
  (forall (value : ast.expr) (g0 : generator),
     _compile_expression value arg_map state g0 = Ok g ->
     exists g3,
       _compile_statement
         (ast.Assign [ast.Subscript (self_attr name) key] value)
         arg_map state g0 = Ok g3 /\
       appended g1 g3 (mapping_tail p ++ [EVMOpcode.SSTORE])) /\
  (forall (v : Z) (st mem : list Z) (sto : gmap Z Z),
     exists mem',
       EVM.read_bytes 0 64 mem' = be_bytes 32 k ++ be_bytes 32 p /\
       runs (mapping_tail p) 8 (k :: v :: st, mem, sto)
            (slot :: v :: st, mem', sto) /\
       runs (mapping_tail p ++ [EVMOpcode.SLOAD]) 9
            (k :: v :: st, mem, sto)
            (default 0 (sto !! slot) :: v :: st, mem', sto) /\
       runs (mapping_tail p ++ [EVMOpcode.SSTORE]) 9
            (k :: v :: st, mem, sto)
            (st, mem', <[slot := v]> sto)).
Proof.
  intros Hname Hp Hk Hkey slot.
  destruct (mapping_slot_code_appended
              (_compile_expression key arg_map state) p g g1 Hp Hkey)
    as (g2 & Hg2 & Happ).
  split; [|split; [|split; [|split]]].
  - unfold calculate_mapping_slot.
    rewrite !to_bytes_ok by (change (256 ^ Z.of_nat 32) with (2 ^ 256); lia).
    reflexivity.
  - exists g2. split; [exact Hg2|exact Happ].
  - cbn [_compile_expression self_attr self_attribute is_self].
    rewrite String.eqb_refl, Hname, Hg2. cbn [mbind result_bind].
    eexists. split; [reflexivity|].
    eapply appended_trans; [exact Happ|apply emit_appended].
  - intros value g0 Hvalue.
    cbn [_compile_statement self_attr self_attribute is_self].
    rewrite String.eqb_refl, Hname, Hvalue. cbn [mbind result_bind].
    unfold _compile_mapping_slot. rewrite Hg2. cbn [mbind result_bind].
    eexists. split; [reflexivity|].
    eapply appended_trans; [exact Happ|apply emit_appended].
  - intros v st mem sto.
    pose proof (runs_mapping_tail k p (v :: st) mem sto Hp) as Hrun.
    cbv zeta in Hrun. fold slot in Hrun.
    eexists. split; [|split; [exact Hrun|split]].
    + apply read_after_two_writes; apply length_be_bytes.
    + eapply (runs_app _ _ 8 1); [exact Hrun|apply runs_sload].
    + eapply (runs_app _ _ 8 1); [exact Hrun|apply runs_sstore].
Qed.

Lemma mapping_slot_keccak_witness :
  let state := {| variables := [("balances", 1)]; functions := [];
                  initial_values := [] |} in
  let key := ast.Constant (ast.CInt 7) in
  let g := set_mode "runtime" new_generator in
  let g1 := {| init_code := []; runtime_code := [0x60; 7];
               current_mode := "runtime"; gas_used := 3 |} in
  let slot := from_bytes (keccak256 (be_bytes 32 7 ++ be_bytes 32 1)) in
  calculate_mapping_slot (PInt 7) 1 = Ok slot /\
  (exists g2, _compile_mapping_slot key 1 ∅ state g = Ok g2 /\
     appended g1 g2 (mapping_tail 1)) /\
  (exists g3,
     _compile_expression (ast.Subscript (self_attr "balances") key) ∅ state g
     = Ok g3 /\
     appended g1 g3 (mapping_tail 1 ++ [EVMOpcode.SLOAD])) /\
  (forall (value : ast.expr) (g0 : generator),
     _compile_expression value ∅ state g0 = Ok g ->
     exists g3,
       _compile_statement
         (ast.Assign [ast.Subscript (self_attr "balances") key] value)
         ∅ state g0 = Ok g3 /\
       appended g1 g3 (mapping_tail 1 ++ [EVMOpcode.SSTORE])) /\
  (forall (v : Z) (st mem : list Z) (sto : gmap Z Z),
     exists mem',
       EVM.read_bytes 0 64 mem' = be_bytes 32 7 ++ be_bytes 32 1 /\
       runs (mapping_tail 1) 8 (7 :: v :: st, mem, sto)
            (slot :: v :: st, mem', sto) /\
       runs (mapping_tail 1 ++ [EVMOpcode.SLOAD]) 9
            (7 :: v :: st, mem, sto)
            (default 0 (sto !! slot) :: v :: st, mem', sto) /\
       runs (mapping_tail 1 ++ [EVMOpcode.SSTORE]) 9
            (7 :: v :: st, mem, sto)
            (st, mem', <[slot := v]> sto)).
Proof.
  intros state key g g1.
  apply (mapping_slot_keccak key "balances" 1 7 ∅ state g g1).
  - reflexivity.
  - split; [discriminate|reflexivity].
  - split; [discriminate|reflexivity].
  - reflexivity.
Defined.

(** The slot of key 7 under base slot 1, as the emitted code computes it
    on the EVM, is the one [calculate_mapping_slot] gives. *)
Example mapping_slot_run :
  exists slot, calculate_mapping_slot (PInt 7) 1 = Ok slot /\
  EVM.run 9
    {| EVM.code := [0x60; 7] ++ mapping_tail 1; EVM.calldata := [] |}
    (EVM.initial ∅)
  = EVM.Running
      {| EVM.pc := 15; EVM.stack := [slot];
         EVM.memory := be_bytes 32 7 ++ be_bytes 32 1;
         EVM.storage := ∅ |}.
Proof. eexists. split; vm_compute; reflexivity. Qed.

(** ** The dispatcher *)

Section Dispatcher.

Lemma keccak256_is_byte (data : list Z) : Forall is_byte (keccak256 data).
Proof.
  unfold keccak256, Keccak.keccak256, Keccak.squeeze.
  apply Forall_concat. apply List.Forall_map. apply Forall_forall.
  intros i _. unfold Keccak.bytes_of_lane.
  apply List.Forall_map. apply Forall_forall. intros j _.
  unfold is_byte. apply Z.mod_pos_bound. lia.
Qed.

Lemma function_selector_bound (signature : string) :
  0 <= from_bytes (function_selector signature) < 256 ^ Z.of_nat 4.
Proof.
  unfold function_selector.
  assert (Hb : Forall is_byte (take 4 (keccak256 (encode_utf8 signature))))
    by apply Forall_take, keccak256_is_byte.
  pose proof (from_bytes_bound _ Hb) as [Hlo Hhi].
  split; [exact Hlo|].
  eapply Z.lt_le_trans; [exact Hhi|].
  apply Z.pow_le_mono_r; [lia|]. rewrite length_take. lia.
Qed.

(** In either named mode the offset is the length of the active region. *)
Lemma get_offset_runtime (g : generator) :
  current_mode g = "runtime" -> get_offset g = length (active_code g).
Proof. intros H. unfold get_offset, active_code. rewrite H. reflexivity. Qed.

Lemma appended_mode (g g' : generator) (bs : list Z) :
  appended g g' bs -> current_mode g' = current_mode g.
Proof. intros (_ & _ & H). exact H. Qed.

Lemma appended_length (g g' : generator) (bs : list Z) :
  appended g g' bs ->
  length (active_code g') = (length (active_code g) + length bs)%nat.
Proof. intros (H & _ & _). rewrite H, length_app. reflexivity. Qed.

(** One selector check: five instructions, or nothing for a function that
    is not exposed; the placeholder recorded lies in the new code. *)
Lemma dispatcher_entry_appended (func_name : string) (f : func_info)
    (g : generator) (ph : gmap string nat) :
  current_mode g = "runtime" ->
  exists g' ph' bs,
    dispatcher_entry func_name f (g, ph) = Ok (g', ph') /\
    appended g g' bs /\
    (forall name off, ph' !! name = Some off ->
       ph !! name = Some off \/ (length (active_code g) <= off)%nat).
Proof.
  intros Hmode. unfold dispatcher_entry.
  destruct (exposed f); cbn [negb].
  2:{ exists g, ph, []. split; [reflexivity|].
      split; [apply appended_refl|]. auto. }
  destruct (emit_push_int_sized
              (from_bytes (function_selector (signature_of func_name f)))
              4 (emit EVMOpcode.DUP1 g) (function_selector_bound _)
              ltac:(lia)) as (ga & -> & Ha).
  cbn [mbind result_bind].
  destruct (emit_push_int_sized 0xDEAD 2 (emit EVMOpcode.EQ ga)
              ltac:(split; [discriminate|reflexivity]) ltac:(lia))
    as (gb & -> & Hb).
  cbn [mbind result_bind].
  eexists _, _, _. split; [reflexivity|]. split.
  - eapply appended_trans; [apply emit_appended|].
    eapply appended_trans; [exact Ha|].
    eapply appended_trans; [apply emit_appended|].
    eapply appended_trans; [exact Hb|apply emit_appended].
  - intros name off Hoff.
    destruct (decide (func_name = name)) as [->|Hne].
    + rewrite lookup_insert_eq in Hoff. injection Hoff as <-. right.
      rewrite get_offset_runtime.
      * rewrite (appended_length _ _ _ (emit_appended EVMOpcode.EQ ga)).
        rewrite (appended_length _ _ _ Ha).
        rewrite (appended_length _ _ _ (emit_appended EVMOpcode.DUP1 g)).
        lia.
      * rewrite (appended_mode _ _ _ (emit_appended EVMOpcode.EQ ga)).
        rewrite (appended_mode _ _ _ Ha).
        rewrite (appended_mode _ _ _ (emit_appended EVMOpcode.DUP1 g)).
        exact Hmode.
    + rewrite lookup_insert_ne in Hoff by exact Hne. left. exact Hoff.
Qed.

Lemma dispatcher_entries_appended (fs : list (string * func_info))
    (g : generator) (ph : gmap string nat) :
  current_mode g = "runtime" ->
  exists g' ph' bs,
    dispatcher_entries fs (g, ph) = Ok (g', ph') /\
    appended g g' bs /\
    (forall name off, ph' !! name = Some off ->
       ph !! name = Some off \/ (length (active_code g) <= off)%nat).
Proof.
  revert g ph. induction fs as [|[func_name f] fs IH]; intros g ph Hmode.
  - exists g, ph, []. split; [reflexivity|].
    split; [apply appended_refl|]. auto.
  - cbn [dispatcher_entries].
    destruct (dispatcher_entry_appended func_name f g ph Hmode)
      as (g1 & ph1 & bs1 & -> & Happ1 & Hph1).
    cbn [mbind result_bind].
    destruct (IH g1 ph1) as (g2 & ph2 & bs2 & -> & Happ2 & Hph2).
    { rewrite (appended_mode _ _ _ Happ1). exact Hmode. }
    exists g2, ph2, (bs1 ++ bs2). split; [reflexivity|].
    split; [eapply appended_trans; eassumption|].
    intros name off Hoff. destruct (Hph2 name off Hoff) as [H|H].
    + apply Hph1. exact H.
    + right. rewrite (appended_length _ _ _ Happ1) in H. lia.
Qed.

(** What the dispatcher emits: the guard, the selector load, the
    selector checks, the revert block.  The emission itself cannot fail. *)
Lemma dispatcher_code_appended (fs : list (string * func_info))
    (g : generator) :
  current_mode g = "runtime" ->
  exists g1 ph entries,
    dispatcher_code fs g
    = Ok (g1, ph, (length (active_code g) + 7)%nat,
          (length (active_code g) + 14 + length entries)%nat) /\
    appended g g1
      (guard_code ++ selector_load_code ++ entries ++ revert_code) /\
    (forall name off, ph !! name = Some off ->
       (length (active_code g) + 14 <= off)%nat).
Proof.
  intros Hmode. unfold dispatcher_code.
  destruct (push_int_appended 4 g (small_word 4 ltac:(lia)))
    as (g1 & -> & H1). cbn [mbind result_bind].
  pose proof (emit_appended EVMOpcode.CALLDATASIZE g1) as H2.
  set (g2 := emit EVMOpcode.CALLDATASIZE g1) in *.
  pose proof (emit_appended EVMOpcode.LT g2) as H3.
  set (g3 := emit EVMOpcode.LT g2) in *.
  destruct (emit_push_int_sized 0xFFFF 2 g3
              ltac:(split; [discriminate|reflexivity]) ltac:(lia))
    as (g4 & -> & H4). cbn [mbind result_bind].
  pose proof (emit_appended EVMOpcode.JUMPI g4) as H5.
  set (g5 := emit EVMOpcode.JUMPI g4) in *.
  destruct (push_int_appended 0 g5 (small_word 0 ltac:(lia)))
    as (g6 & -> & H6). cbn [mbind result_bind].
  pose proof (emit_appended EVMOpcode.CALLDATALOAD g6) as H7.
  set (g7 := emit EVMOpcode.CALLDATALOAD g6) in *.
  assert (H224 : 0 <= 224 < 2 ^ 256) by (split; [discriminate|reflexivity]).
  destruct (push_int_appended 224 g7 H224) as (g8 & -> & H8).
  cbn [mbind result_bind].
  pose proof (emit_appended EVMOpcode.SHR g8) as H9.
  set (g9 := emit EVMOpcode.SHR g8) in *.
  assert (Hhead : appended g g9 (guard_code ++ selector_load_code)).
  { pose proof (appended_trans _ _ _ _ _ H1
      (appended_trans _ _ _ _ _ H2
        (appended_trans _ _ _ _ _ H3
          (appended_trans _ _ _ _ _ H4
            (appended_trans _ _ _ _ _ H5
              (appended_trans _ _ _ _ _ H6
                (appended_trans _ _ _ _ _ H7
                  (appended_trans _ _ _ _ _ H8 H9)))))))) as H.
    exact H. }
  assert (Hmode9 : current_mode g9 = "runtime")
    by (rewrite (appended_mode _ _ _ Hhead); exact Hmode).
  destruct (dispatcher_entries_appended fs g9 ∅ Hmode9)
    as (ga & ph & entries & -> & Ha & Hph). cbn [mbind result_bind].
  pose proof (emit_appended EVMOpcode.JUMPDEST ga) as Hb.
  set (gb := emit EVMOpcode.JUMPDEST ga) in *.
  destruct (push_int_appended 0 gb (small_word 0 ltac:(lia)))
    as (gc & -> & Hc). cbn [mbind result_bind].
  destruct (push_int_appended 0 gc (small_word 0 ltac:(lia)))
    as (gd & -> & Hd). cbn [mbind result_bind].
  pose proof (emit_appended EVMOpcode.REVERT gd) as He.
  assert (Hmode3 : current_mode g3 = "runtime").
  { rewrite (appended_mode _ _ _ H3), (appended_mode _ _ _ H2),
      (appended_mode _ _ _ H1). exact Hmode. }
  assert (Hmodea : current_mode ga = "runtime")
    by (rewrite (appended_mode _ _ _ Ha); exact Hmode9).
  rewrite (get_offset_runtime g3 Hmode3), (get_offset_runtime ga Hmodea).
  rewrite (appended_length _ _ _ H3), (appended_length _ _ _ H2),
    (appended_length _ _ _ H1), (appended_length _ _ _ Ha),
    (appended_length _ _ _ Hhead).
  exists (emit EVMOpcode.REVERT gd), ph, entries.
  split; [|split].
  - do 3 f_equal; simpl; lia.
  - assert (Htail : appended ga (emit EVMOpcode.REVERT gd) revert_code).
    { pose proof (appended_trans _ _ _ _ _ Hb
        (appended_trans _ _ _ _ _ Hc
          (appended_trans _ _ _ _ _ Hd He))) as H. exact H. }
    pose proof (appended_trans _ _ _ _ _ Hhead
                  (appended_trans _ _ _ _ _ Ha Htail)) as H.
    rewrite <- app_assoc in H. exact H.
  - intros name off Hoff. destruct (Hph name off Hoff) as [H|H].
    + rewrite lookup_empty in H. discriminate.
    + rewrite (appended_length _ _ _ Hhead) in H. simpl in H. lia.
Qed.

End Dispatcher.


(** ** Conditionals *)

Section Conditional.

Lemma compile_block_eq (arg_map : gmap string nat) (state : ContractState)
    (ss : list ast.stmt) (g : generator) :
  (fix compile_block (ss : list ast.stmt) (g : generator)
       : result generator :=
     match ss with
     | [] => Ok g
     | s' :: ss' =>
         g ← _compile_statement s' arg_map state g;
         compile_block ss' g
     end) ss g
  = compile_statements ss arg_map state g.
Proof.
  revert g. induction ss as [|s ss IH]; intros g; [reflexivity|].
  cbn [compile_statements].
  destruct (_compile_statement s arg_map state g) as [g1|e]; [|reflexivity].
  cbn [mbind result_bind]. apply IH.
Qed.

Lemma if_statement_code_ext
    (ct cb cb' co co' : generator -> result generator) (g : generator) :
  (forall g, cb g = cb' g) -> (forall g, co g = co' g) ->
  if_statement_code ct cb co g = if_statement_code ct cb' co' g.
Proof.
  intros Hb Ho. unfold if_statement_code.
  destruct (ct g) as [g1|]; [|reflexivity]. cbn [mbind result_bind].
  destruct (emit_push _ _ _) as [g2|]; [|reflexivity].
  cbn [mbind result_bind]. rewrite Hb.
  destruct (cb' _) as [g3|]; [|reflexivity]. cbn [mbind result_bind].
  destruct (emit_push _ _ _) as [g4|]; [|reflexivity].
  cbn [mbind result_bind]. rewrite Ho. reflexivity.
Qed.

(** An [ast.If] statement is compiled by [_compile_if_statement]. *)
Lemma compile_statement_if (test : ast.expr) (body orelse : list ast.stmt)
    (arg_map : gmap string nat) (state : ContractState) (g : generator) :
  _compile_statement (ast.If test body orelse) arg_map state g
  = _compile_if_statement test body orelse arg_map state g.
Proof.
  cbn [_compile_statement]. unfold _compile_if_statement.
  apply if_statement_code_ext; intros; apply compile_block_eq.
Qed.

End Conditional.

(** ** What the rest of the generator leaves alone *)

Section Prefix.

Variable n : nat.

Lemma bind_Ok {A B : Type} (k : A -> result B) (r : result A) (b : B) :
  (r ≫= k) = Ok b -> exists a, r = Ok a /\ k a = Ok b.
Proof. destruct r as [a|e]; [eauto|discriminate]. Qed.

Lemma keeps_refl (g : generator) : keeps n g g.
Proof. unfold keeps. auto. Qed.

Lemma keeps_trans (g1 g2 g3 : generator) :
  keeps n g1 g2 -> keeps n g2 g3 -> keeps n g1 g3.
Proof.
  unfold keeps. intros (M1 & I1 & L1 & T1) (M2 & I2 & L2 & T2).
  rewrite M2, M1, I2, I1. repeat split; try reflexivity; [lia|].
  intros Hn. rewrite T2 by lia. apply T1. exact Hn.
Qed.

Lemma appended_keeps (g g' : generator) (bs : list Z) :
  appended g g' bs -> keeps n g g'.
Proof.
  intros (A & I & M). unfold keeps. rewrite A, I, M.
  repeat split; try reflexivity.
  - rewrite length_app. lia.
  - intros Hn. apply take_app_le. exact Hn.
Qed.

Lemma keeps_emit (op : Z) (g : generator) : keeps n g (emit op g).
Proof. eapply appended_keeps, emit_appended. Qed.

Lemma emit_push_keeps (v : push_value) (size : option nat)
    (g g' : generator) :
  emit_push v size g = Ok g' -> keeps n g g'.
Proof.
  intros H. unfold emit_push in H.
  apply bind_Ok in H as ([bs k] & _ & H). injection H as <-.
  eapply appended_keeps. unfold appended.
  unfold active_code, inactive_code, set_active_code; simpl.
  destruct (String.eqb (current_mode g) "init") eqn:E; simpl; rewrite E;
    auto.
Qed.

Lemma push_int_keeps (v : Z) (g g' : generator) :
  push_int v g = Ok g' -> keeps n g g'.
Proof. apply emit_push_keeps. Qed.

Lemma backpatch2_keeps (offset target : nat) (g g' : generator) :
  backpatch2 offset target g = Ok g' -> (n <= offset)%nat -> keeps n g g'.
Proof.
  unfold backpatch2, _backpatch. intros H Ho.
  apply bind_Ok in H as (bs & Hbs & H). injection H as <-.
  assert (Hlen : length bs = 2%nat).
  { unfold to_bytes in Hbs. destruct (_ || _); [discriminate|].
    injection Hbs as <-. reflexivity. }
  unfold keeps.
  rewrite active_set_active, inactive_set_active, mode_set_active.
  repeat split; try reflexivity.
  - rewrite !length_app, length_take, length_drop, Hlen. lia.
  - intros Hn. rewrite take_app_le by (rewrite length_take; lia).
    rewrite take_take. f_equal. lia.
Qed.

Lemma keeps_mode (g g' : generator) :
  keeps n g g' -> current_mode g' = current_mode g.
Proof. intros (M & _). exact M. Qed.

(** Offsets taken later lie beyond the kept prefix. *)
Lemma keeps_offset (g g' : generator) :
  keeps n g g' -> current_mode g = "runtime" ->
  (n <= length (active_code g))%nat -> (n <= get_offset g' + 1)%nat.
Proof.
  intros (M & _ & L & _) Hmode Hn.
  rewrite get_offset_runtime by (rewrite M; exact Hmode). lia.
Qed.

End Prefix.

(** Chains the facts at hand from the last generator back to the first. *)
Ltac keeps_chain :=
  repeat first
    [ apply keeps_refl
    | match goal with
      | |- keeps ?n ?A (emit ?op ?X) =>
          apply (keeps_trans n A X); [|apply keeps_emit]
      | H : keeps ?n ?X ?B |- keeps ?n ?A ?B =>
          apply (keeps_trans n A X); [|exact H]
      end ].

(** Splits a successful sequence into its successful steps and turns each
    push into the fact that it keeps the prefix. *)
Ltac keeps_steps n H :=
  repeat (let g := fresh "g" in
          let E := fresh "E" in
          apply bind_Ok in H as (g & E & H));
  repeat match goal with
    | E : emit_push _ _ _ = Ok _ |- _ => apply (emit_push_keeps n) in E
    | E : push_int _ _ = Ok _ |- _ => apply (push_int_keeps n) in E
    end;
  try (injection H as <-).

Section PrefixCompiler.

Variable n : nat.

Lemma generate_abi_encoded_return_keeps (g g' : generator) :
  generate_abi_encoded_return g = Ok g' -> keeps n g g'.
Proof.
  intros H. unfold generate_abi_encoded_return in H.
  keeps_steps n H. keeps_chain.
Qed.

Lemma mapping_slot_code_keeps
    (compile_key : generator -> result generator) (base_slot : Z)
    (g g' : generator) :
  (forall g1, compile_key g = Ok g1 -> keeps n g g1) ->
  mapping_slot_code compile_key base_slot g = Ok g' -> keeps n g g'.
Proof.
  intros Hkey H. unfold mapping_slot_code in H.
  keeps_steps n H.
  match goal with E : compile_key g = Ok _ |- _ => apply Hkey in E end.
  keeps_chain.
Qed.

(** Induction on expressions, the comparators of a comparison included. *)
Lemma expr_nested_ind (P : ast.expr -> Prop) :
  (forall value, P (ast.Constant value)) ->
  (forall id, P (ast.Name id)) ->
  (forall value attr, P value -> P (ast.Attribute value attr)) ->
  (forall value slice, P value -> P slice -> P (ast.Subscript value slice)) ->
  (forall lhs op rhs, P lhs -> P rhs -> P (ast.BinOp lhs op rhs)) ->
  (forall lhs ops comparators,
     P lhs -> Forall P comparators -> P (ast.Compare lhs ops comparators)) ->
  P ast.OtherExpr ->
  forall e, P e.
Proof.
  intros HC HN HA HS HB HCmp HO.
  fix IH 1. intros [value|id|value attr|value slice|lhs op rhs
                    |lhs ops comparators|].
  - apply HC.
  - apply HN.
  - apply HA, IH.
  - apply HS; apply IH.
  - apply HB; apply IH.
  - apply HCmp; [apply IH|].
    revert comparators. fix IHl 1. intros [|c cs].
    + constructor.
    + constructor; [apply IH|apply IHl].
  - apply HO.
Qed.

(** Induction on statements, the blocks of a conditional included. *)
Lemma stmt_nested_ind (P : ast.stmt -> Prop) :
  (forall value, P (ast.Return value)) ->
  (forall targets value, P (ast.Assign targets value)) ->
  (forall test body orelse,
     Forall P body -> Forall P orelse -> P (ast.If test body orelse)) ->
  (forall value, P (ast.Expr value)) ->
  P ast.OtherStmt ->
  forall s, P s.
Proof.
  intros HR HA HI HE HO.
  fix IH 1. intros [value|targets value|test body orelse|value|].
  - apply HR.
  - apply HA.
  - apply HI.
    + revert body. fix IHl 1. intros [|c cs].
      * constructor.
      * constructor; [apply IH|apply IHl].
    + revert orelse. fix IHl 1. intros [|c cs].
      * constructor.
      * constructor; [apply IH|apply IHl].
  - apply HE.
  - apply HO.
Qed.

(** Expressions only append. *)
Lemma compile_expression_keeps (e : ast.expr) (arg_map : gmap string nat)
    (state : ContractState) (g g' : generator) :
  _compile_expression e arg_map state g = Ok g' -> keeps n g g'.
Proof.
  revert g g'. induction e as
    [value|id|value attr IHv|value slice IHv IHs|lhs op rhs IHl IHr
    |lhs ops comparators IHl IHc|] using expr_nested_ind;
    intros g g' H; cbn [_compile_expression] in H.
  - destruct value; apply (push_int_keeps n) in H; exact H.
  - destruct (arg_map !! id).
    + keeps_steps n H. keeps_chain.
    + apply (push_int_keeps n) in H; exact H.
  - destruct (is_self value); [destruct (dict_get attr (variables state))|].
    + keeps_steps n H. keeps_chain.
    + apply (push_int_keeps n) in H; exact H.
    + apply (push_int_keeps n) in H; exact H.
  - destruct (self_attribute value) as [mapping_name|];
      [destruct (dict_get mapping_name (variables state)) as [base_slot|]|].
    + apply bind_Ok in H as (g1 & E & H). injection H as <-.
      apply mapping_slot_code_keeps in E; [keeps_chain|].
      intros g2 Hg2. apply IHs. exact Hg2.
    + apply (push_int_keeps n) in H; exact H.
    + apply (push_int_keeps n) in H; exact H.
  - apply bind_Ok in H as (g1 & E1 & H). apply bind_Ok in H as (g2 & E2 & H).
    apply IHl in E1. apply IHr in E2.
    destruct op; injection H as <-; keeps_chain.
  - apply bind_Ok in H as (g1 & E1 & H). apply IHl in E1.
    destruct comparators as [|comparator rest].
    + injection H as <-. exact E1.
    + apply bind_Ok in H as (g2 & E2 & H).
      apply Forall_cons in IHc as [IHc _]. apply IHc in E2.
      destruct ops as [|[| | | | |] ops]; try discriminate H;
        injection H as <-; keeps_chain.
  - apply (push_int_keeps n) in H; exact H.
Qed.

Lemma keeps_ready (g g' : generator) :
  keeps n g g' ->
  current_mode g = "runtime" -> (n <= length (active_code g))%nat ->
  current_mode g' = "runtime" /\ (n <= length (active_code g'))%nat.
Proof. intros (M & _ & L & _) Hm Hn. rewrite M. split; [exact Hm|lia]. Qed.

(** A conditional: the two backpatches land beyond the prefix. *)
Lemma if_statement_code_keeps
    (compile_test compile_body compile_orelse : generator -> result generator) :
  (forall g g', compile_test g = Ok g' -> keeps n g g') ->
  keeps_prefix n compile_body -> keeps_prefix n compile_orelse ->
  keeps_prefix n (if_statement_code compile_test compile_body compile_orelse).
Proof.
  intros Ht Hb Ho g g' Hm Hn H. unfold if_statement_code in H.
  apply bind_Ok in H as (g1 & E1 & H). apply Ht in E1.
  apply bind_Ok in H as (g2 & E2 & H). apply (emit_push_keeps n) in E2.
  apply bind_Ok in H as (g3 & E3 & H).
  assert (K3 : keeps n g (emit EVMOpcode.JUMPI g2)) by keeps_chain.
  destruct (keeps_ready _ _ K3 Hm Hn) as [Hm3 Hn3].
  apply (Hb _ _ Hm3 Hn3) in E3.
  apply bind_Ok in H as (g4 & E4 & H). apply (emit_push_keeps n) in E4.
  apply bind_Ok in H as (g5 & E5 & H).
  assert (K5 : keeps n g (emit EVMOpcode.JUMPDEST (emit EVMOpcode.JUMP g4)))
    by keeps_chain.
  destruct (keeps_ready _ _ K5 Hm Hn) as [Hm5 Hn5].
  apply (Ho _ _ Hm5 Hn5) in E5.
  apply bind_Ok in H as (g6 & E6 & H).
  apply backpatch2_keeps with (n := n) in E6.
  2:{ apply (keeps_offset n g); [keeps_chain|exact Hm|exact Hn]. }
  apply backpatch2_keeps with (n := n) in H.
  2:{ apply (keeps_offset n g); [keeps_chain|exact Hm|exact Hn]. }
  keeps_chain.
Qed.

Lemma compile_statement_keeps (s : ast.stmt) (arg_map : gmap string nat)
    (state : ContractState) :
  keeps_prefix n (_compile_statement s arg_map state).
Proof.
  induction s as [value|targets value|test body orelse IHb IHo|value|]
    using stmt_nested_ind; intros g g' Hm Hn H;
    cbn [_compile_statement] in H.
  - destruct value as [value|].
    + apply bind_Ok in H as (g1 & E & H).
      apply compile_expression_keeps in E.
      apply generate_abi_encoded_return_keeps in H. keeps_chain.
    + keeps_steps n H. keeps_chain.
  - destruct targets as [|target [|]];
      [injection H as <-; apply keeps_refl| |injection H as <-; apply keeps_refl].
    destruct target as [|?|tvalue var_name|tvalue slice|? ? ?|? ? ?|];
      try (injection H as <-; apply keeps_refl).
    + destruct (is_self tvalue);
        [destruct (dict_get var_name (variables state))|];
        try (injection H as <-; apply keeps_refl).
      apply bind_Ok in H as (g1 & E & H).
      apply compile_expression_keeps in E.
      keeps_steps n H. keeps_chain.
    + destruct (self_attribute tvalue) as [mapping_name|];
        [destruct (dict_get mapping_name (variables state))|];
        try (injection H as <-; apply keeps_refl).
      apply bind_Ok in H as (g1 & E1 & H).
      apply compile_expression_keeps in E1.
      apply bind_Ok in H as (g2 & E2 & H). injection H as <-.
      apply mapping_slot_code_keeps in E2;
        [keeps_chain|intros ? ?; eapply compile_expression_keeps; eassumption].
  - revert g g' Hm Hn H. apply if_statement_code_keeps.
    + intros g g'. apply compile_expression_keeps.
    + clear IHo. induction IHb as [|s ss Hs _ IH]; intros g g' Hm Hn H.
      * injection H as <-. apply keeps_refl.
      * apply bind_Ok in H as (g1 & E & H). apply (Hs _ _ Hm Hn) in E.
        destruct (keeps_ready _ _ E Hm Hn) as [Hm1 Hn1].
        apply (IH _ _ Hm1 Hn1) in H. keeps_chain.
    + clear IHb. induction IHo as [|s ss Hs _ IH]; intros g g' Hm Hn H.
      * injection H as <-. apply keeps_refl.
      * apply bind_Ok in H as (g1 & E & H). apply (Hs _ _ Hm Hn) in E.
        destruct (keeps_ready _ _ E Hm Hn) as [Hm1 Hn1].
        apply (IH _ _ Hm1 Hn1) in H. keeps_chain.
  - injection H as <-. apply keeps_refl.
  - injection H as <-. apply keeps_refl.
Qed.

Lemma compile_statements_keeps (ss : list ast.stmt)
    (arg_map : gmap string nat) (state : ContractState) :
  keeps_prefix n (compile_statements ss arg_map state).
Proof.
  induction ss as [|s ss IH]; intros g g' Hm Hn H.
  - injection H as <-. apply keeps_refl.
  - cbn [compile_statements] in H. apply bind_Ok in H as (g1 & E & H).
    apply (compile_statement_keeps _ _ _ _ _ Hm Hn) in E.
    destruct (keeps_ready _ _ E Hm Hn) as [Hm1 Hn1].
    apply (IH _ _ Hm1 Hn1) in H. keeps_chain.
Qed.

Lemma generate_function_body_keeps (func_name : string) (f : func_info)
    (state : ContractState) :
  keeps_prefix n (generate_function_body func_name f state).
Proof.
  intros g g' Hm Hn H. unfold generate_function_body in H.
  apply bind_Ok in H as (g1 & E & H).
  apply (compile_statements_keeps _ _ _ _ _ Hm Hn) in E.
  destruct (is_view f || has_return f);
    [destruct (lacks_final_return (body f))|].
  - apply bind_Ok in H as (g2 & E2 & H). apply (push_int_keeps n) in E2.
    apply generate_abi_encoded_return_keeps in H. keeps_chain.
  - injection H as <-. exact E.
  - keeps_steps n H. keeps_chain.
Qed.

(** The function bodies, their placeholders lying beyond the prefix. *)
Lemma function_bodies_keeps (fs : list (string * func_info))
    (placeholders : gmap string nat) (state : ContractState) :
  (forall name off, placeholders !! name = Some off -> (n <= off)%nat) ->
  keeps_prefix n (function_bodies fs placeholders state).
Proof.
  intros Hph. induction fs as [|[func_name f] fs IH]; intros g g' Hm Hn H.
  - injection H as <-. apply keeps_refl.
  - cbn [function_bodies] in H. destruct (exposed f); cbn [negb] in H.
    2:{ apply (IH _ _ Hm Hn H). }
    apply bind_Ok in H as (g1 & E1 & H).
    assert (K0 : keeps n g (emit EVMOpcode.JUMPDEST g)) by keeps_chain.
    destruct (keeps_ready _ _ K0 Hm Hn) as [Hm0 Hn0].
    apply (generate_function_body_keeps _ _ _ _ _ Hm0 Hn0) in E1.
    apply bind_Ok in H as (g2 & E2 & H).
    assert (K2 : keeps n g1 g2).
    { destruct (placeholders !! func_name) as [off|] eqn:Eoff.
      - apply backpatch2_keeps with (n := n) in E2; [exact E2|].
        apply (Hph _ _ Eoff).
      - injection E2 as <-. apply keeps_refl. }
    assert (K : keeps n g g2) by keeps_chain.
    destruct (keeps_ready _ _ K Hm Hn) as [Hm2 Hn2].
    apply (IH _ _ Hm2 Hn2) in H. keeps_chain.
Qed.

End PrefixCompiler.

(** ** The guard's forward reference *)

Section GuardReference.

(** The dispatcher's closing backpatch writes at offset 7, two bytes past
    the operand of the guard's PUSH2. *)
Lemma generate_function_dispatcher_prefix (fs : list (string * func_info))
    (g g' : generator) (ph : gmap string nat) :
  current_mode g = "runtime" -> active_code g = [] ->
  generate_function_dispatcher fs g = Ok (g', ph) ->
  exists hi lo,
    take 14 (active_code g')
    = [EVMOpcode.PUSH1; 4; EVMOpcode.CALLDATASIZE; EVMOpcode.LT;
       EVMOpcode.PUSH2; 0xFF; 0xFF; hi; lo;
       0; EVMOpcode.CALLDATALOAD; EVMOpcode.PUSH1; 224; EVMOpcode.SHR] /\
    (14 <= from_bytes [hi; lo])%Z /\
    current_mode g' = "runtime" /\
    (14 <= length (active_code g'))%nat /\
    inactive_code g' = inactive_code g /\
    (forall name off, ph !! name = Some off -> (14 <= off)%nat).
Proof.
  intros Hm Hnil H. unfold generate_function_dispatcher in H.
  destruct (dispatcher_code_appended fs g Hm)
    as (g1 & ph1 & entries & Hcode & (Hact & Hinact & Hmode) & Hph).
  rewrite Hcode in H. cbn [mbind result_bind] in H.
  rewrite Hnil in *. cbn [length Nat.add app] in *.
  apply bind_Ok in H as (g2 & E & H). injection H as <- <-.
  unfold backpatch2, _backpatch in E.
  apply bind_Ok in E as (bs & Hbs & E). injection E as <-.
  unfold to_bytes in Hbs. destruct (_ || _) eqn:Hrange; [discriminate|].
  injection Hbs as <-.
  apply orb_false_elim in Hrange as [_ Hhi]. apply Z.leb_gt in Hhi.
  change (256 ^ Z.of_nat 2) with 65536 in Hhi.
  set (t := Z.of_nat (14 + length entries)) in *.
  rewrite active_set_active, inactive_set_active, mode_set_active.
  rewrite Hact, Hinact, Hmode, Hm.
  exists ((t / 256) mod 256), (t mod 256).
  split; [reflexivity|]. split; [|split; [reflexivity|split; [|split]]].
  - unfold from_bytes. cbn [fold_left].
    rewrite Z.mod_small.
    + pose proof (Z.div_mod t 256 ltac:(lia)). unfold t in *. lia.
    + split; [apply Z.div_pos; unfold t; lia|].
      apply Z.div_lt_upper_bound; lia.
  - cbn [guard_code selector_load_code app take drop be_bytes length].
    rewrite length_app. lia.
  - reflexivity.
  - exact Hph.
Qed.

(** The constructor writes to the initialisation region only. *)
Lemma constructor_stores_keeps (vars : list (string * Z))
    (state : ContractState) (g g' : generator) :
  constructor_stores vars state g = Ok g' -> keeps 0 g g'.
Proof.
  revert g. induction vars as [|[var_name slot] vars IH]; intros g H.
  - injection H as <-. apply keeps_refl.
  - cbn [constructor_stores] in H. apply bind_Ok in H as (g1 & E & H).
    apply IH in H.
    destruct (default (PyInt 0) (dict_get var_name (initial_values state))).
    + keeps_steps 0%nat E. keeps_chain.
    + injection E as <-. exact H.
Qed.

Lemma generate_constructor_keeps (state : ContractState) (size : nat)
    (g g' : generator) :
  generate_constructor state size g = Ok g' -> keeps 0 g g'.
Proof.
  intros H. unfold generate_constructor in H.
  apply bind_Ok in H as (g1 & E & H). apply constructor_stores_keeps in E.
  keeps_steps 0%nat H. keeps_chain.
Qed.

End GuardReference.

(** The module's own test contract, assembled. *)
Example assemble_test_contract :
  assemble test_contract new_generator
  = Ok {| init_code :=
            [0x60; 0x00; 0x60; 0x00; 0x55; 0x60; 0x00; 0x60; 0x01; 0x55;
             0x61; 0x00; 0x45; 0x61; 0x00; 0x17; 0x81; 0x60; 0x00; 0x39;
             0x60; 0x00; 0xf3];
          runtime_code :=
            [0x60; 0x04; 0x36; 0x10; 0x61; 0xff; 0xff; 0x00; 0x24; 0x00;
             0x35; 0x60; 0xe0; 0x1c;
             0x80; 0x63; 0xd0; 0x9d; 0xe0; 0x8a; 0x14; 0x61; 0x00; 0x2a; 0x57;
             0x80; 0x63; 0xe7; 0x27; 0x8e; 0x7f; 0x14; 0x61; 0x00; 0x39; 0x57;
             0x5b; 0x60; 0x00; 0x60; 0x00; 0xfd;
             0x5b; 0x60; 0x00; 0x54; 0x60; 0x01; 0x01; 0x60; 0x00; 0x55;
             0x60; 0x00; 0x60; 0x00; 0xf3;
             0x5b; 0x60; 0x00; 0x54; 0x60; 0x00; 0x52; 0x60; 0x20; 0x60; 0x00;
             0xf3];
          current_mode := "init";
          gas_used := 81 |}.
Proof. vm_compute. reflexivity. Qed.

(** C2, on the code. In every artifact the assembler returns, the two
    bytes reserved as the jump target of the calldata-length guard still
    hold the sentinel 0xFFFF: the runtime region begins with PUSH1 4,
    CALLDATASIZE, LT, PUSH2 0xFFFF, and the backpatch meant for that
    operand has instead overwritten the two bytes after it (the guard's
    JUMPI and the opcode of the PUSH1 that starts the selector load) with
    the offset of the revert block. *)
Theorem guard_placeholder_left_unpatched (state : ContractState)
    (g0 g : generator) :
  runtime_code g0 = [] ->
  assemble state g0 = Ok g ->
  exists hi lo,
    take 14 (runtime_code g)
    = [EVMOpcode.PUSH1; 4; EVMOpcode.CALLDATASIZE; EVMOpcode.LT;
       EVMOpcode.PUSH2; 0xFF; 0xFF; hi; lo;
       0; EVMOpcode.CALLDATALOAD; EVMOpcode.PUSH1; 224; EVMOpcode.SHR] /\
    14 <= from_bytes [hi; lo] /\
    _generate_enhanced_bytecode state g0 = Ok (init_code g ++ runtime_code g).
Proof.
  intros Hnil H.
  assert (Hart : _generate_enhanced_bytecode state g0
                 = Ok (init_code g ++ runtime_code g))
    by (unfold _generate_enhanced_bytecode; rewrite H; reflexivity).
  unfold assemble in H.
  apply bind_Ok in H as ([g1 ph] & Hd & H).
  apply bind_Ok in H as (g2 & Hb & H).
  apply generate_function_dispatcher_prefix in Hd;
    [|reflexivity|exact Hnil].
  destruct Hd as (hi & lo & Htake & Hrev & Hm1 & Hn1 & _ & Hph).
  apply (function_bodies_keeps 14 _ _ _ Hph _ _ Hm1 Hn1) in Hb.
  destruct Hb as (Hm2 & _ & _ & Htake2). specialize (Htake2 Hn1).
  apply generate_constructor_keeps in H. destruct H as (Hm3 & Hin3 & _ & _).
  cbn [set_mode current_mode] in Hm3.
  unfold inactive_code in Hin3. rewrite Hm3 in Hin3.
  cbn [set_mode current_mode runtime_code String.eqb Ascii.eqb Bool.eqb]
    in Hin3.
  unfold active_code in Htake, Htake2. rewrite Hm1 in Htake, Htake2.
  rewrite Hm2, Hm1 in Htake2.
  cbn [String.eqb Ascii.eqb Bool.eqb] in Htake, Htake2.
  exists hi, lo. rewrite Hin3 at 1. rewrite Htake2, Htake.
  split; [reflexivity|]. split; [exact Hrev|exact Hart].
Qed.

Lemma guard_placeholder_left_unpatched_witness :
  exists (g : generator) (hi lo : Z),
    assemble test_contract new_generator = Ok g /\
    take 14 (runtime_code g)
    = [EVMOpcode.PUSH1; 4; EVMOpcode.CALLDATASIZE; EVMOpcode.LT;
       EVMOpcode.PUSH2; 0xFF; 0xFF; hi; lo;
       0; EVMOpcode.CALLDATALOAD; EVMOpcode.PUSH1; 224; EVMOpcode.SHR] /\
    14 <= from_bytes [hi; lo] /\
    _generate_enhanced_bytecode test_contract new_generator
    = Ok (init_code g ++ runtime_code g).
Proof.
  destruct (guard_placeholder_left_unpatched test_contract new_generator _
              eq_refl assemble_test_contract) as (hi & lo & H).
  eexists _, hi, lo. split; [apply assemble_test_contract|exact H].
Defined.

(** ** The constructor and the assembled artifact *)

Section Constructor.

Lemma be_bytes_mod (n : nat) (v : Z) :
  be_bytes n (v mod 256 ^ Z.of_nat n) = be_bytes n v.
Proof.
  revert v. induction n as [|n IH]; intros v; [reflexivity|].
  cbn [be_bytes]. rewrite Nat2Z.inj_succ, Z.pow_succ_r by lia.
  rewrite <- (IH (v / 256)), <- (IH (v mod (256 * 256 ^ Z.of_nat n) / 256)).
  f_equal.
  - f_equal. rewrite Z.rem_mul_r by lia.
    rewrite (Z.mul_comm 256), Z.div_add by lia.
    rewrite (Z.div_small (v mod 256) 256) by (apply Z.mod_pos_bound; lia).
    rewrite Z.add_0_l. apply Z.mod_mod. lia.
  - f_equal. rewrite Z.rem_mul_r by lia.
    rewrite (Z.mul_comm 256), Z.mod_add by lia.
    apply Z.mod_mod. lia.
Qed.

(** Any non-negative integer pushed without a width: the word it leaves
    on the stack is its value modulo [2^256]. *)
Lemma runs_push_int (v : Z) (g g' : generator) :
  0 <= v -> push_int v g = Ok g' ->
  exists bs, appended g g' bs /\
    forall st mem sto,
      runs bs 1 (st, mem, sto) (v mod 2 ^ 256 :: st, mem, sto).
Proof.
  intros Hv H.
  destruct (emit_push_int_auto v g Hv) as (g1 & Hg1 & Happ).
  unfold push_int in H. rewrite Hg1 in H. injection H as <-.
  eexists. split; [exact Happ|]. intros st mem sto.
  set (n := Nat.min (push_width v) 32) in *.
  pose proof (push_width_pos v).
  destruct (Nat.le_gt_cases (push_width v) 32) as [Hle|Hgt].
  - replace n with (push_width v) by (unfold n; lia).
    rewrite Z.mod_small.
    + apply runs_push; [lia|]. split; [lia|apply push_width_fits; lia].
    + split; [lia|]. eapply Z.lt_le_trans; [apply push_width_fits; lia|].
      change (2 ^ 256) with (256 ^ 32). apply Z.pow_le_mono_r; lia.
  - replace n with 32%nat by (unfold n; lia).
    rewrite <- (be_bytes_mod 32 v). change (256 ^ Z.of_nat 32) with (2 ^ 256).
    apply runs_push; [lia|].
    change (256 ^ Z.of_nat 32) with (2 ^ 256).
    apply Z.mod_pos_bound. reflexivity.
Qed.

Lemma push_int_nonneg (v : Z) (g g' : generator) :
  push_int v g = Ok g' -> 0 <= v.
Proof.
  unfold push_int, emit_push. intros H.
  apply bind_Ok in H as ([bs k] & E & _).
  apply bind_Ok in E as (bs' & E & _). unfold to_bytes in E.
  destruct (Z.ltb_spec v 0); [discriminate|lia].
Qed.

(** The initialisation stores are straight-line code that touches the
    storage only. *)
Lemma constructor_stores_runs (vars : list (string * Z))
    (state : ContractState) (g g' : generator) :
  constructor_stores vars state g = Ok g' ->
  exists bs k, appended g g' bs /\
    forall st mem sto, exists sto',
      runs bs k (st, mem, sto) (st, mem, sto').
Proof.
  revert g. induction vars as [|[var_name slot] vars IH]; intros g H.
  - injection H as <-. exists [], 0%nat. split; [apply appended_refl|].
    intros st mem sto. exists sto. intros pre post cd.
    cbn [EVM.run length fst snd]. rewrite Nat.add_0_r. reflexivity.
  - cbn [constructor_stores] in H. apply bind_Ok in H as (g1 & E & H).
    destruct (IH _ H) as (bs2 & k2 & Happ2 & Hrun2).
    destruct (default (PyInt 0) (dict_get var_name (initial_values state)))
      as [initial_value|].
    + apply bind_Ok in E as (ga & Ea & E). apply bind_Ok in E as (gb & Eb & E).
      injection E as <-.
      pose proof (push_int_nonneg _ _ _ Ea) as Hva.
      pose proof (push_int_nonneg _ _ _ Eb) as Hvb.
      destruct (runs_push_int _ _ _ Hva Ea) as (bsa & Happa & Hruna).
      destruct (runs_push_int _ _ _ Hvb Eb) as (bsb & Happb & Hrunb).
      exists ((bsa ++ bsb ++ [EVMOpcode.SSTORE]) ++ bs2), (3 + k2)%nat.
      split.
      * eapply appended_trans; [|exact Happ2].
        eapply appended_trans; [exact Happa|].
        eapply appended_trans; [exact Happb|apply emit_appended].
      * intros st mem sto.
        destruct (Hrun2 st mem
                    (<[slot mod 2 ^ 256 := initial_value mod 2 ^ 256]> sto))
          as (sto' & Hrun).
        exists sto'. eapply runs_app; [|exact Hrun].
        apply (runs_app bsa _ 1 2 _ _ _ (Hruna st mem sto)).
        apply (runs_app bsb _ 1 1 _ _ _ (Hrunb _ mem sto)).
        apply runs_sstore.
    + injection E as <-. exists bs2, k2. split; [exact Happ2|exact Hrun2].
Qed.

(** A successful two-byte push: the value fits, the bytes are known. *)
Lemma emit_push2_inv (v : Z) (g g' : generator) :
  emit_push (PInt v) (Some 2%nat) g = Ok g' ->
  0 <= v < 65536 /\
  appended g g' ([EVMOpcode.PUSH2] ++ be_bytes 2 v).
Proof.
  intros H.
  assert (Hv : 0 <= v < 256 ^ Z.of_nat 2).
  { unfold emit_push in H. apply bind_Ok in H as ([bs k] & E & _).
    apply bind_Ok in E as (bs' & E & _). unfold to_bytes in E.
    destruct (Z.ltb_spec v 0); [discriminate|].
    destruct (Z.leb_spec (256 ^ Z.of_nat 2) v); [discriminate|]. lia. }
  destruct (emit_push_int_sized v 2 g Hv ltac:(lia)) as (g1 & Hg1 & Happ).
  rewrite Hg1 in H. injection H as <-.
  split; [exact Hv|exact Happ].
Qed.

(** The constructor: the stores, then the copy sequence whose operands
    are the size given and the final length of the initialisation
    region. *)
Lemma generate_constructor_layout (state : ContractState) (size : nat)
    (g g' : generator) :
  current_mode g = "init" ->
  generate_constructor state size g = Ok g' ->
  exists stores k,
    init_code g'
    = init_code g ++ stores ++ copy_code size (length (init_code g')) /\
    runtime_code g' = runtime_code g /\
    (forall st mem sto, exists sto',
       runs stores k (st, mem, sto) (st, mem, sto')) /\
    Z.of_nat size < 65536 /\
    Z.of_nat (length (init_code g')) < 65536.
Proof.
  intros Hm H. unfold generate_constructor in H.
  apply bind_Ok in H as (g1 & E1 & H).
  destruct (constructor_stores_runs _ _ _ _ E1) as (stores & k & Ha1 & Hrun).
  apply bind_Ok in H as (g2 & E2 & H).
  apply emit_push2_inv in E2 as [Hsize Ha2].
  apply bind_Ok in H as (g3 & E3 & H).
  apply emit_push2_inv in E3 as [Hoff Ha3].
  apply bind_Ok in H as (g4 & E4 & H).
  destruct (push_int_appended 0 (emit EVMOpcode.DUP2 g3)
              (small_word 0 ltac:(lia)))
    as (g4' & E4' & Ha4). rewrite E4' in E4. injection E4 as ->.
  apply bind_Ok in H as (g5 & E5 & H).
  destruct (push_int_appended 0 (emit EVMOpcode.CODECOPY g4)
              (small_word 0 ltac:(lia)))
    as (g5' & E5' & Ha5). rewrite E5' in E5. injection E5 as ->.
  injection H as <-.
  pose proof (appended_trans _ _ _ _ _ Ha1
    (appended_trans _ _ _ _ _ Ha2
      (appended_trans _ _ _ _ _ Ha3
        (appended_trans _ _ _ _ _ (emit_appended EVMOpcode.DUP2 g3)
          (appended_trans _ _ _ _ _ Ha4
            (appended_trans _ _ _ _ _ (emit_appended EVMOpcode.CODECOPY g4)
              (appended_trans _ _ _ _ _ Ha5
                 (emit_appended EVMOpcode.RETURN g5)))))))) as Hall.
  destruct Hall as (Hact & Hinact & Hmode).
  destruct Ha1 as (Hact1 & _ & Hmode1).
  unfold active_code, inactive_code in Hact, Hinact, Hact1.
  rewrite Hmode, Hm in Hact, Hinact. rewrite Hmode1, Hm in Hact1.
  cbn [String.eqb Ascii.eqb Bool.eqb] in Hact, Hinact, Hact1.
  assert (Hlen : length (init_code (emit EVMOpcode.RETURN g5))
                 = (length (init_code g1) + 13)%nat).
  { rewrite Hact, Hact1. change (push_code 0) with [EVMOpcode.PUSH1; 0].
    rewrite !length_app, !length_be_bytes. simpl length. lia. }
  exists stores, k. split; [|split; [exact Hinact|split; [exact Hrun|]]].
  - rewrite Hlen. rewrite Hact. unfold copy_code. reflexivity.
  - split; [lia|]. rewrite Hlen. lia.
Qed.

Lemma generate_function_dispatcher_keeps (fs : list (string * func_info))
    (g g' : generator) (ph : gmap string nat) :
  current_mode g = "runtime" ->
  generate_function_dispatcher fs g = Ok (g', ph) -> keeps 0 g g'.
Proof.
  intros Hm H. unfold generate_function_dispatcher in H.
  destruct (dispatcher_code_appended fs g Hm)
    as (g1 & ph1 & entries & Hcode & Happ & _).
  rewrite Hcode in H. cbn [mbind result_bind] in H.
  apply bind_Ok in H as (g2 & E & H). injection H as <- <-.
  apply (backpatch2_keeps 0) in E; [|lia].
  apply (appended_keeps 0) in Happ. keeps_chain.
Qed.

(** The assembled generator: the runtime region is what the constructor
    was told the size of, and the initialisation region ends with the copy
    sequence whose two operands are the length of the runtime region and
    the length of the whole initialisation region. *)
Lemma assemble_layout (state : ContractState) (g0 g : generator) :
  assemble state g0 = Ok g ->
  exists stores k,
    init_code g
    = init_code g0 ++ stores ++
      copy_code (length (runtime_code g)) (length (init_code g)) /\
    (forall st mem sto, exists sto',
       runs stores k (st, mem, sto) (st, mem, sto')) /\
    Z.of_nat (length (runtime_code g)) < 65536 /\
    Z.of_nat (length (init_code g)) < 65536.
Proof.
  intros H. unfold assemble in H.
  apply bind_Ok in H as ([g1 ph] & Hd & H).
  apply bind_Ok in H as (g2 & Hb & H).
  apply generate_function_dispatcher_keeps in Hd; [|reflexivity].
  destruct (keeps_ready 0 _ _ Hd eq_refl ltac:(lia)) as [Hm1 Hn1].
  apply (function_bodies_keeps 0) in Hb; [|intros; lia|exact Hm1|exact Hn1].
  assert (K : keeps 0 (set_mode "runtime" g0) g2) by keeps_chain.
  destruct K as (Hm2 & Hin2 & _).
  unfold inactive_code in Hin2. rewrite Hm2 in Hin2.
  cbn [set_mode current_mode init_code String.eqb Ascii.eqb Bool.eqb]
    in Hin2.
  apply generate_constructor_layout in H; [|reflexivity].
  destruct H as (stores & k & Hinit & Hrt & Hrun & Hsize & Hlen).
  cbn [set_mode init_code runtime_code] in Hinit, Hrt.
  exists stores, k. rewrite Hrt, <- Hin2. auto.
Qed.

Lemma runs_dup2 (a b : Z) (st mem : list Z) (sto : gmap Z Z) :
  runs [EVMOpcode.DUP2] 1 (a :: b :: st, mem, sto)
       (b :: a :: b :: st, mem, sto).
Proof.
  apply runs_one; intros e pc Hop; unfold EVM.step; cbn [EVM.pc EVM.stack];
    rewrite Hop; reflexivity.
Qed.

Lemma write_bytes_empty (bs : list Z) : EVM.write_bytes 0 bs [] = bs.
Proof.
  unfold EVM.write_bytes. rewrite take_0. cbn [app Nat.add].
  rewrite drop_ge by (rewrite repeat_length; lia). apply app_nil_r.
Qed.

Lemma step_codecopy (e : EVM.env) (pc : nat) (a b c : Z)
    (st mem : list Z) (sto : gmap Z Z) :
  EVM.code e !! pc = Some EVMOpcode.CODECOPY ->
  EVM.step e {| EVM.pc := pc; EVM.stack := a :: b :: c :: st;
                EVM.memory := mem; EVM.storage := sto |}
  = EVM.Running
      {| EVM.pc := S pc; EVM.stack := st;
         EVM.memory :=
           EVM.write_bytes (Z.to_nat a)
             (EVM.read_bytes (Z.to_nat b) (Z.to_nat c) (EVM.code e)) mem;
         EVM.storage := sto |}.
Proof.
  intros H. unfold EVM.step. cbn [EVM.pc EVM.stack]. rewrite H. reflexivity.
Qed.

Lemma step_return (e : EVM.env) (pc : nat) (a b : Z)
    (st mem : list Z) (sto : gmap Z Z) :
  EVM.code e !! pc = Some EVMOpcode.RETURN ->
  EVM.step e {| EVM.pc := pc; EVM.stack := a :: b :: st;
                EVM.memory := mem; EVM.storage := sto |}
  = EVM.Returned (EVM.read_bytes (Z.to_nat a) (Z.to_nat b) mem)
      {| EVM.pc := pc; EVM.stack := a :: b :: st;
         EVM.memory := mem; EVM.storage := sto |}.
Proof.
  intros H. unfold EVM.step. cbn [EVM.pc EVM.stack EVM.memory].
  rewrite H. reflexivity.
Qed.

Lemma step_push1 (e : EVM.env) (pc : nat) (v : Z)
    (st mem : list Z) (sto : gmap Z Z) :
  EVM.code e !! pc = Some EVMOpcode.PUSH1 ->
  EVM.code e !! S pc = Some v ->
  EVM.step e {| EVM.pc := pc; EVM.stack := st;
                EVM.memory := mem; EVM.storage := sto |}
  = EVM.Running
      {| EVM.pc := (pc + 1 + 1)%nat; EVM.stack := v :: st;
         EVM.memory := mem; EVM.storage := sto |}.
Proof.
  intros H Hv. unfold EVM.step.
  cbn [EVM.pc EVM.stack EVM.memory EVM.storage]. rewrite H.
  change ((96 <=? EVMOpcode.PUSH1) && (EVMOpcode.PUSH1 <=? 127)) with true.
  change (Z.to_nat (EVMOpcode.PUSH1 - 95)) with 1%nat.
  cbv iota. unfold EVM.read_bytes.
  rewrite (drop_S _ _ _ Hv). cbn [app take]. unfold from_bytes.
  cbn [fold_left]. rewrite Z.add_0_l. reflexivity.
Qed.

(** What contract creation returns, given the copy sequence as emitted:
    CODECOPY finds the destination 0, then the size operand as source
    offset and the offset operand as length. *)
Lemma copy_code_creates (stores runtime : list Z) (k size offset : nat) :
  (forall st mem sto, exists sto',
     runs stores k (st, mem, sto) (st, mem, sto')) ->
  Z.of_nat size < 65536 -> Z.of_nat offset < 65536 ->
  let artifact := stores ++ copy_code size offset ++ runtime in
  exists m,
    EVM.create (k + 7) artifact
    = EVM.Returned
        (EVM.read_bytes 0 size (EVM.read_bytes size offset artifact)) m.
Proof.
  intros Hstores Hsize Hoffset artifact.
  destruct (Hstores [] [] ∅) as (sto & Hrun0).
  set (e := {| EVM.code := artifact; EVM.calldata := [] |}).
  set (pushes := ([EVMOpcode.PUSH2] ++ be_bytes 2 (Z.of_nat size)) ++
                 ([EVMOpcode.PUSH2] ++ be_bytes 2 (Z.of_nat offset)) ++
                 [EVMOpcode.DUP2] ++ [EVMOpcode.PUSH1; 0]).
  set (tail := [EVMOpcode.CODECOPY; EVMOpcode.PUSH1; 0; EVMOpcode.RETURN]).
  assert (Hlp : length pushes = 9%nat) by reflexivity.
  assert (Hart : artifact = [] ++ (stores ++ pushes) ++ tail ++ runtime).
  { unfold artifact, copy_code, pushes, tail. cbn [be_bytes app].
    rewrite <- app_assoc. reflexivity. }
  (* the four pushes, after the stores *)
  assert (HB : runs pushes 4 ([], [], sto)
                 ([0; Z.of_nat size; Z.of_nat offset; Z.of_nat size],
                  [], sto)).
  { unfold pushes.
    apply (runs_app _ _ 1 3 _ ([Z.of_nat size], [], sto)).
    { apply (runs_push 2); [lia|]. change (256 ^ Z.of_nat 2) with 65536. lia. }
    apply (runs_app _ _ 1 2 _ ([Z.of_nat offset; Z.of_nat size], [], sto)).
    { apply (runs_push 2); [lia|]. change (256 ^ Z.of_nat 2) with 65536. lia. }
    apply (runs_app _ _ 1 1 _
             ([Z.of_nat size; Z.of_nat offset; Z.of_nat size], [], sto)).
    { apply runs_dup2. }
    apply (runs_push_code 0). apply small_word. lia. }
  pose proof (runs_app _ _ _ _ _ _ _ Hrun0 HB [] (tail ++ runtime) [])
    as HAB.
  rewrite <- Hart in HAB. fold e in HAB.
  cbn [fst snd] in HAB. rewrite length_app, Hlp in HAB.
  cbn [length Nat.add] in HAB.
  (* CODECOPY, PUSH1 0, RETURN *)
  assert (Hop : forall i op,
            tail !! i = Some op ->
            EVM.code e !! (length stores + 9 + i)%nat = Some op).
  { intros i op Hi. cbn [EVM.code e]. rewrite Hart. cbn [app].
    rewrite lookup_app_r by (rewrite length_app, Hlp; lia).
    rewrite length_app, Hlp.
    replace (length stores + 9 + i - (length stores + 9))%nat with i by lia.
    rewrite lookup_app_l by (apply lookup_lt_Some in Hi; exact Hi).
    exact Hi. }
  pose proof (Hop 0%nat _ eq_refl) as H0. rewrite Nat.add_0_r in H0.
  pose proof (Hop 1%nat _ eq_refl) as H1.
  pose proof (Hop 2%nat _ eq_refl) as H2.
  pose proof (Hop 3%nat _ eq_refl) as H3.
  replace (length stores + 9 + 1)%nat with (S (length stores + 9)) in H1
    by lia.
  replace (length stores + 9 + 2)%nat with (S (S (length stores + 9))) in H2
    by lia.
  replace (length stores + 9 + 3)%nat
    with (S (length stores + 9) + 1 + 1)%nat in H3 by lia.
  eexists. unfold EVM.create. fold e.
  replace (k + 7)%nat with ((k + 4) + 3)%nat by lia.
  rewrite (run_add _ _ _ _ _ HAB).
  cbn [EVM.run].
  rewrite (step_codecopy e _ _ _ _ _ _ _ H0).
  rewrite (step_push1 e _ _ _ _ _ H1 H2).
  rewrite (step_return e _ _ _ _ _ _ H3).
  rewrite !Nat2Z.id. change (Z.to_nat 0) with 0%nat.
  rewrite write_bytes_empty. reflexivity.
Qed.

End Constructor.

(** The layout half of C1 holds on the code: the artifact is the
    initialisation region followed by the runtime region; the constructor
    ends with the copy sequence whose PUSH2 operands are the length of the
    runtime region and the length of the finished initialisation region,
    so the artifact's bytes at [offset, offset + size) are the runtime
    region.  The execution half does not: run as creation code, the
    artifact returns the [size] first bytes of the artifact's bytes at
    [size, size + offset) instead, the two operands reaching CODECOPY in
    exchanged roles. *)
Lemma creation_returns_misplaced_code (state : ContractState)
    (g : generator) :
  assemble state new_generator = Ok g ->
  let size := length (runtime_code g) in
  let offset := length (init_code g) in
  let artifact := init_code g ++ runtime_code g in
  _generate_enhanced_bytecode state new_generator = Ok artifact /\
  (exists stores, init_code g = stores ++ copy_code size offset) /\
  EVM.read_bytes offset size artifact = runtime_code g /\
  (exists fuel m,
     EVM.create fuel artifact
     = EVM.Returned
         (EVM.read_bytes 0 size (EVM.read_bytes size offset artifact)) m).
Proof.
  intros H size offset artifact.
  destruct (assemble_layout _ _ _ H)
    as (stores & k & Hinit & Hrun & Hsize & Hoffset).
  cbn [new_generator init_code app] in Hinit.
  fold size offset in Hinit, Hsize, Hoffset.
  split; [|split; [|split]].
  - unfold _generate_enhanced_bytecode. rewrite H. reflexivity.
  - exists stores. exact Hinit.
  - unfold EVM.read_bytes, artifact, offset, size.
    rewrite drop_app_length. apply take_app_length.
  - destruct (copy_code_creates stores (runtime_code g) k size offset
                Hrun Hsize Hoffset) as (m & Hm).
    exists (k + 7)%nat, m. unfold artifact. rewrite Hinit, <- app_assoc.
    exact Hm.
Qed.

(** C1, on the code. Run as creation code, the artifact of the module's
    own test contract returns as many bytes as the runtime region has (69)
    but not the runtime region: the stack at CODECOPY is
    [0, size, offset, size], so CODECOPY copies [offset] = 23 bytes from
    code position [size] = 69 (the tail of the artifact) to memory 0, and
    RETURN hands back those 23 bytes followed by 46 zero bytes. *)
Theorem creation_returns_wrong_code :
  exists (g : generator) (data : list Z) (m : EVM.machine),
    assemble test_contract new_generator = Ok g /\
    EVM.create 13 (init_code g ++ runtime_code g) = EVM.Returned data m /\
    EVM.stack m = [0; 69] /\
    data = drop 69 (init_code g ++ runtime_code g) ++ repeat 0 46%nat /\
    length data = length (runtime_code g) /\
    data <> runtime_code g.
Proof.
  eexists _, _, _. split; [apply assemble_test_contract|].
  split; [vm_compute; reflexivity|].
  split; [reflexivity|]. split; [reflexivity|].
  split; [reflexivity|discriminate].
Qed.

(** The same on the contract with no state variable and no function. *)
Example creation_of_empty_contract :
  exists (g : generator) (data : list Z) (m : EVM.machine),
    assemble empty_contract new_generator = Ok g /\
    EVM.create 7 (init_code g ++ runtime_code g) = EVM.Returned data m /\
    runtime_code g
    = [0x60; 0x04; 0x36; 0x10; 0x61; 0xff; 0xff; 0x00; 0x0e; 0x00; 0x35;
       0x60; 0xe0; 0x1c; 0x5b; 0x60; 0x00; 0x60; 0x00; 0xfd] /\
    data
    = [0x00; 0x0e; 0x00; 0x35; 0x60; 0xe0; 0x1c; 0x5b; 0x60; 0x00; 0x60;
       0x00; 0xfd; 0; 0; 0; 0; 0; 0; 0].
Proof.
  eexists _, _, _. split; [vm_compute; reflexivity|].
  split; [vm_compute; reflexivity|]. split; reflexivity.
Qed.

(** What the unpatched guard does to calls: on the runtime region of the
    test contract, a call of [get_count()] with 7 in slot 0 pushes 0xFFFF
    and then meets, at offset 7, the high byte of the misplaced backpatch,
    0x00, which is STOP; nothing is returned. *)
Example call_get_count_stops :
  exists g m,
    assemble test_contract new_generator = Ok g /\
    EVM.call 100 (runtime_code g) [0xe7; 0x27; 0x8e; 0x7f] {[ 0 := 7 ]}
    = EVM.Stopped m /\
    EVM.pc m = 7%nat /\ EVM.stack m = [0xFFFF; 0].
Proof.
  eexists _, _. split; [apply assemble_test_contract|].
  split; [vm_compute; reflexivity|]. split; reflexivity.
Qed.

(** * Further properties of the code *)

(** ** ABI words *)

Section ABIWords.

Lemma from_bytes_take_app (bs rest : list Z) :
  from_bytes (take (length bs) (bs ++ rest)) = from_bytes bs.
Proof. rewrite take_app_length. reflexivity. Qed.

End ABIWords.

(** X1. [encode_uint256] raises [OverflowError] outside [0, 2^256) and
    otherwise yields exactly 32 bytes that [decode_uint256] and
    [decode_address] read back as the value, whatever data follows the
    word. *)
Theorem abi_uint256_roundtrip (v : Z) (rest : list Z) :
  (v < 0 \/ 2 ^ 256 <= v ->
   ABIEncoder.encode_uint256 v = Err OverflowError) /\
  (0 <= v < 2 ^ 256 ->
   exists word,
     ABIEncoder.encode_uint256 v = Ok word /\
     length word = 32%nat /\
     Forall is_byte word /\
     ABIEncoder.decode_uint256 (word ++ rest) = v /\
     ABIEncoder.decode_address (word ++ rest) = v).
Proof.
  unfold ABIEncoder.encode_uint256, ABIEncoder.decode_uint256,
    ABIEncoder.decode_address.
  split.
  - intros Hv. apply to_bytes_overflow.
    change (256 ^ Z.of_nat 32) with (2 ^ 256). exact Hv.
  - intros Hv. exists (be_bytes 32 v).
    assert (Hback : from_bytes (take 32 (be_bytes 32 v ++ rest)) = v).
    { rewrite <- (length_be_bytes 32 v) at 1.
      rewrite from_bytes_take_app, from_bytes_be_bytes.
      apply Z.mod_small. change (256 ^ Z.of_nat 32) with (2 ^ 256). exact Hv. }
    split; [apply to_bytes_ok; change (256 ^ Z.of_nat 32) with (2 ^ 256);
            exact Hv|].
    split; [apply length_be_bytes|].
    split; [apply be_bytes_is_byte|]. split; exact Hback.
Qed.

Lemma abi_uint256_roundtrip_witness :
  ABIEncoder.encode_uint256 (2 ^ 256) = Err OverflowError /\
  exists word,
    ABIEncoder.encode_uint256 42 = Ok word /\
    length word = 32%nat /\
    Forall is_byte word /\
    ABIEncoder.decode_uint256 (word ++ [1; 2; 3]) = 42 /\
    ABIEncoder.decode_address (word ++ [1; 2; 3]) = 42.
Proof.
  split.
  - apply (proj1 (abi_uint256_roundtrip (2 ^ 256) [])). right. reflexivity.
  - apply (proj2 (abi_uint256_roundtrip 42 [1; 2; 3])).
    split; [discriminate|reflexivity].
Defined.

(** X2. [decode_uint256] never fails: it reads the first 32 bytes only, a
    shorter input as the shorter number, and on a byte string its result is
    a 256-bit word. *)
Theorem abi_decode_bounded (data : list Z) :
  Forall is_byte data ->
  0 <= ABIEncoder.decode_uint256 data < 2 ^ 256 /\
  ABIEncoder.decode_uint256 data
  = ABIEncoder.decode_uint256 (take 32 data) /\
  ((length data <= 32)%nat ->
   ABIEncoder.decode_uint256 data = from_bytes data).
Proof.
  intros Hb. unfold ABIEncoder.decode_uint256.
  assert (Ht : Forall is_byte (take 32 data)) by (apply Forall_take; exact Hb).
  pose proof (from_bytes_bound _ Ht) as [Hlo Hhi].
  split; [split; [exact Hlo|]|split].
  - eapply Z.lt_le_trans; [exact Hhi|].
    change (2 ^ 256) with (256 ^ 32).
    apply Z.pow_le_mono_r; [lia|]. rewrite length_take. lia.
  - rewrite take_take. reflexivity.
  - intros Hlen. rewrite take_ge by exact Hlen. reflexivity.
Qed.

Lemma abi_decode_bounded_witness :
  0 <= ABIEncoder.decode_uint256 [1; 0] < 2 ^ 256 /\
  ABIEncoder.decode_uint256 [1; 0]
  = ABIEncoder.decode_uint256 (take 32 [1; 0]) /\
  ((length [1; 0] <= 32)%nat ->
   ABIEncoder.decode_uint256 [1; 0] = from_bytes [1; 0]).
Proof.
  apply (abi_decode_bounded [1; 0]).
  repeat constructor; discriminate.
Defined.

(** X3. [encode_bytes32] pads on the right with zero bytes up to 32 and
    never truncates: the input is always a prefix of the result, the
    result has [max(32, len)] bytes, and an input longer than 32 bytes is
    returned unchanged. *)
Theorem abi_encode_bytes32_pads (bs : list Z) :
  take (length bs) (ABIEncoder.encode_bytes32 (ABIEncoder.Bytes bs)) = bs /\
  length (ABIEncoder.encode_bytes32 (ABIEncoder.Bytes bs))
  = Nat.max 32 (length bs) /\
  drop (length bs) (ABIEncoder.encode_bytes32 (ABIEncoder.Bytes bs))
  = repeat 0 (32 - length bs) /\
  ((32 <= length bs)%nat ->
   ABIEncoder.encode_bytes32 (ABIEncoder.Bytes bs) = bs) /\
  (forall s : string,
     ABIEncoder.encode_bytes32 (ABIEncoder.Str s)
     = ABIEncoder.encode_bytes32 (ABIEncoder.Bytes (encode_utf8 s))).
Proof.
  unfold ABIEncoder.encode_bytes32, ABIEncoder.ljust32.
  split; [apply take_app_length|].
  split; [rewrite length_app, repeat_length; lia|].
  split; [apply drop_app_length|].
  split; [|reflexivity].
  intros Hlen. replace (32 - length bs)%nat with 0%nat by lia.
  apply app_nil_r.
Qed.

Lemma abi_encode_bytes32_pads_witness :
  take (length [1; 2]) (ABIEncoder.encode_bytes32 (ABIEncoder.Bytes [1; 2]))
  = [1; 2] /\
  length (ABIEncoder.encode_bytes32 (ABIEncoder.Bytes [1; 2]))
  = Nat.max 32 (length [1; 2]) /\
  drop (length [1; 2]) (ABIEncoder.encode_bytes32 (ABIEncoder.Bytes [1; 2]))
  = repeat 0 (32 - length [1; 2]) /\
  ((32 <= length [1; 2])%nat ->
   ABIEncoder.encode_bytes32 (ABIEncoder.Bytes [1; 2]) = [1; 2]) /\
  (forall s : string,
     ABIEncoder.encode_bytes32 (ABIEncoder.Str s)
     = ABIEncoder.encode_bytes32 (ABIEncoder.Bytes (encode_utf8 s))).
Proof. exact (abi_encode_bytes32_pads [1; 2]). Defined.

(** ** The emitter at its edges *)

Section EmitterEdges.

Lemma emit_push_result (value_bytes : list Z) (size : nat) (g : generator) :
  let k := Nat.min size 32 in
  let g1 := set_active_code g
              (active_code g ++
               [EVMOpcode.PUSH1 + Z.of_nat k - 1] ++ last_n k value_bytes) in
  appended g
    {| init_code := init_code g1; runtime_code := runtime_code g1;
       current_mode := current_mode g1; gas_used := gas_used g1 + 3 |}
    ([EVMOpcode.PUSH1 + Z.of_nat k - 1] ++ last_n k value_bytes).
Proof.
  intros k g1. unfold appended, g1.
  unfold active_code, inactive_code, set_active_code; simpl.
  destruct (String.eqb (current_mode g) "init") eqn:E; simpl; rewrite E;
    auto.
Qed.

Lemma gas_set_active (g : generator) (code : list Z) :
  gas_used (set_active_code g code) = gas_used g.
Proof.
  unfold set_active_code.
  destruct (String.eqb (current_mode g) "init"); reflexivity.
Qed.

Lemma last_n_length (bs : list Z) : last_n (length bs) bs = bs.
Proof.
  unfold last_n. destruct (length bs) eqn:E; [reflexivity|].
  rewrite <- E, Nat.sub_diag. reflexivity.
Qed.

End EmitterEdges.

(** X4. [emit_push] with an explicit width [n] in 1..32 succeeds exactly
    when [0 <= v < 256^n]: it then appends PUSHn and exactly [n] bytes,
    zero-padded on the left, that read back as [v], and charges 3 gas; a
    negative value or one that needs more than [n] bytes raises
    [OverflowError]. *)
Theorem emit_push_fixed_width (v : Z) (n : nat) (g : generator) :
  (1 <= n <= 32)%nat ->
  (0 <= v < 256 ^ Z.of_nat n ->
   exists g',
     emit_push (PInt v) (Some n) g = Ok g' /\
     appended g g' ([EVMOpcode.PUSH1 + Z.of_nat n - 1] ++ be_bytes n v) /\
     length (be_bytes n v) = n /\
     from_bytes (be_bytes n v) = v /\
     gas_used g' = gas_used g + 3) /\
  (v < 0 \/ 256 ^ Z.of_nat n <= v ->
   emit_push (PInt v) (Some n) g = Err OverflowError).
Proof.
  intros Hn. split.
  - intros Hv. unfold emit_push. rewrite to_bytes_ok by exact Hv.
    cbn [mbind result_bind]. rewrite Nat.min_l by lia.
    rewrite last_n_be_bytes by lia.
    eexists. split; [reflexivity|].
    split.
    { pose proof (emit_push_result (be_bytes n v) n g) as H.
      cbv zeta in H. rewrite Nat.min_l in H by lia.
      rewrite last_n_be_bytes in H by lia. exact H. }
    split; [apply length_be_bytes|].
    split; [rewrite from_bytes_be_bytes; apply Z.mod_small; exact Hv|].
    cbn [gas_used]. rewrite gas_set_active. reflexivity.
  - intros Hv. unfold emit_push. rewrite to_bytes_overflow by exact Hv.
    reflexivity.
Qed.

Lemma emit_push_fixed_width_witness :
  (exists g',
     emit_push (PInt 0xABCD) (Some 4%nat) new_generator = Ok g' /\
     appended new_generator g'
       ([EVMOpcode.PUSH1 + Z.of_nat 4 - 1] ++ be_bytes 4 0xABCD) /\
     length (be_bytes 4 0xABCD) = 4%nat /\
     from_bytes (be_bytes 4 0xABCD) = 0xABCD /\
     gas_used g' = gas_used new_generator + 3) /\
  emit_push (PInt 0x10000) (Some 2%nat) new_generator = Err OverflowError.
Proof.
  split.
  - apply (proj1 (emit_push_fixed_width 0xABCD 4 new_generator
                    ltac:(lia))).
    split; [discriminate|reflexivity].
  - apply (proj2 (emit_push_fixed_width 0x10000 2 new_generator
                    ltac:(lia))).
    right. discriminate.
Defined.

(** X5. [emit_push] on a [bytes] value never fails and ignores the width
    argument: it appends PUSHk with [k = min(len, 32)] and the last [k]
    bytes, that is the whole value when it has 1 to 32 bytes and its last
    32 bytes when it is longer; for the empty value it appends the single
    byte 0x5f and no operand. *)
Theorem emit_push_bytes_value (bs : list Z) (size : option nat)
    (g : generator) :
  exists g',
    emit_push (PBytes bs) size g = Ok g' /\
    gas_used g' = gas_used g + 3 /\
    ((1 <= length bs <= 32)%nat ->
     appended g g' ([EVMOpcode.PUSH1 + Z.of_nat (length bs) - 1] ++ bs)) /\
    ((32 < length bs)%nat ->
     appended g g' ([EVMOpcode.PUSH32] ++ drop (length bs - 32) bs)) /\
    (bs = [] -> appended g g' [0x5f]).
Proof.
  unfold emit_push. cbn [mbind result_bind].
  eexists. split; [reflexivity|].
  split; [cbn [gas_used]; rewrite gas_set_active; reflexivity|].
  pose proof (emit_push_result bs (length bs) g) as H. cbv zeta in H.
  split; [|split].
  - intros Hlen. rewrite Nat.min_l in H |- * by lia.
    rewrite last_n_length in H |- *. exact H.
  - intros Hlen. rewrite Nat.min_r in H |- * by lia. exact H.
  - intros ->. exact H.
Qed.

Lemma emit_push_bytes_value_witness :
  exists g',
    emit_push (PBytes [1; 2; 3]) (Some 7%nat) new_generator = Ok g' /\
    gas_used g' = gas_used new_generator + 3 /\
    ((1 <= length [1; 2; 3] <= 32)%nat ->
     appended new_generator g'
       ([EVMOpcode.PUSH1 + Z.of_nat (length [1; 2; 3]) - 1] ++ [1; 2; 3])) /\
    ((32 < length [1; 2; 3])%nat ->
     appended new_generator g'
       ([EVMOpcode.PUSH32] ++ drop (length [1; 2; 3] - 32) [1; 2; 3])) /\
    ([1; 2; 3] = [] -> appended new_generator g' [0x5f]).
Proof. exact (emit_push_bytes_value [1; 2; 3] (Some 7%nat) new_generator). Defined.

Section OffsetTracking.

(** A successful push appends its opcode and at most 32 operand bytes. *)
Lemma emit_push_operand (v : push_value) (size : option nat)
    (g g' : generator) :
  emit_push v size g = Ok g' ->
  exists opcode operand,
    (length operand <= 32)%nat /\ appended g g' (opcode :: operand).
Proof.
  intros H. unfold emit_push in H.
  apply bind_Ok in H as ([bs n] & E & H). injection H as <-.
  assert (Hlen : length bs = n).
  { destruct v as [v|bs'].
    - apply bind_Ok in E as (bs' & E & E'). injection E' as <- <-.
      unfold to_bytes in E. destruct (_ || _); [discriminate|].
      injection E as <-. apply length_be_bytes.
    - injection E as <- <-. reflexivity. }
  pose proof (emit_push_result bs n g) as Happ. cbv zeta in Happ.
  eexists _, _. split; [|exact Happ].
  unfold last_n. destruct (Nat.min n 32) eqn:Emin.
  - lia.
  - rewrite length_drop. lia.
Qed.

End OffsetTracking.

(** [emit] on an [int]: the opcode is appended when it is a byte, and
    only then. *)
Lemma emit_int_inv (op : Z) (g g' : generator) :
  emit_int op g = Ok g' -> 0 <= op < 256 /\ g' = emit op g.
Proof.
  unfold emit_int. intros H.
  destruct (0 <=? op) eqn:E1; [|discriminate H].
  destruct (op <? 256) eqn:E2; [|discriminate H].
  cbn [andb] in H. injection H as <-.
  apply Z.leb_le in E1. apply Z.ltb_lt in E2. split; [lia|reflexivity].
Qed.

(** X6. [emit] appends its opcode when it is a byte and raises
    [ValueError], appending nothing, otherwise.  In the modes ['init']
    and ['runtime'], [get_offset] is the length of the region emission
    appends to: a successful [emit] advances it by one and a successful
    [emit_push] by one plus the number of operand bytes, at most 33 in
    all.  In any other mode the two disagree: [emit] appends to the
    runtime region while [get_offset] goes on reporting the length of
    the initialisation region. *)
Theorem get_offset_tracks_emission (g : generator) (op : Z) :
  (0 <= op < 256 -> emit_int op g = Ok (emit op g)) /\
  (op < 0 \/ 256 <= op -> emit_int op g = Err ValueError) /\
  (current_mode g = "init" \/ current_mode g = "runtime" ->
   get_offset g = length (active_code g) /\
   (forall g', emit_int op g = Ok g' -> get_offset g' = S (get_offset g)) /\
   (forall v size g',
      emit_push v size g = Ok g' ->
      exists k, (k <= 32)%nat /\ get_offset g' = (get_offset g + 1 + k)%nat)) /\
  (current_mode g <> "init" -> current_mode g <> "runtime" ->
   get_offset g = length (init_code g) /\
   (forall g', emit_int op g = Ok g' ->
      runtime_code g' = runtime_code g ++ [op] /\
      init_code g' = init_code g /\
      get_offset g' = get_offset g)).
Proof.
  split; [|split; [|split]].
  - intros [H0 H1]. unfold emit_int.
    apply Z.leb_le in H0. apply Z.ltb_lt in H1. rewrite H0, H1. reflexivity.
  - intros H. unfold emit_int.
    destruct H as [H|H].
    + apply Z.leb_gt in H. rewrite H. reflexivity.
    + apply Z.ltb_ge in H. rewrite H, andb_false_r. reflexivity.
  - intros Hm.
    assert (Hoff : forall g1, current_mode g1 = current_mode g ->
                     get_offset g1 = length (active_code g1)).
    { intros g1 H1. unfold get_offset, active_code. rewrite H1.
      destruct Hm as [-> | ->]; reflexivity. }
    split; [apply Hoff; reflexivity|]. split.
    + intros g' H. apply emit_int_inv in H as [_ ->].
      rewrite (Hoff (emit op g))
        by apply (appended_mode _ _ _ (emit_appended op g)).
      rewrite (appended_length _ _ _ (emit_appended op g)).
      rewrite (Hoff g eq_refl). simpl. lia.
    + intros v size g' H.
      destruct (emit_push_operand _ _ _ _ H) as (opcode & operand & Hk & Happ).
      exists (length operand). split; [exact Hk|].
      rewrite (Hoff _ (appended_mode _ _ _ Happ)).
      rewrite (appended_length _ _ _ Happ), (Hoff g eq_refl).
      simpl. lia.
  - intros Hi Hr.
    assert (Ei : String.eqb (current_mode g) "init" = false)
      by (apply String.eqb_neq; exact Hi).
    assert (Er : String.eqb (current_mode g) "runtime" = false)
      by (apply String.eqb_neq; exact Hr).
    split.
    + unfold get_offset. rewrite Er. reflexivity.
    + intros g' H. apply emit_int_inv in H as [_ ->].
      unfold emit, get_offset, active_code, set_active_code.
      rewrite Ei. cbn [runtime_code current_mode init_code]. rewrite Er.
      auto.
Qed.

Lemma get_offset_tracks_emission_witness :
  emit_int 0x5b new_generator = Ok (emit 0x5b new_generator) /\
  emit_int 0x100 new_generator = Err ValueError /\
  (get_offset new_generator = length (active_code new_generator) /\
   (forall g', emit_int 0x5b new_generator = Ok g' ->
      get_offset g' = S (get_offset new_generator)) /\
   (forall v size g',
      emit_push v size new_generator = Ok g' ->
      exists k, (k <= 32)%nat /\
        get_offset g' = (get_offset new_generator + 1 + k)%nat)) /\
  (let g := set_mode "deploy" new_generator in
   get_offset g = length (init_code g) /\
   (forall g', emit_int 0x5b g = Ok g' ->
      runtime_code g' = runtime_code g ++ [0x5b] /\
      init_code g' = init_code g /\
      get_offset g' = get_offset g)).
Proof.
  split; [|split; [|split]].
  - apply (proj1 (get_offset_tracks_emission new_generator 0x5b)).
    split; [discriminate|reflexivity].
  - apply (proj1 (proj2 (get_offset_tracks_emission new_generator 0x100))).
    right. discriminate.
  - apply (proj1 (proj2 (proj2
             (get_offset_tracks_emission new_generator 0x5b)))).
    left. reflexivity.
  - apply (proj2 (proj2 (proj2
             (get_offset_tracks_emission
                (set_mode "deploy" new_generator) 0x5b))));
      discriminate.
Defined.

(** X7. [_backpatch] does not check its offset.  With a target in range
    and an offset at or past the end of the active region it appends the
    two bytes, growing the region by two; with the offset on the last byte
    it replaces that byte and appends one. *)
Theorem backpatch_past_end_grows (offset : nat) (target : Z)
    (g : generator) :
  0 <= target <= 0xFFFF ->
  (length (active_code g) <= S offset)%nat ->
  exists g',
    _backpatch offset target 2 g = Ok g' /\
    active_code g'
    = take offset (active_code g) ++ [target / 256; target mod 256] /\
    ((length (active_code g) <= offset)%nat ->
     active_code g' = active_code g ++ [target / 256; target mod 256]) /\
    (length (active_code g) < length (active_code g'))%nat.
Proof.
  intros Ht Hlen. rewrite backpatch_ok by exact Ht.
  eexists. split; [reflexivity|]. rewrite active_set_active.
  rewrite (drop_ge (active_code g)) by lia.
  split; [reflexivity|]. split.
  - intros Hge. rewrite take_ge by exact Hge. reflexivity.
  - rewrite length_app, length_take. simpl. lia.
Qed.

Lemma backpatch_past_end_grows_witness :
  let g := {| init_code := []; runtime_code := [0x5b];
              current_mode := "runtime"; gas_used := 0 |} in
  exists g',
    _backpatch 5 0x0102 2 g = Ok g' /\
    active_code g'
    = take 5 (active_code g) ++ [0x0102 / 256; 0x0102 mod 256] /\
    ((length (active_code g) <= 5)%nat ->
     active_code g' = active_code g ++ [0x0102 / 256; 0x0102 mod 256]) /\
    (length (active_code g) < length (active_code g'))%nat.
Proof.
  intros g. apply (backpatch_past_end_grows 5 0x0102 g).
  - split; discriminate.
  - simpl. lia.
Defined.

(** ** Execution of compiled expressions *)

Section ExprExecution.

Variable cd : list Z.

Lemma runs_runs_in (frag : list Z) (steps : nat)
    (s s' : list Z * list Z * gmap Z Z) :
  runs frag steps s s' -> runs_in cd frag steps s s'.
Proof. intros H pre post. apply H. Qed.

Lemma runs_in_app (f1 f2 : list Z) (n1 n2 : nat)
    (s1 s2 s3 : list Z * list Z * gmap Z Z) :
  runs_in cd f1 n1 s1 s2 -> runs_in cd f2 n2 s2 s3 ->
  runs_in cd (f1 ++ f2) (n1 + n2) s1 s3.
Proof.
  intros H1 H2 pre post.
  rewrite <- (app_assoc f1 f2 post).
  rewrite (run_add n1 n2 _ _ _ (H1 pre (f2 ++ post))).
  specialize (H2 (pre ++ f1) post).
  rewrite <- app_assoc in H2. rewrite length_app in H2.
  rewrite H2. rewrite length_app, Nat.add_assoc. reflexivity.
Qed.

Lemma runs_in_calldataload (a : Z) (st mem : list Z) (sto : gmap Z Z) :
  runs_in cd [EVMOpcode.CALLDATALOAD] 1 (a :: st, mem, sto)
    (from_bytes (EVM.read_bytes (Z.to_nat a) 32 cd) :: st, mem, sto).
Proof.
  intros pre post. cbn [EVM.run]. unfold EVM.step.
  cbn [EVM.pc EVM.stack EVM.code EVM.calldata fst snd app].
  rewrite lookup_middle. cbn [length]. rewrite Nat.add_1_r. reflexivity.
Qed.

Lemma runs_binop (op : Z) (f : Z -> Z -> Z) :
  (forall (e : EVM.env) (pc : nat) (a b : Z) (st mem : list Z)
          (sto : gmap Z Z),
     EVM.code e !! pc = Some op ->
     EVM.step e {| EVM.pc := pc; EVM.stack := a :: b :: st;
                   EVM.memory := mem; EVM.storage := sto |}
     = EVM.Running {| EVM.pc := S pc; EVM.stack := f a b :: st;
                      EVM.memory := mem; EVM.storage := sto |}) ->
  forall a b st mem sto,
    runs [op] 1 (a :: b :: st, mem, sto) (f a b :: st, mem, sto).
Proof.
  intros H a b st mem sto. apply runs_one. intros e pc Hop.
  apply H. exact Hop.
Qed.

Lemma runs_add (a b : Z) (st mem : list Z) (sto : gmap Z Z) :
  runs [EVMOpcode.ADD] 1 (a :: b :: st, mem, sto)
       ((a + b) mod EVM.modulus :: st, mem, sto).
Proof.
  apply (runs_binop EVMOpcode.ADD (fun a b => (a + b) mod EVM.modulus)).
  intros e pc a' b' st' mem' sto' Hop. unfold EVM.step.
  cbn [EVM.pc EVM.stack]. rewrite Hop. reflexivity.
Qed.

Lemma runs_sub (a b : Z) (st mem : list Z) (sto : gmap Z Z) :
  runs [EVMOpcode.SUB] 1 (a :: b :: st, mem, sto)
       ((a - b) mod EVM.modulus :: st, mem, sto).
Proof.
  apply (runs_binop EVMOpcode.SUB (fun a b => (a - b) mod EVM.modulus)).
  intros e pc a' b' st' mem' sto' Hop. unfold EVM.step.
  cbn [EVM.pc EVM.stack]. rewrite Hop. reflexivity.
Qed.

Lemma runs_mul (a b : Z) (st mem : list Z) (sto : gmap Z Z) :
  runs [EVMOpcode.MUL] 1 (a :: b :: st, mem, sto)
       ((a * b) mod EVM.modulus :: st, mem, sto).
Proof.
  apply (runs_binop EVMOpcode.MUL (fun a b => (a * b) mod EVM.modulus)).
  intros e pc a' b' st' mem' sto' Hop. unfold EVM.step.
  cbn [EVM.pc EVM.stack]. rewrite Hop. reflexivity.
Qed.

Lemma runs_div (a b : Z) (st mem : list Z) (sto : gmap Z Z) :
  runs [EVMOpcode.DIV] 1 (a :: b :: st, mem, sto)
       ((if b =? 0 then 0 else a / b) :: st, mem, sto).
Proof.
  apply (runs_binop EVMOpcode.DIV (fun a b => if b =? 0 then 0 else a / b)).
  intros e pc a' b' st' mem' sto' Hop. unfold EVM.step.
  cbn [EVM.pc EVM.stack]. rewrite Hop. reflexivity.
Qed.

Lemma runs_mod (a b : Z) (st mem : list Z) (sto : gmap Z Z) :
  runs [EVMOpcode.MOD] 1 (a :: b :: st, mem, sto)
       ((if b =? 0 then 0 else a mod b) :: st, mem, sto).
Proof.
  apply (runs_binop EVMOpcode.MOD
           (fun a b => if b =? 0 then 0 else a mod b)).
  intros e pc a' b' st' mem' sto' Hop. unfold EVM.step.
  cbn [EVM.pc EVM.stack]. rewrite Hop. reflexivity.
Qed.

Lemma runs_eq (a b : Z) (st mem : list Z) (sto : gmap Z Z) :
  runs [EVMOpcode.EQ] 1 (a :: b :: st, mem, sto)
       (EVM.bool_word (a =? b) :: st, mem, sto).
Proof.
  apply (runs_binop EVMOpcode.EQ (fun a b => EVM.bool_word (a =? b))).
  intros e pc a' b' st' mem' sto' Hop. unfold EVM.step.
  cbn [EVM.pc EVM.stack]. rewrite Hop. reflexivity.
Qed.

(** Composition of the pieces that push a word. *)
Lemma pushes_ext (g g' : generator) (w w' : gmap Z Z -> Z) :
  (forall sto, w sto = w' sto) -> pushes cd g g' w -> pushes cd g g' w'.
Proof.
  intros Hw (bs & steps & Happ & Hrun). exists bs, steps.
  split; [exact Happ|]. intros stk mem sto. rewrite <- Hw. apply Hrun.
Qed.

Lemma pushes_push_int (v : Z) (g g' : generator) :
  push_int v g = Ok g' -> pushes cd g g' (fun _ => v mod EVM.modulus).
Proof.
  intros H. pose proof (push_int_nonneg _ _ _ H) as Hv.
  destruct (runs_push_int _ _ _ Hv H) as (bs & Happ & Hrun).
  exists bs, 1%nat. split; [exact Happ|]. intros stk mem sto.
  exists mem. apply runs_runs_in, Hrun.
Qed.

Lemma pushes_then (g g1 g2 : generator) (w : gmap Z Z -> Z)
    (tail : list Z) (n : nat) (f : gmap Z Z -> Z -> Z) :
  pushes cd g g1 w -> appended g1 g2 tail ->
  (forall a stk mem sto, exists mem',
     runs_in cd tail n (a :: stk, mem, sto) (f sto a :: stk, mem', sto)) ->
  pushes cd g g2 (fun sto => f sto (w sto)).
Proof.
  intros (bs & steps & Happ & Hrun) Htail Hf.
  exists (bs ++ tail), (steps + n)%nat.
  split; [eapply appended_trans; eassumption|].
  intros stk mem sto. destruct (Hrun stk mem sto) as (mem1 & H1).
  destruct (Hf (w sto) stk mem1 sto) as (mem2 & H2).
  exists mem2. eapply runs_in_app; eassumption.
Qed.

Lemma pushes_then2 (g g1 g2 g3 : generator) (wx wy : gmap Z Z -> Z)
    (tail : list Z) (n : nat) (f : Z -> Z -> Z) :
  pushes cd g g1 wx -> pushes cd g1 g2 wy -> appended g2 g3 tail ->
  (forall a b stk mem sto,
     runs tail n (a :: b :: stk, mem, sto) (f a b :: stk, mem, sto)) ->
  pushes cd g g3 (fun sto => f (wy sto) (wx sto)).
Proof.
  intros (bs1 & n1 & Happ1 & Hrun1) (bs2 & n2 & Happ2 & Hrun2) Htail Hf.
  exists (bs1 ++ bs2 ++ tail), (n1 + (n2 + n))%nat.
  split.
  { eapply appended_trans; [exact Happ1|].
    eapply appended_trans; eassumption. }
  intros stk mem sto. destruct (Hrun1 stk mem sto) as (mem1 & H1).
  destruct (Hrun2 (wx sto :: stk) mem1 sto) as (mem2 & H2).
  exists mem2. eapply runs_in_app; [exact H1|].
  eapply runs_in_app; [exact H2|]. apply runs_runs_in, Hf.
Qed.

(** The slot computation after the key, for any base slot the push
    accepts. *)
Lemma mapping_slot_code_pushes
    (compile_key : generator -> result generator) (p : Z)
    (g g1 g2 : generator) (wk : gmap Z Z -> Z) :
  compile_key g = Ok g1 -> pushes cd g g1 wk ->
  mapping_slot_code compile_key p g = Ok g2 ->
  pushes cd g g2 (fun sto => mapping_slot_word (wk sto) p).
Proof.
  intros Hkey Hwk H. unfold mapping_slot_code in H. rewrite Hkey in H.
  cbn [mbind result_bind] in H.
  apply bind_Ok in H as (ga & Ea & H). apply bind_Ok in H as (gb & Eb & H).
  apply bind_Ok in H as (gc & Ec & H). apply bind_Ok in H as (gd & Ed & H).
  apply bind_Ok in H as (ge & Ee & H). injection H as <-.
  pose proof (push_int_nonneg _ _ _ Eb) as Hp.
  destruct (runs_push_int 0 _ _ ltac:(lia) Ea) as (bsa & Ha & Ra).
  destruct (runs_push_int _ _ _ Hp Eb) as (bsb & Hb & Rb).
  destruct (runs_push_int 32 _ _ ltac:(lia) Ec) as (bsc & Hc & Rc).
  destruct (runs_push_int 64 _ _ ltac:(lia) Ed) as (bsd & Hd & Rd).
  destruct (runs_push_int 0 _ _ ltac:(lia) Ee) as (bse & He & Re).
  change (0 mod 2 ^ 256) with 0 in Ra, Re.
  change (32 mod 2 ^ 256) with 32 in Rc.
  change (64 mod 2 ^ 256) with 64 in Rd.
  apply (pushes_then g g1 _ wk
           (bsa ++ [EVMOpcode.MSTORE] ++ bsb ++ bsc ++ [EVMOpcode.MSTORE] ++
            bsd ++ bse ++ [EVMOpcode.SHA3]) 8
           (fun _ k => mapping_slot_word k p) Hwk).
  - eapply appended_trans; [exact Ha|].
    eapply appended_trans; [apply emit_appended|].
    eapply appended_trans; [exact Hb|].
    eapply appended_trans; [exact Hc|].
    eapply appended_trans; [apply emit_appended|].
    eapply appended_trans; [exact Hd|].
    eapply appended_trans; [exact He|apply emit_appended].
  - intros k stk mem sto.
    set (mem1 := EVM.write_bytes 0 (be_bytes 32 k) mem).
    set (mem2 := EVM.write_bytes 32 (be_bytes 32 (p mod 2 ^ 256)) mem1).
    exists mem2. apply runs_runs_in.
    assert (Hslot : mapping_slot_word k p
                    = from_bytes (keccak256 (EVM.read_bytes 0 64 mem2))).
    { unfold mem2, mem1. rewrite read_after_two_writes
        by apply length_be_bytes.
      change (2 ^ 256) with (256 ^ Z.of_nat 32). rewrite be_bytes_mod.
      reflexivity. }
    rewrite Hslot.
    apply (runs_app _ _ 1 7 _ (0 :: k :: stk, mem, sto)); [apply Ra|].
    apply (runs_app _ _ 1 6 _ (stk, mem1, sto)); [apply (runs_mstore 0 k)|].
    apply (runs_app _ _ 1 5 _ (p mod 2 ^ 256 :: stk, mem1, sto));
      [apply Rb|].
    apply (runs_app _ _ 1 4 _ (32 :: p mod 2 ^ 256 :: stk, mem1, sto));
      [apply Rc|].
    apply (runs_app _ _ 1 3 _ (stk, mem2, sto));
      [apply (runs_mstore 32 (p mod 2 ^ 256))|].
    apply (runs_app _ _ 1 2 _ (64 :: stk, mem2, sto)); [apply Rd|].
    apply (runs_app _ _ 1 1 _ (0 :: 64 :: stk, mem2, sto)); [apply Re|].
    apply (runs_sha3 0 64).
Qed.

Lemma pushes_sload (g g1 : generator) (w : gmap Z Z -> Z) :
  pushes cd g g1 w ->
  pushes cd g (emit EVMOpcode.SLOAD g1) (fun sto => default 0 (sto !! w sto)).
Proof.
  intros Hw.
  apply (pushes_then g g1 _ w [EVMOpcode.SLOAD] 1
           (fun sto a => default 0 (sto !! a)) Hw (emit_appended _ _)).
  intros a stk mem sto. exists mem. apply runs_runs_in, runs_sload.
Qed.

(** Every supported expression compiles to straight-line code that pushes
    its value. *)
Lemma compile_expression_pushes (e : ast.expr) (arg_map : gmap string nat)
    (state : ContractState) :
  supported e = true ->
  forall g g',
    _compile_expression e arg_map state g = Ok g' ->
    pushes cd g g' (eval_expr e arg_map state cd).
Proof.
  induction e as
    [value|id|value attr IHv|value slice IHv IHs|lhs op rhs IHl IHr
    |lhs ops comparators IHl IHc|] using expr_nested_ind;
    intros Hsup g g' H; cbn [_compile_expression] in H;
    cbn [supported] in Hsup.
  - destruct value; apply pushes_push_int in H; exact H.
  - apply (pushes_ext g g' (fun sto => eval_expr (ast.Name id) arg_map state cd sto));
      [reflexivity|].
    cbn [eval_expr]. destruct (arg_map !! id) as [arg_index|].
    + apply bind_Ok in H as (g1 & E & H). injection H as <-.
      apply pushes_push_int in E.
      apply (pushes_then g g1 _ _ [EVMOpcode.CALLDATALOAD] 1
               (fun _ a => from_bytes (EVM.read_bytes (Z.to_nat a) 32 cd))
               E (emit_appended _ _)).
      intros a stk mem sto. exists mem. apply runs_in_calldataload.
    + apply pushes_push_int in H. exact H.
  - apply (pushes_ext g g'
             (fun sto => eval_expr (ast.Attribute value attr) arg_map state
                           cd sto)); [reflexivity|].
    cbn [eval_expr].
    destruct (is_self value); [destruct (dict_get attr (variables state))|].
    + apply bind_Ok in H as (g1 & E & H). injection H as <-.
      apply pushes_push_int in E. apply (pushes_sload _ _ _ E).
    + apply pushes_push_int in H. exact H.
    + apply pushes_push_int in H. exact H.
  - apply (pushes_ext g g'
             (fun sto => eval_expr (ast.Subscript value slice) arg_map state
                           cd sto)); [reflexivity|].
    cbn [eval_expr].
    destruct (self_attribute value) as [mapping_name|];
      [destruct (dict_get mapping_name (variables state)) as [base_slot|]|].
    + apply bind_Ok in H as (g1 & E & H). injection H as <-.
      assert (Hk : exists gk,
                 _compile_expression slice arg_map state g = Ok gk).
      { unfold mapping_slot_code in E.
        destruct (_compile_expression slice arg_map state g) as [gk|];
          [eauto|discriminate]. }
      destruct Hk as (gk & Hk).
      pose proof (mapping_slot_code_pushes _ _ _ _ _ _ Hk
                    (IHs Hsup _ _ Hk) E) as Hslot.
      apply (pushes_sload _ _ _ Hslot).
    + apply pushes_push_int in H. exact H.
    + apply pushes_push_int in H. exact H.
  - apply andb_prop in Hsup as [Hsup Hop].
    apply andb_prop in Hsup as [Hsl Hsr].
    apply bind_Ok in H as (g1 & E1 & H). apply bind_Ok in H as (g2 & E2 & H).
    pose proof (IHl Hsl _ _ E1) as P1. pose proof (IHr Hsr _ _ E2) as P2.
    destruct op; try discriminate Hop; injection H as <-.
    + apply (pushes_then2 g g1 g2 _ _ _ [EVMOpcode.ADD] 1
               (fun a b => (a + b) mod EVM.modulus) P1 P2
               (emit_appended _ _)). intros; apply runs_add.
    + apply (pushes_then2 g g1 g2 _ _ _ [EVMOpcode.SUB] 1
               (fun a b => (a - b) mod EVM.modulus) P1 P2
               (emit_appended _ _)). intros; apply runs_sub.
    + apply (pushes_then2 g g1 g2 _ _ _ [EVMOpcode.MUL] 1
               (fun a b => (a * b) mod EVM.modulus) P1 P2
               (emit_appended _ _)). intros; apply runs_mul.
    + apply (pushes_then2 g g1 g2 _ _ _ [EVMOpcode.DIV] 1
               (fun a b => if b =? 0 then 0 else a / b) P1 P2
               (emit_appended _ _)). intros; apply runs_div.
    + apply (pushes_then2 g g1 g2 _ _ _ [EVMOpcode.MOD] 1
               (fun a b => if b =? 0 then 0 else a mod b) P1 P2
               (emit_appended _ _)). intros; apply runs_mod.
  - apply andb_prop in Hsup as [Hsl Hsc].
    apply bind_Ok in H as (g1 & E1 & H).
    pose proof (IHl Hsl _ _ E1) as P1.
    destruct comparators as [|comparator rest].
    + injection H as <-. exact P1.
    + apply andb_prop in Hsc as [Hsc Hops].
      apply bind_Ok in H as (g2 & E2 & H).
      apply Forall_cons in IHc as [IHc _].
      pose proof (IHc Hsc _ _ E2) as P2.
      destruct ops as [|[| | | | |] ops]; try discriminate Hops;
        injection H as <-.
      * apply (pushes_then2 g g1 g2 _ _ _ [EVMOpcode.EQ] 1
                 (fun a b => EVM.bool_word (a =? b)) P1 P2
                 (emit_appended _ _)). intros; apply runs_eq.
      * apply (pushes_then2 g g1 g2 _ _ _
                 ([EVMOpcode.SWAP1] ++ [EVMOpcode.LT]) (1 + 1)
                 (fun a b => EVM.bool_word (b <? a)) P1 P2).
        -- eapply appended_trans; apply emit_appended.
        -- intros a b stk mem sto.
           eapply runs_app; [apply runs_swap1|apply runs_lt].
      * apply (pushes_then2 g g1 g2 _ _ _
                 ([EVMOpcode.SWAP1] ++ [EVMOpcode.GT]) (1 + 1)
                 (fun a b => EVM.bool_word (a <? b)) P1 P2).
        -- eapply appended_trans; apply emit_appended.
        -- intros a b stk mem sto.
           eapply runs_app; [apply runs_swap1|apply runs_gt].
      * apply (pushes_then2 g g1 g2 _ _ _
                 ([EVMOpcode.SWAP1] ++ [EVMOpcode.GT] ++ [EVMOpcode.ISZERO])
                 (1 + (1 + 1))
                 (fun a b => EVM.bool_word (EVM.bool_word (a <? b) =? 0))
                 P1 P2).
        -- apply emit3_appended.
        -- intros a b stk mem sto.
           eapply runs_app; [apply runs_swap1|].
           eapply runs_app; [apply runs_gt|apply runs_iszero].
      * apply (pushes_then2 g g1 g2 _ _ _
                 ([EVMOpcode.SWAP1] ++ [EVMOpcode.LT] ++ [EVMOpcode.ISZERO])
                 (1 + (1 + 1))
                 (fun a b => EVM.bool_word (EVM.bool_word (b <? a) =? 0))
                 P1 P2).
        -- apply emit3_appended.
        -- intros a b stk mem sto.
           eapply runs_app; [apply runs_swap1|].
           eapply runs_app; [apply runs_lt|apply runs_iszero].
  - apply pushes_push_int in H. exact H.
Qed.

End ExprExecution.

(** X8. Every expression built with the operators the compiler has an
    opcode for compiles, when it compiles, to straight-line code that
    pushes exactly one word, the value [eval_expr] gives the expression
    from the calldata and the storage, and leaves the stack below it and
    the storage untouched. *)
Theorem compile_expression_correct (e : ast.expr)
    (arg_map : gmap string nat) (state : ContractState) (cd : list Z)
    (g g' : generator) :
  supported e = true ->
  _compile_expression e arg_map state g = Ok g' ->
  exists bs steps,
    appended g g' bs /\
    forall stk mem sto, exists mem',
      runs_in cd bs steps (stk, mem, sto)
        (eval_expr e arg_map state cd sto :: stk, mem', sto).
Proof. intros Hs H. exact (compile_expression_pushes cd e _ _ Hs _ _ H). Qed.

Lemma compile_expression_correct_witness :
  let e := ast.BinOp (self_attr "count") ast.Add
             (ast.Constant (ast.CInt 1)) in
  let g := set_mode "runtime" new_generator in
  exists g' bs steps,
    _compile_expression e ∅ test_contract g = Ok g' /\
    appended g g' bs /\
    forall stk mem sto, exists mem',
      runs_in [] bs steps (stk, mem, sto)
        (eval_expr e ∅ test_contract [] sto :: stk, mem', sto).
Proof.
  intros e g.
  destruct (_compile_expression e ∅ test_contract g) as [g'|] eqn:E;
    [|discriminate E].
  exists g'.
  destruct (compile_expression_correct e ∅ test_contract [] g g' eq_refl E)
    as (bs & steps & H).
  exists bs, steps. split; [reflexivity|exact H].
Defined.

(** X9. Arithmetic operands reach the opcode in the order they were
    pushed, the right operand on top: with [x] the value of [a] and [y]
    the value of [b], the code of [a + b] and [a * b] computes the sum and
    the product modulo [2^256], but the code of [a - b] computes
    [(y - x) mod 2^256], that of [a / b] computes [y / x] (0 when [x] is
    0) and that of [a % b] computes [y mod x] (0 when [x] is 0). *)
Theorem binop_operand_order (a b : ast.expr) (arg_map : gmap string nat)
    (state : ContractState) (g g1 g2 : generator) :
  _compile_expression a arg_map state g = Ok g1 ->
  _compile_expression b arg_map state g1 = Ok g2 ->
  (_compile_expression (ast.BinOp a ast.Add b) arg_map state g
   = Ok (emit EVMOpcode.ADD g2) /\
   _compile_expression (ast.BinOp a ast.Mult b) arg_map state g
   = Ok (emit EVMOpcode.MUL g2) /\
   _compile_expression (ast.BinOp a ast.Sub b) arg_map state g
   = Ok (emit EVMOpcode.SUB g2) /\
   _compile_expression (ast.BinOp a ast.Div b) arg_map state g
   = Ok (emit EVMOpcode.DIV g2) /\
   _compile_expression (ast.BinOp a ast.Mod b) arg_map state g
   = Ok (emit EVMOpcode.MOD g2)) /\
  (forall (x y : Z) (stk mem : list Z) (sto : gmap Z Z),
     runs [EVMOpcode.ADD] 1 (y :: x :: stk, mem, sto)
          ((x + y) mod 2 ^ 256 :: stk, mem, sto) /\
     runs [EVMOpcode.MUL] 1 (y :: x :: stk, mem, sto)
          ((x * y) mod 2 ^ 256 :: stk, mem, sto) /\
     runs [EVMOpcode.SUB] 1 (y :: x :: stk, mem, sto)
          ((y - x) mod 2 ^ 256 :: stk, mem, sto) /\
     runs [EVMOpcode.DIV] 1 (y :: x :: stk, mem, sto)
          ((if x =? 0 then 0 else y / x) :: stk, mem, sto) /\
     runs [EVMOpcode.MOD] 1 (y :: x :: stk, mem, sto)
          ((if x =? 0 then 0 else y mod x) :: stk, mem, sto)).
Proof.
  intros Ha Hb. split.
  - cbn [_compile_expression]. rewrite Ha. cbn [mbind result_bind].
    rewrite Hb. cbn [mbind result_bind]. auto.
  - intros x y stk mem sto.
    split; [rewrite Z.add_comm; apply runs_add|].
    split; [rewrite Z.mul_comm; apply runs_mul|].
    split; [apply runs_sub|]. split; [apply runs_div|apply runs_mod].
Qed.

Lemma binop_operand_order_witness :
  let a := ast.Constant (ast.CInt 5) in
  let b := ast.Constant (ast.CInt 3) in
  let g := set_mode "runtime" new_generator in
  let g2 := {| init_code := []; runtime_code := [0x60; 5; 0x60; 3];
               current_mode := "runtime"; gas_used := 6 |} in
  (_compile_expression (ast.BinOp a ast.Add b) ∅ empty_contract g
   = Ok (emit EVMOpcode.ADD g2) /\
   _compile_expression (ast.BinOp a ast.Mult b) ∅ empty_contract g
   = Ok (emit EVMOpcode.MUL g2) /\
   _compile_expression (ast.BinOp a ast.Sub b) ∅ empty_contract g
   = Ok (emit EVMOpcode.SUB g2) /\
   _compile_expression (ast.BinOp a ast.Div b) ∅ empty_contract g
   = Ok (emit EVMOpcode.DIV g2) /\
   _compile_expression (ast.BinOp a ast.Mod b) ∅ empty_contract g
   = Ok (emit EVMOpcode.MOD g2)) /\
  (forall (x y : Z) (stk mem : list Z) (sto : gmap Z Z),
     runs [EVMOpcode.ADD] 1 (y :: x :: stk, mem, sto)
          ((x + y) mod 2 ^ 256 :: stk, mem, sto) /\
     runs [EVMOpcode.MUL] 1 (y :: x :: stk, mem, sto)
          ((x * y) mod 2 ^ 256 :: stk, mem, sto) /\
     runs [EVMOpcode.SUB] 1 (y :: x :: stk, mem, sto)
          ((y - x) mod 2 ^ 256 :: stk, mem, sto) /\
     runs [EVMOpcode.DIV] 1 (y :: x :: stk, mem, sto)
          ((if x =? 0 then 0 else y / x) :: stk, mem, sto) /\
     runs [EVMOpcode.MOD] 1 (y :: x :: stk, mem, sto)
          ((if x =? 0 then 0 else y mod x) :: stk, mem, sto)).
Proof.
  intros a b g g2.
  apply (binop_operand_order a b ∅ empty_contract g
           {| init_code := []; runtime_code := [0x60; 5];
              current_mode := "runtime"; gas_used := 3 |} g2);
    reflexivity.
Defined.

(** The code of [5 - 3], run: the result is [3 - 5] modulo [2^256]. *)
Example five_minus_three :
  exists g,
    _compile_expression
      (ast.BinOp (ast.Constant (ast.CInt 5)) ast.Sub
         (ast.Constant (ast.CInt 3)))
      ∅ empty_contract (set_mode "runtime" new_generator) = Ok g /\
    runtime_code g = [0x60; 5; 0x60; 3; 0x03] /\
    EVM.call 3 (runtime_code g) [] ∅
    = EVM.Running {| EVM.pc := 5; EVM.stack := [2 ^ 256 - 2];
                     EVM.memory := []; EVM.storage := ∅ |}.
Proof.
  eexists. split; [reflexivity|]. split; [reflexivity|].
  vm_compute. reflexivity.
Qed.

(** X10. The comparisons [==], [<] and [>] are compiled to EQ, to SWAP1
    LT and to SWAP1 GT after the two operands; with [x] the value of the
    left operand and [y] that of the right one the result is 1 when
    [x = y], [x < y], [x > y] respectively, and 0 otherwise. *)
Theorem compare_strict_source_order (a b : ast.expr)
    (arg_map : gmap string nat) (state : ContractState)
    (g g1 g2 : generator) :
  _compile_expression a arg_map state g = Ok g1 ->
  _compile_expression b arg_map state g1 = Ok g2 ->
  (exists g3,
     _compile_expression (ast.Compare a [ast.Eq] [b]) arg_map state g
     = Ok g3 /\ appended g2 g3 [EVMOpcode.EQ]) /\
  (exists g3,
     _compile_expression (ast.Compare a [ast.Lt] [b]) arg_map state g
     = Ok g3 /\ appended g2 g3 [EVMOpcode.SWAP1; EVMOpcode.LT]) /\
  (exists g3,
     _compile_expression (ast.Compare a [ast.Gt] [b]) arg_map state g
     = Ok g3 /\ appended g2 g3 [EVMOpcode.SWAP1; EVMOpcode.GT]) /\
  (forall (x y : Z) (stk mem : list Z) (sto : gmap Z Z),
     runs [EVMOpcode.EQ] 1 (y :: x :: stk, mem, sto)
          ((if x =? y then 1 else 0) :: stk, mem, sto) /\
     runs [EVMOpcode.SWAP1; EVMOpcode.LT] 2 (y :: x :: stk, mem, sto)
          ((if x <? y then 1 else 0) :: stk, mem, sto) /\
     runs [EVMOpcode.SWAP1; EVMOpcode.GT] 2 (y :: x :: stk, mem, sto)
          ((if x >? y then 1 else 0) :: stk, mem, sto)).
Proof.
  intros Ha Hb.
  split; [|split; [|split]].
  - cbn [_compile_expression]. rewrite Ha. cbn [mbind result_bind].
    rewrite Hb. cbn [mbind result_bind]. eexists. split; [reflexivity|].
    apply emit_appended.
  - cbn [_compile_expression]. rewrite Ha. cbn [mbind result_bind].
    rewrite Hb. cbn [mbind result_bind]. eexists. split; [reflexivity|].
    change [EVMOpcode.SWAP1; EVMOpcode.LT]
      with ([EVMOpcode.SWAP1] ++ [EVMOpcode.LT]).
    eapply appended_trans; apply emit_appended.
  - cbn [_compile_expression]. rewrite Ha. cbn [mbind result_bind].
    rewrite Hb. cbn [mbind result_bind]. eexists. split; [reflexivity|].
    change [EVMOpcode.SWAP1; EVMOpcode.GT]
      with ([EVMOpcode.SWAP1] ++ [EVMOpcode.GT]).
    eapply appended_trans; apply emit_appended.
  - intros x y stk mem sto. split; [|split].
    + rewrite Z.eqb_sym. apply (runs_eq y x).
    + apply (runs_app [EVMOpcode.SWAP1] [EVMOpcode.LT] 1 1 _
               (x :: y :: stk, mem, sto)); [apply runs_swap1|].
      apply (runs_lt x y).
    + rewrite Z.gtb_ltb.
      apply (runs_app [EVMOpcode.SWAP1] [EVMOpcode.GT] 1 1 _
               (x :: y :: stk, mem, sto)); [apply runs_swap1|].
      apply (runs_gt x y).
Qed.

Lemma compare_strict_source_order_witness :
  let a := ast.Constant (ast.CInt 3) in
  let b := ast.Constant (ast.CInt 5) in
  let g := set_mode "runtime" new_generator in
  let g2 := {| init_code := []; runtime_code := [0x60; 3; 0x60; 5];
               current_mode := "runtime"; gas_used := 6 |} in
  (exists g3,
     _compile_expression (ast.Compare a [ast.Eq] [b]) ∅ empty_contract g
     = Ok g3 /\ appended g2 g3 [EVMOpcode.EQ]) /\
  (exists g3,
     _compile_expression (ast.Compare a [ast.Lt] [b]) ∅ empty_contract g
     = Ok g3 /\ appended g2 g3 [EVMOpcode.SWAP1; EVMOpcode.LT]) /\
  (exists g3,
     _compile_expression (ast.Compare a [ast.Gt] [b]) ∅ empty_contract g
     = Ok g3 /\ appended g2 g3 [EVMOpcode.SWAP1; EVMOpcode.GT]) /\
  (forall (x y : Z) (stk mem : list Z) (sto : gmap Z Z),
     runs [EVMOpcode.EQ] 1 (y :: x :: stk, mem, sto)
          ((if x =? y then 1 else 0) :: stk, mem, sto) /\
     runs [EVMOpcode.SWAP1; EVMOpcode.LT] 2 (y :: x :: stk, mem, sto)
          ((if x <? y then 1 else 0) :: stk, mem, sto) /\
     runs [EVMOpcode.SWAP1; EVMOpcode.GT] 2 (y :: x :: stk, mem, sto)
          ((if x >? y then 1 else 0) :: stk, mem, sto)).
Proof.
  intros a b g g2.
  apply (compare_strict_source_order a b ∅ empty_contract g
           {| init_code := []; runtime_code := [0x60; 3];
              current_mode := "runtime"; gas_used := 3 |} g2);
    reflexivity.
Defined.

(** ** Execution of compiled statements *)

Section StmtExecution.

Variable cd : list Z.

Lemma returns_in_return (a b : Z) (st mem : list Z) (sto : gmap Z Z) :
  returns_in cd [EVMOpcode.RETURN] 1 (a :: b :: st, mem, sto)
    (EVM.read_bytes (Z.to_nat a) (Z.to_nat b) mem) sto.
Proof.
  intros pre post. eexists. cbn [EVM.run fst snd].
  rewrite step_return by (cbn [EVM.code app]; apply lookup_middle).
  split; reflexivity.
Qed.

Lemma runs_in_returns_in (f1 f2 : list Z) (n1 n2 : nat)
    (s1 s2 : list Z * list Z * gmap Z Z) (data : list Z)
    (sto' : gmap Z Z) :
  runs_in cd f1 n1 s1 s2 -> returns_in cd f2 n2 s2 data sto' ->
  returns_in cd (f1 ++ f2) (n1 + n2) s1 data sto'.
Proof.
  intros H1 H2 pre post.
  rewrite <- (app_assoc f1 f2 post).
  rewrite (run_add n1 n2 _ _ _ (H1 pre (f2 ++ post))).
  destruct (H2 (pre ++ f1) post) as (m & Hm & Hs).
  rewrite <- app_assoc in Hm. rewrite length_app in Hm.
  exists m. split; [exact Hm|exact Hs].
Qed.

(** Code after a RETURN is never reached. *)
Lemma returns_in_app (f1 f2 : list Z) (n : nat)
    (s : list Z * list Z * gmap Z Z) (data : list Z) (sto' : gmap Z Z) :
  returns_in cd f1 n s data sto' -> returns_in cd (f1 ++ f2) n s data sto'.
Proof.
  intros H pre post. rewrite <- (app_assoc f1 f2 post). apply H.
Qed.

Lemma runs_in_nil (s : list Z * list Z * gmap Z Z) : runs_in cd [] 0 s s.
Proof.
  intros pre post. cbn [EVM.run length]. rewrite Nat.add_0_r. reflexivity.
Qed.

Lemma read_after_write (bs mem : list Z) :
  length bs = 32%nat ->
  EVM.read_bytes 0 32 (EVM.write_bytes 0 bs mem) = bs.
Proof.
  intros Hl. unfold EVM.write_bytes. rewrite take_0. cbn [app].
  unfold EVM.read_bytes. rewrite drop_0. rewrite <- app_assoc.
  apply take_app_length'. symmetry. exact Hl.
Qed.

Lemma updates_refl (g : generator) : updates cd g g (fun sto => sto).
Proof.
  exists [], 0%nat. split; [apply appended_refl|].
  intros stk mem sto. exists mem. apply runs_in_nil.
Qed.

Lemma updates_trans (g g1 g2 : generator) (f1 f2 : gmap Z Z -> gmap Z Z) :
  updates cd g g1 f1 -> updates cd g1 g2 f2 ->
  updates cd g g2 (fun sto => f2 (f1 sto)).
Proof.
  intros (bs1 & n1 & Ha1 & H1) (bs2 & n2 & Ha2 & H2).
  exists (bs1 ++ bs2), (n1 + n2)%nat.
  split; [eapply appended_trans; eassumption|].
  intros stk mem sto.
  destruct (H1 stk mem sto) as [mem1 R1].
  destruct (H2 stk mem1 (f1 sto)) as [mem2 R2].
  exists mem2. eapply runs_in_app; eassumption.
Qed.

(** A value, then a slot, then SSTORE. *)
Lemma updates_store (g g1 g2 : generator) (wv wk : gmap Z Z -> Z) :
  pushes cd g g1 wv -> pushes cd g1 g2 wk ->
  updates cd g (emit EVMOpcode.SSTORE g2)
    (fun sto => <[wk sto := wv sto]> sto).
Proof.
  intros (bs1 & n1 & Ha1 & H1) (bs2 & n2 & Ha2 & H2).
  exists (bs1 ++ bs2 ++ [EVMOpcode.SSTORE]), (n1 + (n2 + 1))%nat.
  split.
  { eapply appended_trans; [exact Ha1|].
    eapply appended_trans; [exact Ha2|apply emit_appended]. }
  intros stk mem sto.
  destruct (H1 stk mem sto) as [mem1 R1].
  destruct (H2 (wv sto :: stk) mem1 sto) as [mem2 R2].
  exists mem2.
  eapply runs_in_app; [exact R1|].
  eapply runs_in_app; [exact R2|].
  apply runs_runs_in, runs_sstore.
Qed.

Lemma updates_returns (g g1 g2 : generator) (f : gmap Z Z -> gmap Z Z)
    (data : gmap Z Z -> list Z) (f2 : gmap Z Z -> gmap Z Z) :
  updates cd g g1 f -> returns cd g1 g2 data f2 ->
  returns cd g g2 (fun sto => data (f sto)) (fun sto => f2 (f sto)).
Proof.
  intros (bs1 & n1 & Ha1 & H1) (bs2 & n2 & Ha2 & H2).
  exists (bs1 ++ bs2), (n1 + n2)%nat.
  split; [eapply appended_trans; eassumption|].
  intros stk mem sto.
  destruct (H1 stk mem sto) as [mem1 R1].
  eapply runs_in_returns_in; [exact R1|apply H2].
Qed.

Lemma returns_appended (g g1 g2 : generator) (bs : list Z)
    (data : gmap Z Z -> list Z) (f : gmap Z Z -> gmap Z Z) :
  returns cd g g1 data f -> appended g1 g2 bs -> returns cd g g2 data f.
Proof.
  intros (bs1 & n1 & Ha1 & H1) Ha2.
  exists (bs1 ++ bs), n1. split; [eapply appended_trans; eassumption|].
  intros stk mem sto. apply returns_in_app, H1.
Qed.

(** [generate_abi_encoded_return]: the word on top of the stack is
    returned as 32 bytes. *)
Lemma generate_abi_encoded_return_returns (g g' : generator) :
  generate_abi_encoded_return g = Ok g' ->
  exists bs steps,
    appended g g' bs /\
    forall v stk mem sto,
      returns_in cd bs steps (v :: stk, mem, sto) (be_bytes 32 v) sto.
Proof.
  intros H. unfold generate_abi_encoded_return in H.
  destruct (push_int_appended 0 g (small_word 0 ltac:(lia)))
    as (ga & Ea & Ha). rewrite Ea in H. cbn [mbind result_bind] in H.
  destruct (push_int_appended 32 (emit EVMOpcode.MSTORE ga)
              (small_word 32 ltac:(lia)))
    as (gb & Eb & Hb). rewrite Eb in H. cbn [mbind result_bind] in H.
  destruct (push_int_appended 0 gb (small_word 0 ltac:(lia)))
    as (gc & Ec & Hc). rewrite Ec in H. cbn [mbind result_bind] in H.
  injection H as <-.
  exists (push_code 0 ++ [EVMOpcode.MSTORE] ++ push_code 32 ++ push_code 0
          ++ [EVMOpcode.RETURN]), (1 + (1 + (1 + (1 + 1))))%nat.
  split.
  { eapply appended_trans; [exact Ha|].
    eapply appended_trans; [apply emit_appended|].
    eapply appended_trans; [exact Hb|].
    eapply appended_trans; [exact Hc|apply emit_appended]. }
  intros v stk mem sto.
  eapply runs_in_returns_in;
    [apply runs_runs_in, (runs_push_code 0), small_word; lia|].
  eapply runs_in_returns_in; [apply runs_runs_in, (runs_mstore 0 v)|].
  eapply runs_in_returns_in;
    [apply runs_runs_in, (runs_push_code 32), small_word; lia|].
  eapply runs_in_returns_in;
    [apply runs_runs_in, (runs_push_code 0), small_word; lia|].
  rewrite <- (read_after_write (be_bytes 32 v) mem) at 2
    by apply length_be_bytes.
  apply (returns_in_return 0 32).
Qed.

(** PUSH 0, PUSH 0, RETURN: the empty return. *)
Lemma empty_return_returns (g g' : generator) :
  (g1 ← push_int 0 g; g2 ← push_int 0 g1; Ok (emit EVMOpcode.RETURN g2))
  = Ok g' ->
  returns cd g g' (fun _ => []) (fun sto => sto).
Proof.
  intros H.
  destruct (push_int_appended 0 g (small_word 0 ltac:(lia)))
    as (ga & Ea & Ha). rewrite Ea in H. cbn [mbind result_bind] in H.
  destruct (push_int_appended 0 ga (small_word 0 ltac:(lia)))
    as (gb & Eb & Hb). rewrite Eb in H. cbn [mbind result_bind] in H.
  injection H as <-.
  exists (push_code 0 ++ push_code 0 ++ [EVMOpcode.RETURN]),
    (1 + (1 + 1))%nat.
  split.
  { eapply appended_trans; [exact Ha|].
    eapply appended_trans; [exact Hb|apply emit_appended]. }
  intros stk mem sto.
  eapply runs_in_returns_in;
    [apply runs_runs_in, (runs_push_code 0), small_word; lia|].
  eapply runs_in_returns_in;
    [apply runs_runs_in, (runs_push_code 0), small_word; lia|].
  apply (returns_in_return 0 0).
Qed.

Lemma pushes_returns (g g1 g2 : generator) (w : gmap Z Z -> Z) :
  pushes cd g g1 w -> generate_abi_encoded_return g1 = Ok g2 ->
  returns cd g g2 (fun sto => be_bytes 32 (w sto)) (fun sto => sto).
Proof.
  intros (bs1 & n1 & Ha1 & H1) H.
  apply generate_abi_encoded_return_returns in H
    as (bs2 & n2 & Ha2 & H2).
  exists (bs1 ++ bs2), (n1 + n2)%nat.
  split; [eapply appended_trans; eassumption|].
  intros stk mem sto.
  destruct (H1 stk mem sto) as [mem1 R1].
  eapply runs_in_returns_in; [exact R1|apply H2].
Qed.

Lemma updates_ext (g g' : generator) (f f' : gmap Z Z -> gmap Z Z) :
  (forall sto, f sto = f' sto) -> updates cd g g' f -> updates cd g g' f'.
Proof.
  intros Hf (bs & n & Ha & H). exists bs, n. split; [exact Ha|].
  intros stk mem sto. rewrite <- Hf. apply H.
Qed.

(** A statement without control flow updates the storage as [exec_stmt]
    says. *)
Lemma compile_statement_updates (s : ast.stmt) (arg_map : gmap string nat)
    (state : ContractState) (g g' : generator) :
  straight_line s = true ->
  _compile_statement s arg_map state g = Ok g' ->
  updates cd g g' (exec_stmt s arg_map state cd).
Proof.
  intros Hs H.
  destruct s as [value|targets value|test body orelse|value|];
    cbn [straight_line] in Hs; try discriminate Hs.
  - destruct targets as [|target [|t2 targets]].
    + cbn [_compile_statement] in H. injection H as <-. apply updates_refl.
    + destruct target as
        [c|id|tvalue var_name|tvalue slice|lhs op rhs|lhs ops cs|];
        cbn [_compile_statement] in H;
        try (injection H as <-; apply updates_refl).
      * destruct (is_self tvalue) eqn:Eself;
          [|injection H as <-;
            (eapply updates_ext; [|apply updates_refl]); intros sto;
            cbn [exec_stmt]; rewrite Eself; reflexivity].
        destruct (dict_get var_name (variables state)) as [slot|] eqn:Ed;
          [|injection H as <-;
            (eapply updates_ext; [|apply updates_refl]); intros sto;
            cbn [exec_stmt]; rewrite Eself, Ed; reflexivity].
        apply bind_Ok in H as (g1 & Hv & H).
        apply bind_Ok in H as (g2 & Hp & H). injection H as <-.
        apply (compile_expression_pushes cd _ _ _ Hs) in Hv.
        apply (pushes_push_int cd) in Hp.
        eapply updates_ext; [|apply (updates_store _ _ _ _ _ Hv Hp)].
        intros sto. cbn [exec_stmt]. rewrite Eself, Ed. reflexivity.
      * destruct (self_attribute tvalue) as [mapping_name|] eqn:Eself;
          [|injection H as <-;
            (eapply updates_ext; [|apply updates_refl]); intros sto;
            cbn [exec_stmt]; rewrite Eself; reflexivity].
        destruct (dict_get mapping_name (variables state))
          as [base_slot|] eqn:Ed;
          [|injection H as <-;
            (eapply updates_ext; [|apply updates_refl]); intros sto;
            cbn [exec_stmt]; rewrite Eself, Ed; reflexivity].
        apply andb_prop in Hs as [Hsv Hsk].
        apply bind_Ok in H as (g1 & Hv & H).
        apply bind_Ok in H as (g2 & Hk & H). injection H as <-.
        apply (compile_expression_pushes cd _ _ _ Hsv) in Hv.
        unfold _compile_mapping_slot in Hk.
        pose proof Hk as Hk'. unfold mapping_slot_code in Hk'.
        apply bind_Ok in Hk' as (gk & Hkey & _).
        pose proof (compile_expression_pushes cd _ _ _ Hsk _ _ Hkey) as Hpk.
        pose proof (mapping_slot_code_pushes cd _ _ _ _ _ _ Hkey Hpk Hk)
          as Hslot.
        eapply updates_ext; [|apply (updates_store _ _ _ _ _ Hv Hslot)].
        intros sto. cbn [exec_stmt]. rewrite Eself, Ed. reflexivity.
    + cbn [_compile_statement] in H.
      destruct target; injection H as <-; apply updates_refl.
  - cbn [_compile_statement] in H. injection H as <-. apply updates_refl.
  - cbn [_compile_statement] in H. injection H as <-. apply updates_refl.
Qed.

Lemma compile_statements_updates (ss : list ast.stmt)
    (arg_map : gmap string nat) (state : ContractState) :
  forallb straight_line ss = true ->
  forall g g',
    compile_statements ss arg_map state g = Ok g' ->
    updates cd g g' (exec_stmts ss arg_map state cd).
Proof.
  induction ss as [|s ss IH]; intros Hs g g' H.
  - cbn [compile_statements] in H. injection H as <-. apply updates_refl.
  - cbn [forallb] in Hs. apply andb_prop in Hs as [Hs1 Hs2].
    cbn [compile_statements] in H. apply bind_Ok in H as (g1 & H1 & H).
    apply (compile_statement_updates _ _ _ _ _ Hs1) in H1.
    apply (IH Hs2) in H.
    apply (updates_trans _ _ _ _ _ H1 H).
Qed.

Lemma compile_statements_app (ss1 ss2 : list ast.stmt)
    (arg_map : gmap string nat) (state : ContractState) (g : generator) :
  compile_statements (ss1 ++ ss2) arg_map state g
  = (g1 ← compile_statements ss1 arg_map state g;
     compile_statements ss2 arg_map state g1).
Proof.
  revert g. induction ss1 as [|s ss1 IH]; intros g.
  - reflexivity.
  - cbn [app compile_statements].
    destruct (_compile_statement s arg_map state g) as [g1|e];
      cbn [mbind result_bind]; [apply IH|reflexivity].
Qed.

End StmtExecution.

(** X11. An assignment [self.x = e] to a declared state variable
    compiles, when [e] does, to straight-line code that leaves the stack
    as it was and stores the value of [e] in the variable's slot.  An
    assignment to [self.x] for a name that is not a declared state
    variable, an assignment to a plain name (a local variable), and an
    assignment with several targets always compile, without any error, to
    no code at all: the value is not even evaluated. *)
Theorem assign_state_variable_stores (name : string) (value : ast.expr)
    (arg_map : gmap string nat) (state : ContractState) (cd : list Z)
    (g : generator) :
  (forall (slot : Z) (g' : generator),
     dict_get name (variables state) = Some slot ->
     supported value = true ->
     _compile_statement (ast.Assign [self_attr name] value) arg_map state g
     = Ok g' ->
     exists bs steps,
       appended g g' bs /\
       forall stk mem sto, exists mem',
         runs_in cd bs steps (stk, mem, sto)
           (stk, mem',
            <[slot mod 2 ^ 256 := eval_expr value arg_map state cd sto]>
              sto)) /\
  (dict_get name (variables state) = None ->
   _compile_statement (ast.Assign [self_attr name] value) arg_map state g
   = Ok g) /\
  _compile_statement (ast.Assign [ast.Name name] value) arg_map state g
  = Ok g /\
  (forall (t1 t2 : ast.expr) (ts : list ast.expr),
     _compile_statement (ast.Assign (t1 :: t2 :: ts) value) arg_map state g
     = Ok g).
Proof.
  split; [|split; [|split]].
  - intros slot g' Hd Hs H.
    pose proof (compile_statement_updates cd
                  (ast.Assign [self_attr name] value) arg_map state g g'
                  Hs H)
      as (bs & steps & Happ & Hrun).
    exists bs, steps. split; [exact Happ|].
    intros stk mem sto. destruct (Hrun stk mem sto) as [mem' R].
    exists mem'. cbn [exec_stmt self_attr is_self] in R.
    change (String.eqb "self" "self") with true in R. cbv iota in R.
    rewrite Hd in R. exact R.
  - intros Hd. cbn [_compile_statement self_attr is_self].
    change (String.eqb "self" "self") with true. cbv iota.
    rewrite Hd. reflexivity.
  - reflexivity.
  - intros t1 t2 ts. cbn [_compile_statement]. destruct t1; reflexivity.
Qed.

Lemma assign_state_variable_stores_witness :
  let value := ast.BinOp (self_attr "count") ast.Add
                 (ast.Constant (ast.CInt 1)) in
  let g := set_mode "runtime" new_generator in
  (exists g' bs steps,
     _compile_statement (ast.Assign [self_attr "count"] value) ∅
       test_contract g = Ok g' /\
     appended g g' bs /\
     forall stk mem sto, exists mem',
       runs_in [] bs steps (stk, mem, sto)
         (stk, mem',
          <[0 mod 2 ^ 256 := eval_expr value ∅ test_contract [] sto]> sto)) /\
  _compile_statement (ast.Assign [self_attr "total"] value) ∅
    test_contract g = Ok g.
Proof.
  intros value g. split.
  - assert (E : exists g',
               _compile_statement (ast.Assign [self_attr "count"] value) ∅
                 test_contract g = Ok g')
      by (eexists; vm_compute; reflexivity).
    destruct E as [g' E].
    destruct (proj1 (assign_state_variable_stores "count" value ∅
                       test_contract [] g)
                0 g' eq_refl eq_refl E) as (bs & steps & H).
    exists g', bs, steps. split; [exact E|exact H].
  - apply (proj1 (proj2 (assign_state_variable_stores "total" value ∅
                           test_contract [] g))).
    reflexivity.
Defined.

(** X12. An assignment [self.m[k] = e] to an entry of a declared mapping
    compiles to straight-line code that leaves the stack as it was and
    stores the value of [e] in the slot [keccak256(k_32 ++ p_32)], [p]
    being the base slot of the mapping; in the storage it leaves, a read
    [self.m[k']] whose key has the value [k] had gives back the value
    stored. *)
Theorem assign_mapping_entry_roundtrip (name : string) (base : Z)
    (key value : ast.expr) (arg_map : gmap string nat)
    (state : ContractState) (cd : list Z) (g g' : generator) :
  dict_get name (variables state) = Some base ->
  supported key = true -> supported value = true ->
  _compile_statement
    (ast.Assign [ast.Subscript (self_attr name) key] value)
    arg_map state g = Ok g' ->
  exists bs steps,
    appended g g' bs /\
    forall stk mem sto, exists mem' sto',
      runs_in cd bs steps (stk, mem, sto) (stk, mem', sto') /\
      sto'
      = <[mapping_slot_word (eval_expr key arg_map state cd sto) base
          := eval_expr value arg_map state cd sto]> sto /\
      forall key' : ast.expr,
        eval_expr key' arg_map state cd sto'
        = eval_expr key arg_map state cd sto ->
        eval_expr (ast.Subscript (self_attr name) key') arg_map state cd sto'
        = eval_expr value arg_map state cd sto.
Proof.
  intros Hd Hk Hv H.
  assert (Hs : straight_line
                 (ast.Assign [ast.Subscript (self_attr name) key] value)
               = true).
  { cbn [straight_line]. rewrite Hv, Hk. reflexivity. }
  pose proof (compile_statement_updates cd _ arg_map state g g' Hs H)
    as (bs & steps & Happ & Hrun).
  exists bs, steps. split; [exact Happ|].
  intros stk mem sto. destruct (Hrun stk mem sto) as [mem' R].
  cbn [exec_stmt self_attr self_attribute is_self] in R.
  change (String.eqb "self" "self") with true in R. cbv iota in R.
  rewrite Hd in R.
  eexists mem', _. split; [exact R|]. split; [reflexivity|].
  intros key' Hkey.
  cbn [eval_expr self_attr self_attribute is_self].
  change (String.eqb "self" "self") with true. cbv iota.
  rewrite Hd. rewrite Hkey. rewrite lookup_insert_eq. reflexivity.
Qed.

Lemma assign_mapping_entry_roundtrip_witness :
  let state := {| variables := [("balances", 3)]; functions := [];
                  initial_values := [] |} in
  let key := ast.Name "who" in
  let value := ast.Name "amount" in
  let arg_map := arg_map_of ["who"; "amount"] in
  let g := set_mode "runtime" new_generator in
  exists g' bs steps,
    _compile_statement
      (ast.Assign [ast.Subscript (self_attr "balances") key] value)
      arg_map state g = Ok g' /\
    appended g g' bs /\
    forall stk mem sto, exists mem' sto',
      runs_in [] bs steps (stk, mem, sto) (stk, mem', sto') /\
      sto'
      = <[mapping_slot_word (eval_expr key arg_map state [] sto) 3
          := eval_expr value arg_map state [] sto]> sto /\
      forall key' : ast.expr,
        eval_expr key' arg_map state [] sto'
        = eval_expr key arg_map state [] sto ->
        eval_expr (ast.Subscript (self_attr "balances") key') arg_map state
          [] sto'
        = eval_expr value arg_map state [] sto.
Proof.
  intros state key value arg_map g.
  destruct (_compile_statement
              (ast.Assign [ast.Subscript (self_attr "balances") key] value)
              arg_map state g) as [g'|] eqn:E; [|discriminate E].
  exists g'.
  destruct (assign_mapping_entry_roundtrip "balances" 3 key value arg_map
              state [] g g' eq_refl eq_refl eq_refl E)
    as (bs & steps & H).
  exists bs, steps. split; [reflexivity|exact H].
Defined.

(** X13. A statement [return e] compiles to code that halts with RETURN:
    whatever the stack and the memory, it returns exactly 32 bytes, the
    value of [e] as a big-endian word, which [decode_uint256] reads back
    modulo [2^256], and leaves the storage as it was.  A bare [return]
    always compiles, and returns no data. *)
Theorem return_statement_returns (value : ast.expr)
    (arg_map : gmap string nat) (state : ContractState) (cd : list Z)
    (g g' : generator) :
  supported value = true ->
  _compile_statement (ast.Return (Some value)) arg_map state g = Ok g' ->
  (exists bs steps,
     appended g g' bs /\
     forall stk mem sto,
       let v := eval_expr value arg_map state cd sto in
       returns_in cd bs steps (stk, mem, sto) (be_bytes 32 v) sto /\
       length (be_bytes 32 v) = 32%nat /\
       ABIEncoder.decode_uint256 (be_bytes 32 v) = v mod 2 ^ 256) /\
  (exists g1 bs,
     _compile_statement (ast.Return None) arg_map state g = Ok g1 /\
     appended g g1 bs /\
     forall stk mem sto, returns_in cd bs 3 (stk, mem, sto) [] sto).
Proof.
  intros Hs H. split.
  - cbn [_compile_statement] in H. apply bind_Ok in H as (g1 & Hv & H).
    apply (compile_expression_pushes cd _ _ _ Hs) in Hv.
    destruct (pushes_returns cd _ _ _ _ Hv H) as (bs & steps & Happ & Hrun).
    exists bs, steps. split; [exact Happ|].
    intros stk mem sto v. split; [apply Hrun|].
    split; [apply length_be_bytes|].
    unfold ABIEncoder.decode_uint256.
    rewrite take_ge by (rewrite length_be_bytes; lia).
    apply from_bytes_be_bytes.
  - cbn [_compile_statement].
    destruct (push_int_appended 0 g (small_word 0 ltac:(lia)))
      as (ga & Ea & Ha). rewrite Ea. cbn [mbind result_bind].
    destruct (push_int_appended 0 ga (small_word 0 ltac:(lia)))
      as (gb & Eb & Hb). rewrite Eb. cbn [mbind result_bind].
    exists (emit EVMOpcode.RETURN gb),
      (push_code 0 ++ push_code 0 ++ [EVMOpcode.RETURN]).
    split; [reflexivity|]. split.
    { eapply appended_trans; [exact Ha|].
      eapply appended_trans; [exact Hb|apply emit_appended]. }
    intros stk mem sto.
    apply (runs_in_returns_in cd _ _ 1 2 _ (0 :: stk, mem, sto));
      [apply runs_runs_in, (runs_push_code 0), small_word; lia|].
    apply (runs_in_returns_in cd _ _ 1 1 _ (0 :: 0 :: stk, mem, sto));
      [apply runs_runs_in, (runs_push_code 0), small_word; lia|].
    apply (returns_in_return cd 0 0).
Qed.

Lemma return_statement_returns_witness :
  let value := self_attr "count" in
  let g := set_mode "runtime" new_generator in
  exists g',
    _compile_statement (ast.Return (Some value)) ∅ test_contract g = Ok g' /\
    (exists bs steps,
       appended g g' bs /\
       forall stk mem sto,
         let v := eval_expr value ∅ test_contract [] sto in
         returns_in [] bs steps (stk, mem, sto) (be_bytes 32 v) sto /\
         length (be_bytes 32 v) = 32%nat /\
         ABIEncoder.decode_uint256 (be_bytes 32 v) = v mod 2 ^ 256) /\
    (exists g1 bs,
       _compile_statement (ast.Return None) ∅ test_contract g = Ok g1 /\
       appended g g1 bs /\
       forall stk mem sto, returns_in [] bs 3 (stk, mem, sto) [] sto).
Proof.
  intros value g.
  destruct (_compile_statement (ast.Return (Some value)) ∅ test_contract g)
    as [g'|] eqn:E; [|discriminate E].
  exists g'. split; [reflexivity|].
  exact (return_statement_returns value ∅ test_contract [] g g' eq_refl E).
Defined.

Section FunctionBody.

Variable cd : list Z.

Lemma straight_line_lacks_final_return (ss : list ast.stmt) :
  forallb straight_line ss = true -> lacks_final_return ss = true.
Proof.
  intros Hs. unfold lacks_final_return.
  destruct (last ss) as [s|] eqn:El; [|reflexivity].
  apply last_Some_elem_of in El.
  rewrite forallb_forall in Hs. apply list_elem_of_In in El.
  specialize (Hs s El). destruct s; try reflexivity. discriminate Hs.
Qed.

Lemma lacks_final_return_snoc (ss : list ast.stmt) (v : option ast.expr) :
  lacks_final_return (ss ++ [ast.Return v]) = false.
Proof. unfold lacks_final_return. rewrite last_snoc. reflexivity. Qed.

Lemma returns_ext (g g' : generator) (d d' : gmap Z Z -> list Z)
    (f f' : gmap Z Z -> gmap Z Z) :
  (forall sto, d sto = d' sto) -> (forall sto, f sto = f' sto) ->
  returns cd g g' d f -> returns cd g g' d' f'.
Proof.
  intros Hd Hf (bs & n & Ha & H). exists bs, n. split; [exact Ha|].
  intros stk mem sto. rewrite <- Hd, <- Hf. apply H.
Qed.

(** The epilogue of [generate_function_body], after the statements. *)
Lemma epilogue_keeps_return (f : func_info) (g g' : generator)
    (d : gmap Z Z -> list Z) (u : gmap Z Z -> gmap Z Z) (g0 : generator) :
  returns cd g0 g d u ->
  (if is_view f || has_return f then
     if lacks_final_return (body f) then
       g ← push_int 0 g; generate_abi_encoded_return g
     else Ok g
   else
     g ← push_int 0 g; g ← push_int 0 g; Ok (emit EVMOpcode.RETURN g))
  = Ok g' ->
  returns cd g0 g' d u.
Proof.
  intros Hr H.
  assert (Hk : exists bs, appended g g' bs).
  { destruct (is_view f || has_return f).
    - destruct (lacks_final_return (body f)).
      + apply bind_Ok in H as (g1 & H1 & H).
        apply (pushes_push_int cd) in H1. destruct H1 as (b1 & _ & A1 & _).
        apply (generate_abi_encoded_return_returns cd) in H
          as (b2 & _ & A2 & _).
        exists (b1 ++ b2). eapply appended_trans; eassumption.
      + injection H as <-. exists []. apply appended_refl.
    - apply (empty_return_returns cd) in H. destruct H as (b & _ & A & _).
      exists b. exact A. }
  destruct Hk as [bs Hk]. eapply returns_appended; eassumption.
Qed.

End FunctionBody.

(** ** Appended code and patched bytes *)

(** Code that keeps everything emitted so far has only appended. *)
Lemma keeps_split (g g' : generator) :
  keeps (length (active_code g)) g g' -> exists bs, appended g g' bs.
Proof.
  intros (M & I & L & T). specialize (T (le_n _)).
  rewrite (take_ge (active_code g)) in T by lia.
  exists (drop (length (active_code g)) (active_code g')).
  split; [|split; assumption].
  rewrite <- T at 1. symmetry. apply take_drop.
Qed.

Lemma backpatch2_inv (offset target : nat) (g g' : generator) :
  backpatch2 offset target g = Ok g' ->
  Z.of_nat target <= 0xFFFF /\
  g' = set_active_code g
         (take offset (active_code g) ++ be_bytes 2 (Z.of_nat target) ++
          drop (offset + 2) (active_code g)).
Proof.
  unfold backpatch2, _backpatch. intros H.
  destruct (Z_le_gt_dec (Z.of_nat target) 0xFFFF) as [Hle|Hgt].
  - rewrite to_bytes_ok in H
      by (change (256 ^ Z.of_nat 2) with 65536; lia).
    cbn [mbind result_bind] in H. injection H as <-. split; [exact Hle|].
    reflexivity.
  - rewrite to_bytes_overflow in H
      by (right; change (256 ^ Z.of_nat 2) with 65536; lia).
    discriminate H.
Qed.

(** Replacing the two bytes after a prefix of known length. *)
Lemma patch_middle (P R bs : list Z) (x y : Z) (off : nat) :
  length P = off ->
  take off (P ++ [x; y] ++ R) ++ bs ++ drop (off + 2) (P ++ [x; y] ++ R)
  = P ++ bs ++ R.
Proof.
  intros <-. rewrite take_app_length.
  rewrite drop_app_ge by lia.
  replace (length P + 2 - length P)%nat with 2%nat by lia. reflexivity.
Qed.

(** ** The first [return] of a body *)

Section FirstReturn.

Variable cd : list Z.

(** A statement that is not a conditional only appends code, in any
    mode. *)
Lemma compile_statement_appends (s : ast.stmt) (arg_map : gmap string nat)
    (state : ContractState) (g g' : generator) :
  no_if s = true ->
  _compile_statement s arg_map state g = Ok g' ->
  exists bs, appended g g' bs.
Proof.
  intros Hs H. apply keeps_split.
  set (n := length (active_code g)).
  destruct s as [value|targets value|test body orelse|value|];
    cbn [no_if] in Hs; try discriminate Hs;
    cbn [_compile_statement] in H.
  - destruct value as [value|].
    + apply bind_Ok in H as (g1 & E & H).
      apply (compile_expression_keeps n) in E.
      apply (generate_abi_encoded_return_keeps n) in H. keeps_chain.
    + keeps_steps n H. keeps_chain.
  - destruct targets as [|target [|]];
      [injection H as <-; apply keeps_refl| |injection H as <-; apply keeps_refl].
    destruct target as [|?|tvalue var_name|tvalue slice|? ? ?|? ? ?|];
      try (injection H as <-; apply keeps_refl).
    + destruct (is_self tvalue);
        [destruct (dict_get var_name (variables state))|];
        try (injection H as <-; apply keeps_refl).
      apply bind_Ok in H as (g1 & E & H).
      apply (compile_expression_keeps n) in E.
      keeps_steps n H. keeps_chain.
    + destruct (self_attribute tvalue) as [mapping_name|];
        [destruct (dict_get mapping_name (variables state))|];
        try (injection H as <-; apply keeps_refl).
      apply bind_Ok in H as (g1 & E1 & H).
      apply (compile_expression_keeps n) in E1.
      apply bind_Ok in H as (g2 & E2 & H). injection H as <-.
      apply (mapping_slot_code_keeps n) in E2;
        [keeps_chain|intros ? ?; eapply compile_expression_keeps; eassumption].
  - injection H as <-. apply keeps_refl.
  - injection H as <-. apply keeps_refl.
Qed.

Lemma compile_statements_appends (ss : list ast.stmt)
    (arg_map : gmap string nat) (state : ContractState) :
  forallb no_if ss = true ->
  forall g g',
    compile_statements ss arg_map state g = Ok g' ->
    exists bs, appended g g' bs.
Proof.
  induction ss as [|s ss IH]; intros Hs g g' H.
  - injection H as <-. exists []. apply appended_refl.
  - cbn [forallb] in Hs. apply andb_prop in Hs as [Hs1 Hs2].
    cbn [compile_statements] in H. apply bind_Ok in H as (g1 & E & H).
    destruct (compile_statement_appends _ _ _ _ _ Hs1 E) as [b1 A1].
    destruct (IH Hs2 _ _ H) as [b2 A2].
    exists (b1 ++ b2). eapply appended_trans; eassumption.
Qed.

(** The statements up to and including the first [return], then anything
    without a conditional, then the epilogue: the first [return] is where
    the code halts. *)
Lemma function_body_first_return (func_name : string) (f : func_info)
    (ss rest : list ast.stmt) (v : option ast.expr)
    (state : ContractState) (g g' : generator)
    (d : gmap Z Z -> list Z) :
  forallb straight_line ss = true -> forallb no_if rest = true ->
  body f = ss ++ ast.Return v :: rest ->
  (forall g1 g2,
     _compile_statement (ast.Return v) (arg_map_of (args f)) state g1
     = Ok g2 ->
     returns cd g1 g2 d (fun sto => sto)) ->
  generate_function_body func_name f state g = Ok g' ->
  returns cd g g'
    (fun sto => d (exec_stmts ss (arg_map_of (args f)) state cd sto))
    (exec_stmts ss (arg_map_of (args f)) state cd).
Proof.
  intros Hs Hrest Hbody Hret H. unfold generate_function_body in H.
  apply bind_Ok in H as (g1 & Hb & H). rewrite Hbody in Hb.
  rewrite compile_statements_app in Hb.
  apply bind_Ok in Hb as (g2 & Hss & Hb).
  apply (compile_statements_updates cd _ _ _ Hs) in Hss.
  cbn [compile_statements] in Hb.
  apply bind_Ok in Hb as (g3 & Hr & Hb).
  apply Hret in Hr.
  destruct (compile_statements_appends _ _ _ Hrest _ _ Hb) as [br Ar].
  pose proof (updates_returns cd _ _ _ _ _ _ Hss Hr) as Hall.
  pose proof (returns_appended cd _ _ _ _ _ _ Hall Ar) as Hall'.
  eapply (epilogue_keeps_return cd f); [|exact H].
  eapply returns_ext; [| |exact Hall']; intros sto; reflexivity.
Qed.

End FirstReturn.

(** X14. The code of a function whose body has no [if] halts at the
    first [return].  With [ss] the statements before it, or the whole
    body when there is none, all of them assignments or expression
    statements over supported operators, the code runs the stores of [ss]
    in order and halts with RETURN, whatever follows the first [return].
    It returns the value of [e], in the storage those stores leave, as a
    32-byte word when the first [return] is [return e], and no data when
    it is a bare [return], whatever the flags of the function; without
    any [return] it returns the 32-byte word 0 when the function is a
    view or has a return value, and no data otherwise. *)
Theorem function_body_returns (func_name : string) (f : func_info)
    (ss rest : list ast.stmt) (state : ContractState) (cd : list Z)
    (g g' : generator) :
  forallb straight_line ss = true -> forallb no_if rest = true ->
  generate_function_body func_name f state g = Ok g' ->
  let arg_map := arg_map_of (args f) in
  let run := exec_stmts ss arg_map state cd in
  (forall e : ast.expr,
     body f = ss ++ ast.Return (Some e) :: rest -> supported e = true ->
     returns cd g g'
       (fun sto => be_bytes 32 (eval_expr e arg_map state cd (run sto)))
       run) /\
  (body f = ss ++ ast.Return None :: rest ->
   returns cd g g' (fun _ => []) run) /\
  (body f = ss -> is_view f || has_return f = true ->
   returns cd g g' (fun _ => be_bytes 32 0) run) /\
  (body f = ss -> is_view f || has_return f = false ->
   returns cd g g' (fun _ => []) run).
Proof.
  intros Hs Hrest H arg_map run.
  split; [|split; [|split]].
  - intros e Hbody He.
    apply (function_body_first_return cd func_name f ss rest (Some e)
             state g g'
             (fun sto => be_bytes 32 (eval_expr e arg_map state cd sto))
             Hs Hrest Hbody); [|exact H].
    intros g1 g2 Hr. cbn [_compile_statement] in Hr.
    apply bind_Ok in Hr as (g3 & He' & Hr).
    apply (compile_expression_pushes cd _ _ _ He) in He'.
    apply (pushes_returns cd _ _ _ _ He' Hr).
  - intros Hbody.
    apply (function_body_first_return cd func_name f ss rest None
             state g g' (fun _ => []) Hs Hrest Hbody); [|exact H].
    intros g1 g2 Hr. cbn [_compile_statement] in Hr.
    apply (empty_return_returns cd _ _ Hr).
  - intros Hbody Hflag. unfold generate_function_body in H.
    fold arg_map in H. apply bind_Ok in H as (g1 & Hb & H).
    rewrite Hbody in Hb, H.
    rewrite Hflag, (straight_line_lacks_final_return _ Hs) in H.
    apply (compile_statements_updates cd _ _ _ Hs) in Hb.
    apply bind_Ok in H as (g2 & Hp & H).
    apply (pushes_push_int cd) in Hp.
    pose proof (pushes_returns cd _ _ _ _ Hp H) as Hr.
    pose proof (updates_returns cd _ _ _ _ _ _ Hb Hr) as Hall.
    eapply returns_ext; [| |exact Hall]; intros sto; reflexivity.
  - intros Hbody Hflag. unfold generate_function_body in H.
    fold arg_map in H. apply bind_Ok in H as (g1 & Hb & H).
    rewrite Hbody in Hb. rewrite Hflag in H.
    apply (compile_statements_updates cd _ _ _ Hs) in Hb.
    apply (empty_return_returns cd) in H.
    pose proof (updates_returns cd _ _ _ _ _ _ Hb H) as Hall.
    eapply returns_ext; [| |exact Hall]; intros sto; reflexivity.
Qed.

Lemma function_body_returns_witness :
  let f := {| is_public := true; is_view := false; has_return := false;
              args := ["amount"]; param_types := ["uint256"];
              body := [ ast.Assign [self_attr "count"] (ast.Name "amount");
                        ast.Return (Some (self_attr "count"));
                        ast.Return (Some (ast.Constant (ast.CInt 2))) ] |} in
  let ss := [ ast.Assign [self_attr "count"] (ast.Name "amount") ] in
  let g := set_mode "runtime" new_generator in
  let arg_map := arg_map_of (args f) in
  exists g',
    generate_function_body "set" f test_contract g = Ok g' /\
    returns [] g g'
      (fun sto =>
         be_bytes 32
           (eval_expr (self_attr "count") arg_map test_contract []
              (exec_stmts ss arg_map test_contract [] sto)))
      (exec_stmts ss arg_map test_contract []).
Proof.
  intros f ss g arg_map.
  assert (E : exists g',
             generate_function_body "set" f test_contract g = Ok g')
    by (eexists; vm_compute; reflexivity).
  destruct E as [g' E]. exists g'. split; [exact E|].
  exact (proj1 (function_body_returns "set" f ss
                  [ast.Return (Some (ast.Constant (ast.CInt 2)))]
                  test_contract [] g g' eq_refl eq_refl E)
           (self_attr "count") eq_refl eq_refl).
Defined.

(** ** The size of the dispatcher *)

Section DispatcherSize.

Lemma length_keccak256 (data : list Z) : length (keccak256 data) = 32%nat.
Proof. reflexivity. Qed.

Lemma length_function_selector (signature : string) :
  length (function_selector signature) = 4%nat.
Proof.
  unfold function_selector. rewrite length_take, length_keccak256.
  reflexivity.
Qed.

Lemma be_bytes_from_bytes (bs : list Z) :
  Forall is_byte bs -> be_bytes (length bs) (from_bytes bs) = bs.
Proof.
  induction bs as [|b bs IH] using rev_ind; intros H; [reflexivity|].
  apply Forall_app in H as [Hbs Hb]. inversion Hb as [|? ? Hb' _]; subst.
  unfold is_byte in Hb'.
  rewrite length_app, Nat.add_1_r. cbn [be_bytes length].
  rewrite from_bytes_snoc.
  replace ((from_bytes bs * 256 + b) / 256) with (from_bytes bs)
    by (apply Z.div_unique with b; lia).
  replace ((from_bytes bs * 256 + b) mod 256) with b
    by (apply Z.mod_unique with (from_bytes bs); lia).
  rewrite (IH Hbs). reflexivity.
Qed.

Lemma selector_bytes (signature : string) :
  be_bytes 4 (from_bytes (function_selector signature))
  = function_selector signature.
Proof.
  rewrite <- (length_function_selector signature) at 1.
  apply be_bytes_from_bytes. unfold function_selector.
  apply Forall_take, keccak256_is_byte.
Qed.

Lemma length_entry_code (func_name : string) (f : func_info) :
  length (entry_code func_name f)
  = if exposed f then 11%nat else 0%nat.
Proof.
  unfold entry_code. destruct (exposed f); [|reflexivity].
  rewrite !length_app, length_function_selector. reflexivity.
Qed.

Lemma length_entries_code (fs : list (string * func_info)) :
  length (entries_code fs) = (11 * count_exposed fs)%nat.
Proof.
  unfold entries_code, count_exposed.
  induction fs as [|[name f] fs IH]; [reflexivity|].
  cbn [map concat List.filter fst snd]. rewrite length_app, length_entry_code, IH.
  destruct (exposed f); cbn [length]; lia.
Qed.

(** One selector check, byte for byte. *)
Lemma dispatcher_entry_exact (func_name : string) (f : func_info)
    (g : generator) (ph : gmap string nat) :
  current_mode g = "runtime" ->
  exists g',
    dispatcher_entry func_name f (g, ph)
    = Ok (g', if exposed f
              then <[func_name := (length (active_code g) + 8)%nat]> ph
              else ph) /\
    appended g g' (entry_code func_name f).
Proof.
  intros Hmode. unfold dispatcher_entry, entry_code.
  destruct (exposed f); cbn [negb].
  2:{ exists g. split; [reflexivity|apply appended_refl]. }
  destruct (emit_push_int_sized
              (from_bytes (function_selector (signature_of func_name f)))
              4 (emit EVMOpcode.DUP1 g) (function_selector_bound _)
              ltac:(lia)) as (ga & -> & Ha).
  cbn [mbind result_bind].
  destruct (emit_push_int_sized 0xDEAD 2 (emit EVMOpcode.EQ ga)
              ltac:(split; [discriminate|reflexivity]) ltac:(lia))
    as (gb & -> & Hb).
  cbn [mbind result_bind].
  rewrite selector_bytes in Ha.
  exists (emit EVMOpcode.JUMPI gb). split.
  - do 3 f_equal. rewrite get_offset_runtime.
    + rewrite (appended_length _ _ _ (emit_appended EVMOpcode.EQ ga)).
      rewrite (appended_length _ _ _ Ha).
      rewrite (appended_length _ _ _ (emit_appended EVMOpcode.DUP1 g)).
      rewrite length_app, length_function_selector. cbn [length]. lia.
    + rewrite (appended_mode _ _ _ (emit_appended EVMOpcode.EQ ga)).
      rewrite (appended_mode _ _ _ Ha).
      rewrite (appended_mode _ _ _ (emit_appended EVMOpcode.DUP1 g)).
      exact Hmode.
  - pose proof (appended_trans _ _ _ _ _ (emit_appended EVMOpcode.DUP1 g)
      (appended_trans _ _ _ _ _ Ha
        (appended_trans _ _ _ _ _ (emit_appended EVMOpcode.EQ ga)
          (appended_trans _ _ _ _ _ Hb
             (emit_appended EVMOpcode.JUMPI gb))))) as H.
    exact H.
Qed.

Lemma dispatcher_entries_exact (fs : list (string * func_info))
    (g : generator) (ph : gmap string nat) :
  current_mode g = "runtime" ->
  exists g' ph',
    dispatcher_entries fs (g, ph) = Ok (g', ph') /\
    appended g g' (entries_code fs).
Proof.
  revert g ph. induction fs as [|[func_name f] fs IH]; intros g ph Hmode.
  - exists g, ph. split; [reflexivity|apply appended_refl].
  - cbn [dispatcher_entries].
    destruct (dispatcher_entry_exact func_name f g ph Hmode)
      as (g1 & -> & Happ1).
    cbn [mbind result_bind].
    destruct (IH g1 (if exposed f
                     then <[func_name := (length (active_code g) + 8)%nat]> ph
                     else ph)) as (g2 & ph2 & -> & Happ2).
    { rewrite (appended_mode _ _ _ Happ1). exact Hmode. }
    exists g2, ph2. split; [reflexivity|].
    unfold entries_code. cbn [map concat fst snd].
    eapply appended_trans; eassumption.
Qed.

(** The dispatcher before its backpatch, byte for byte. *)
Lemma dispatcher_code_exact (fs : list (string * func_info))
    (g : generator) :
  current_mode g = "runtime" ->
  exists g1 ph,
    dispatcher_code fs g
    = Ok (g1, ph, (length (active_code g) + 7)%nat,
          (length (active_code g) + 14 + 11 * count_exposed fs)%nat) /\
    appended g g1
      (guard_code ++ selector_load_code ++ entries_code fs ++ revert_code).
Proof.
  intros Hmode. unfold dispatcher_code.
  destruct (push_int_appended 4 g (small_word 4 ltac:(lia)))
    as (g1 & -> & H1). cbn [mbind result_bind].
  pose proof (emit_appended EVMOpcode.CALLDATASIZE g1) as H2.
  set (g2 := emit EVMOpcode.CALLDATASIZE g1) in *.
  pose proof (emit_appended EVMOpcode.LT g2) as H3.
  set (g3 := emit EVMOpcode.LT g2) in *.
  destruct (emit_push_int_sized 0xFFFF 2 g3
              ltac:(split; [discriminate|reflexivity]) ltac:(lia))
    as (g4 & -> & H4). cbn [mbind result_bind].
  pose proof (emit_appended EVMOpcode.JUMPI g4) as H5.
  set (g5 := emit EVMOpcode.JUMPI g4) in *.
  destruct (push_int_appended 0 g5 (small_word 0 ltac:(lia)))
    as (g6 & -> & H6). cbn [mbind result_bind].
  pose proof (emit_appended EVMOpcode.CALLDATALOAD g6) as H7.
  set (g7 := emit EVMOpcode.CALLDATALOAD g6) in *.
  assert (H224 : 0 <= 224 < 2 ^ 256) by (split; [discriminate|reflexivity]).
  destruct (push_int_appended 224 g7 H224) as (g8 & -> & H8).
  cbn [mbind result_bind].
  pose proof (emit_appended EVMOpcode.SHR g8) as H9.
  set (g9 := emit EVMOpcode.SHR g8) in *.
  assert (Hhead : appended g g9 (guard_code ++ selector_load_code)).
  { pose proof (appended_trans _ _ _ _ _ H1
      (appended_trans _ _ _ _ _ H2
        (appended_trans _ _ _ _ _ H3
          (appended_trans _ _ _ _ _ H4
            (appended_trans _ _ _ _ _ H5
              (appended_trans _ _ _ _ _ H6
                (appended_trans _ _ _ _ _ H7
                  (appended_trans _ _ _ _ _ H8 H9)))))))) as H.
    exact H. }
  assert (Hmode9 : current_mode g9 = "runtime")
    by (rewrite (appended_mode _ _ _ Hhead); exact Hmode).
  destruct (dispatcher_entries_exact fs g9 ∅ Hmode9)
    as (ga & ph & -> & Ha). cbn [mbind result_bind].
  pose proof (emit_appended EVMOpcode.JUMPDEST ga) as Hb.
  set (gb := emit EVMOpcode.JUMPDEST ga) in *.
  destruct (push_int_appended 0 gb (small_word 0 ltac:(lia)))
    as (gc & -> & Hc). cbn [mbind result_bind].
  destruct (push_int_appended 0 gc (small_word 0 ltac:(lia)))
    as (gd & -> & Hd). cbn [mbind result_bind].
  pose proof (emit_appended EVMOpcode.REVERT gd) as He.
  assert (Hmode3 : current_mode g3 = "runtime").
  { rewrite (appended_mode _ _ _ H3), (appended_mode _ _ _ H2),
      (appended_mode _ _ _ H1). exact Hmode. }
  assert (Hmodea : current_mode ga = "runtime")
    by (rewrite (appended_mode _ _ _ Ha); exact Hmode9).
  rewrite (get_offset_runtime g3 Hmode3), (get_offset_runtime ga Hmodea).
  rewrite (appended_length _ _ _ H3), (appended_length _ _ _ H2),
    (appended_length _ _ _ H1), (appended_length _ _ _ Ha),
    (appended_length _ _ _ Hhead), length_entries_code.
  exists (emit EVMOpcode.REVERT gd), ph.
  split.
  - do 3 f_equal; simpl; lia.
  - assert (Htail : appended ga (emit EVMOpcode.REVERT gd) revert_code).
    { pose proof (appended_trans _ _ _ _ _ Hb
        (appended_trans _ _ _ _ _ Hc
          (appended_trans _ _ _ _ _ Hd He))) as H. exact H. }
    pose proof (appended_trans _ _ _ _ _ Hhead
                  (appended_trans _ _ _ _ _ Ha Htail)) as H.
    rewrite <- app_assoc in H. exact H.
Qed.

End DispatcherSize.

Section DispatcherLimit.

(** The whole dispatcher: the emitted code with the two bytes at offset 7
    and 8 from its start replaced by the offset of the revert block. *)
Lemma generate_function_dispatcher_exact (fs : list (string * func_info))
    (g : generator) :
  current_mode g = "runtime" ->
  let len := length (active_code g) in
  let revert_start := (len + 14 + 11 * count_exposed fs)%nat in
  Z.of_nat revert_start <= 0xFFFF ->
  exists g1 ph,
    appended g g1
      (guard_code ++ selector_load_code ++ entries_code fs ++ revert_code) /\
    generate_function_dispatcher fs g
    = Ok (set_active_code g1
            (take (len + 7) (active_code g1) ++
             [Z.of_nat revert_start / 256; Z.of_nat revert_start mod 256] ++
             drop (len + 7 + 2) (active_code g1)), ph).
Proof.
  intros Hmode len revert_start Hle.
  destruct (dispatcher_code_exact fs g Hmode) as (g1 & ph & Hcode & Happ).
  exists g1, ph. split; [exact Happ|].
  unfold generate_function_dispatcher. rewrite Hcode.
  cbn [mbind result_bind]. unfold backpatch2.
  fold len. fold revert_start.
  rewrite backpatch_ok by lia. reflexivity.
Qed.

End DispatcherLimit.

(** ** The dispatcher, as [generate_function_dispatcher] leaves it *)

Section DispatcherOutput.

Lemma dispatcher_entries_placeholders (fs : list (string * func_info))
    (g : generator) (ph : gmap string nat) :
  current_mode g = "runtime" ->
  exists g',
    dispatcher_entries fs (g, ph)
    = Ok (g', entry_placeholders (length (active_code g)) fs ph) /\
    appended g g' (entries_code fs).
Proof.
  revert g ph. induction fs as [|[func_name f] fs IH]; intros g ph Hmode.
  - exists g. split; [reflexivity|apply appended_refl].
  - cbn [dispatcher_entries entry_placeholders].
    destruct (dispatcher_entry_exact func_name f g ph Hmode)
      as (g1 & -> & Happ1).
    cbn [mbind result_bind].
    pose proof (appended_length _ _ _ Happ1) as Hlen.
    rewrite length_entry_code in Hlen.
    destruct (IH g1 (if exposed f
                     then <[func_name := (length (active_code g) + 8)%nat]> ph
                     else ph)) as (g2 & -> & Happ2).
    { rewrite (appended_mode _ _ _ Happ1). exact Hmode. }
    exists g2. split.
    + rewrite Hlen. destruct (exposed f).
      * reflexivity.
      * rewrite Nat.add_0_r. reflexivity.
    + unfold entries_code. cbn [map concat fst snd].
      eapply appended_trans; eassumption.
Qed.

(** What the dispatcher emits before its backpatch, byte for byte, with
    the dict of placeholders it returns. *)
Lemma dispatcher_code_placeholders (fs : list (string * func_info))
    (g : generator) :
  current_mode g = "runtime" ->
  exists g1,
    dispatcher_code fs g
    = Ok (g1, entry_placeholders (length (active_code g) + 14) fs ∅,
          (length (active_code g) + 7)%nat,
          (length (active_code g) + 14 + 11 * count_exposed fs)%nat) /\
    appended g g1
      (guard_code ++ selector_load_code ++ entries_code fs ++ revert_code).
Proof.
  intros Hmode. unfold dispatcher_code.
  destruct (push_int_appended 4 g (small_word 4 ltac:(lia)))
    as (g1 & -> & H1). cbn [mbind result_bind].
  pose proof (emit_appended EVMOpcode.CALLDATASIZE g1) as H2.
  set (g2 := emit EVMOpcode.CALLDATASIZE g1) in *.
  pose proof (emit_appended EVMOpcode.LT g2) as H3.
  set (g3 := emit EVMOpcode.LT g2) in *.
  destruct (emit_push_int_sized 0xFFFF 2 g3
              ltac:(split; [discriminate|reflexivity]) ltac:(lia))
    as (g4 & -> & H4). cbn [mbind result_bind].
  pose proof (emit_appended EVMOpcode.JUMPI g4) as H5.
  set (g5 := emit EVMOpcode.JUMPI g4) in *.
  destruct (push_int_appended 0 g5 (small_word 0 ltac:(lia)))
    as (g6 & -> & H6). cbn [mbind result_bind].
  pose proof (emit_appended EVMOpcode.CALLDATALOAD g6) as H7.
  set (g7 := emit EVMOpcode.CALLDATALOAD g6) in *.
  assert (H224 : 0 <= 224 < 2 ^ 256) by (split; [discriminate|reflexivity]).
  destruct (push_int_appended 224 g7 H224) as (g8 & -> & H8).
  cbn [mbind result_bind].
  pose proof (emit_appended EVMOpcode.SHR g8) as H9.
  set (g9 := emit EVMOpcode.SHR g8) in *.
  assert (Hhead : appended g g9 (guard_code ++ selector_load_code)).
  { pose proof (appended_trans _ _ _ _ _ H1
      (appended_trans _ _ _ _ _ H2
        (appended_trans _ _ _ _ _ H3
          (appended_trans _ _ _ _ _ H4
            (appended_trans _ _ _ _ _ H5
              (appended_trans _ _ _ _ _ H6
                (appended_trans _ _ _ _ _ H7
                  (appended_trans _ _ _ _ _ H8 H9)))))))) as H.
    exact H. }
  assert (Hmode9 : current_mode g9 = "runtime")
    by (rewrite (appended_mode _ _ _ Hhead); exact Hmode).
  destruct (dispatcher_entries_placeholders fs g9 ∅ Hmode9)
    as (ga & -> & Ha). cbn [mbind result_bind].
  pose proof (emit_appended EVMOpcode.JUMPDEST ga) as Hb.
  set (gb := emit EVMOpcode.JUMPDEST ga) in *.
  destruct (push_int_appended 0 gb (small_word 0 ltac:(lia)))
    as (gc & -> & Hc). cbn [mbind result_bind].
  destruct (push_int_appended 0 gc (small_word 0 ltac:(lia)))
    as (gd & -> & Hd). cbn [mbind result_bind].
  pose proof (emit_appended EVMOpcode.REVERT gd) as He.
  assert (Hmode3 : current_mode g3 = "runtime").
  { rewrite (appended_mode _ _ _ H3), (appended_mode _ _ _ H2),
      (appended_mode _ _ _ H1). exact Hmode. }
  assert (Hmodea : current_mode ga = "runtime")
    by (rewrite (appended_mode _ _ _ Ha); exact Hmode9).
  rewrite (get_offset_runtime g3 Hmode3), (get_offset_runtime ga Hmodea).
  rewrite (appended_length _ _ _ H3), (appended_length _ _ _ H2),
    (appended_length _ _ _ H1), (appended_length _ _ _ Ha),
    (appended_length _ _ _ Hhead), length_entries_code.
  change (length (guard_code ++ selector_load_code)) with 14%nat.
  exists (emit EVMOpcode.REVERT gd).
  split.
  - do 3 f_equal; simpl; lia.
  - assert (Htail : appended ga (emit EVMOpcode.REVERT gd) revert_code).
    { pose proof (appended_trans _ _ _ _ _ Hb
        (appended_trans _ _ _ _ _ Hc
          (appended_trans _ _ _ _ _ Hd He))) as H. exact H. }
    pose proof (appended_trans _ _ _ _ _ Hhead
                  (appended_trans _ _ _ _ _ Ha Htail)) as H.
    rewrite <- app_assoc in H. exact H.
Qed.

(** The region the dispatcher leaves: what it emitted, with the two
    bytes at offsets 7 and 8 from the start, the guard's JUMPI and the
    PUSH1 opcode of the selector load, replaced by the offset of the
    revert block. *)
Lemma generate_function_dispatcher_output (fs : list (string * func_info))
    (g : generator) :
  current_mode g = "runtime" ->
  let len := length (active_code g) in
  let revert_start := (len + 14 + 11 * count_exposed fs)%nat in
  Z.of_nat revert_start <= 0xFFFF ->
  exists g',
    generate_function_dispatcher fs g
    = Ok (g', entry_placeholders (len + 14) fs ∅) /\
    active_code g'
    = active_code g ++
      [EVMOpcode.PUSH1; 4; EVMOpcode.CALLDATASIZE; EVMOpcode.LT;
       EVMOpcode.PUSH2; 0xFF; 0xFF] ++
      be_bytes 2 (Z.of_nat revert_start) ++
      [0; EVMOpcode.CALLDATALOAD; EVMOpcode.PUSH1; 224; EVMOpcode.SHR] ++
      entries_code fs ++ revert_code /\
    inactive_code g' = inactive_code g /\
    current_mode g' = "runtime".
Proof.
  intros Hmode len revert_start Hle.
  destruct (dispatcher_code_placeholders fs g Hmode)
    as (g1 & Hcode & Hact & Hinact & Hm1).
  fold len in Hcode. fold revert_start in Hcode.
  unfold generate_function_dispatcher. rewrite Hcode.
  cbn [mbind result_bind]. unfold backpatch2.
  rewrite backpatch_ok by lia. cbn [mbind result_bind].
  eexists. split; [reflexivity|].
  rewrite active_set_active, inactive_set_active, mode_set_active.
  split; [|split; [exact Hinact|rewrite Hm1; exact Hmode]].
  rewrite Hact.
  rewrite <- (be_bytes_2 (Z.of_nat revert_start)) by lia.
  pose proof (patch_middle
                (active_code g ++
                 [EVMOpcode.PUSH1; 4; EVMOpcode.CALLDATASIZE; EVMOpcode.LT;
                  EVMOpcode.PUSH2; 0xFF; 0xFF])
                ([0; EVMOpcode.CALLDATALOAD; EVMOpcode.PUSH1; 224;
                  EVMOpcode.SHR] ++ entries_code fs ++ revert_code)
                (be_bytes 2 (Z.of_nat revert_start))
                EVMOpcode.JUMPI EVMOpcode.PUSH1 (len + 7)) as P.
  rewrite <- !app_assoc in P. cbn [app] in P.
  unfold guard_code, selector_load_code. cbn [app].
  rewrite P by (rewrite length_app; cbn [length]; fold len; lia).
  reflexivity.
Qed.

End DispatcherOutput.

(** X15. Started in runtime mode, [generate_function_dispatcher] leaves
    exactly this code after what the region held: PUSH1 4, CALLDATASIZE,
    LT, PUSH2 0xFFFF, the two bytes of the offset of the revert block,
    then 0x00, CALLDATALOAD, PUSH1 224, SHR, one 11-byte selector check
    (DUP1, PUSH4 selector, EQ, PUSH2 0xDEAD, JUMPI) for every function
    that is public or a view and none for the others, and the revert
    block JUMPDEST, PUSH1 0, PUSH1 0, REVERT: [20 + 11 n] bytes for [n]
    such functions.  The dict it returns gives, for each of them, the
    offset of the operand of its PUSH2.  It fails, with [OverflowError],
    exactly when the offset of the revert block, [14 + 11 n] bytes after
    the start, exceeds 0xFFFF. *)
Theorem dispatcher_size_and_limit (fs : list (string * func_info))
    (g : generator) :
  current_mode g = "runtime" ->
  let n := count_exposed fs in
  let len := length (active_code g) in
  let revert_start := (len + 14 + 11 * n)%nat in
  (Z.of_nat revert_start <= 0xFFFF ->
   exists g',
     generate_function_dispatcher fs g
     = Ok (g', entry_placeholders (len + 14) fs ∅) /\
     active_code g'
     = active_code g ++
       [EVMOpcode.PUSH1; 4; EVMOpcode.CALLDATASIZE; EVMOpcode.LT;
        EVMOpcode.PUSH2; 0xFF; 0xFF] ++
       be_bytes 2 (Z.of_nat revert_start) ++
       [0; EVMOpcode.CALLDATALOAD; EVMOpcode.PUSH1; 224; EVMOpcode.SHR] ++
       entries_code fs ++ revert_code /\
     length (active_code g') = (len + 20 + 11 * n)%nat /\
     inactive_code g' = inactive_code g /\
     current_mode g' = "runtime") /\
  (0xFFFF < Z.of_nat revert_start ->
   generate_function_dispatcher fs g = Err OverflowError).
Proof.
  intros Hmode n len revert_start. split.
  - intros Hle.
    destruct (generate_function_dispatcher_output fs g Hmode Hle)
      as (g' & Heq & Hact & Hinact & Hm).
    exists g'. split; [exact Heq|]. split; [exact Hact|].
    split; [|split; [exact Hinact|exact Hm]].
    rewrite Hact.
    repeat (rewrite length_app || cbn [length]).
    rewrite length_be_bytes, length_entries_code.
    change (length revert_code) with 6%nat. fold len n. lia.
  - intros Hgt.
    destruct (dispatcher_code_placeholders fs g Hmode) as (g1 & Hcode & _).
    unfold generate_function_dispatcher. rewrite Hcode.
    cbn [mbind result_bind]. unfold backpatch2, _backpatch.
    rewrite to_bytes_overflow; [reflexivity|].
    right. change (256 ^ Z.of_nat 2) with 65536.
    fold len n revert_start. lia.
Qed.

Lemma dispatcher_size_and_limit_witness :
  let g := set_mode "runtime" new_generator in
  exists g',
    generate_function_dispatcher (functions test_contract) g
    = Ok (g', entry_placeholders 14 (functions test_contract) ∅) /\
    active_code g'
    = active_code g ++
      [EVMOpcode.PUSH1; 4; EVMOpcode.CALLDATASIZE; EVMOpcode.LT;
       EVMOpcode.PUSH2; 0xFF; 0xFF] ++
      be_bytes 2 36 ++
      [0; EVMOpcode.CALLDATALOAD; EVMOpcode.PUSH1; 224; EVMOpcode.SHR] ++
      entries_code (functions test_contract) ++ revert_code /\
    length (active_code g') = 42%nat /\
    inactive_code g' = inactive_code g /\
    current_mode g' = "runtime".
Proof.
  intros g.
  apply (proj1 (dispatcher_size_and_limit (functions test_contract) g
                  eq_refl)).
  vm_compute. discriminate.
Defined.

(** The placeholders of the module's test contract. *)
Example test_contract_placeholders :
  entry_placeholders 14 (functions test_contract) ∅
  = <[ "get_count" := 33%nat ]> (<[ "increment" := 22%nat ]> ∅).
Proof. reflexivity. Qed.



Section RuntimeEntry.

(** The first eight bytes of the runtime region of an assembled
    contract: the guard with its sentinel operand, then the high byte of
    the offset of the revert block where the guard's JUMPI was. *)
Lemma assemble_runtime_head (state : ContractState) (g0 g : generator) :
  runtime_code g0 = [] ->
  assemble state g0 = Ok g ->
  Z.of_nat (14 + 11 * count_exposed (functions state)) <= 0xFFFF /\
  take 8 (runtime_code g)
  = [EVMOpcode.PUSH1; 4; EVMOpcode.CALLDATASIZE; EVMOpcode.LT;
     EVMOpcode.PUSH2; 0xFF; 0xFF;
     Z.of_nat (14 + 11 * count_exposed (functions state)) / 256].
Proof.
  intros Hnil H. unfold assemble in H.
  apply bind_Ok in H as ([g1 ph] & Hd & H).
  apply bind_Ok in H as (g2 & Hb & H).
  set (gr := set_mode "runtime" g0) in *.
  assert (Hmr : current_mode gr = "runtime") by reflexivity.
  assert (Hnr : active_code gr = []) by exact Hnil.
  assert (Hle : Z.of_nat (14 + 11 * count_exposed (functions state))
                <= 0xFFFF).
  { destruct (Z_le_gt_dec
                (Z.of_nat (14 + 11 * count_exposed (functions state)))
                0xFFFF) as [Hle|Hgt]; [exact Hle|].
    destruct (dispatcher_code_exact (functions state) gr Hmr)
      as (gx & phx & Hcode & _).
    unfold generate_function_dispatcher in Hd. rewrite Hcode in Hd.
    cbn [mbind result_bind] in Hd. unfold backpatch2, _backpatch in Hd.
    rewrite to_bytes_overflow in Hd; [discriminate Hd|].
    right. change (256 ^ Z.of_nat 2) with 65536. rewrite Hnr.
    cbn [length Nat.add]. lia. }
  split; [exact Hle|].
  pose proof (generate_function_dispatcher_prefix _ _ _ _ Hmr Hnr Hd)
    as (hi & lo & Htake & _ & Hm1 & Hn1 & _ & Hph).
  destruct (generate_function_dispatcher_exact (functions state) gr Hmr)
    as (gx & phx & Happ & Heq).
  { rewrite Hnr. exact Hle. }
  rewrite Hd in Heq. injection Heq as Hg1 _.
  assert (Hhead : take 8 (active_code g1)
                  = [EVMOpcode.PUSH1; 4; EVMOpcode.CALLDATASIZE; EVMOpcode.LT;
                     EVMOpcode.PUSH2; 0xFF; 0xFF;
                     Z.of_nat (14 + 11 * count_exposed (functions state))
                     / 256]).
  { rewrite Hg1, active_set_active.
    destruct Happ as (Hact & _ & _). rewrite Hact, Hnr.
    cbn [length Nat.add app guard_code take]. reflexivity. }
  apply (function_bodies_keeps 14 _ _ _ Hph _ _ Hm1 Hn1) in Hb.
  destruct Hb as (Hm2 & _ & _ & Htake2). specialize (Htake2 Hn1).
  apply generate_constructor_keeps in H. destruct H as (Hm3 & Hin3 & _ & _).
  cbn [set_mode current_mode] in Hm3.
  unfold inactive_code in Hin3. rewrite Hm3 in Hin3.
  cbn [set_mode current_mode runtime_code String.eqb Ascii.eqb Bool.eqb]
    in Hin3.
  assert (Hrt : take 14 (runtime_code g2) = take 14 (active_code g1)).
  { rewrite <- Htake2. unfold active_code. rewrite Hm2, Hm1.
    reflexivity. }
  rewrite Hin3.
  replace (take 8 (runtime_code g2)) with (take 8 (take 14 (runtime_code g2)))
    by (rewrite take_take; reflexivity).
  rewrite Hrt, take_take. exact Hhead.
Qed.

End RuntimeEntry.

(** X16. No function of an assembled contract can be called.  When the
    contract has at most 21 public or view functions, the byte at offset 7
    of its runtime code, where the JUMPI of the calldata-length guard was
    emitted, is 0x00 after the dispatcher's backpatch: every call,
    whatever its calldata and the storage, executes PUSH1 4, CALLDATASIZE,
    LT, PUSH2 0xFFFF and stops there, returning no data and leaving the
    storage as it was. *)
Theorem compiled_runtime_always_stops (state : ContractState)
    (g0 g : generator) (cd : list Z) (sto : gmap Z Z) (fuel : nat) :
  runtime_code g0 = [] ->
  assemble state g0 = Ok g ->
  (count_exposed (functions state) <= 21)%nat ->
  (5 <= fuel)%nat ->
  EVM.call fuel (runtime_code g) cd sto
  = EVM.Stopped
      {| EVM.pc := 7;
         EVM.stack := [0xFFFF; EVM.bool_word (Z.of_nat (length cd) <? 4)];
         EVM.memory := []; EVM.storage := sto |}.
Proof.
  intros Hnil H Hn Hfuel.
  destruct (assemble_runtime_head _ _ _ Hnil H) as [_ Hhead].
  replace (Z.of_nat (14 + 11 * count_exposed (functions state)) / 256)
    with 0 in Hhead
    by (symmetry; apply Z.div_small; lia).
  rewrite <- (take_drop 8 (runtime_code g)). rewrite Hhead.
  generalize (drop 8 (runtime_code g)). intros rest.
  unfold EVM.call.
  replace fuel with (4 + S (fuel - 5))%nat by lia.
  erewrite run_add; [|vm_compute; reflexivity].
  cbn [EVM.run]. unfold EVM.step. cbn [EVM.code EVM.pc app lookup list_lookup].
  reflexivity.
Qed.

Lemma compiled_runtime_always_stops_witness :
  exists g,
    assemble test_contract new_generator = Ok g /\
    EVM.call 100 (runtime_code g) [0xe7; 0x27; 0x8e; 0x7f] {[ 0 := 7 ]}
    = EVM.Stopped
        {| EVM.pc := 7; EVM.stack := [0xFFFF; 0];
           EVM.memory := []; EVM.storage := {[ 0 := 7 ]} |}.
Proof.
  eexists. split; [apply assemble_test_contract|].
  apply (compiled_runtime_always_stops test_contract new_generator _
           [0xe7; 0x27; 0x8e; 0x7f] {[ 0 := 7 ]} 100 eq_refl
           assemble_test_contract).
  - cbv. repeat constructor.
  - repeat constructor.
Defined.

(** ** The storage a created contract starts with *)

Section ConstructorStorage.

(** The initialisation stores, with the storage they leave; they compile
    only when the values and the slots are not negative. *)
Lemma constructor_stores_exact (vars : list (string * Z))
    (state : ContractState) (g g' : generator) :
  constructor_stores vars state g = Ok g' ->
  (exists bs k, appended g g' bs /\
     forall st mem sto,
       runs bs k (st, mem, sto)
         (st, mem, constructor_storage vars state sto)) /\
  (forall name slot v,
     (name, slot) ∈ vars ->
     default (PyInt 0) (dict_get name (initial_values state)) = PyInt v ->
     0 <= v /\ 0 <= slot).
Proof.
  revert g. induction vars as [|[var_name slot] vars IH]; intros g H.
  - injection H as <-. split.
    + exists [], 0%nat. split; [apply appended_refl|].
      intros st mem sto pre post cd.
      cbn [EVM.run length fst snd constructor_storage].
      rewrite Nat.add_0_r. reflexivity.
    + intros name slot v Hin. apply elem_of_nil in Hin. destruct Hin.
  - cbn [constructor_stores] in H. apply bind_Ok in H as (g1 & E & H).
    destruct (IH _ H) as ((bs2 & k2 & Happ2 & Hrun2) & Hpos2).
    cbn [constructor_storage].
    destruct (default (PyInt 0) (dict_get var_name (initial_values state)))
      as [initial_value|] eqn:Ed.
    + apply bind_Ok in E as (ga & Ea & E). apply bind_Ok in E as (gb & Eb & E).
      injection E as <-.
      pose proof (push_int_nonneg _ _ _ Ea) as Hva.
      pose proof (push_int_nonneg _ _ _ Eb) as Hvb.
      destruct (runs_push_int _ _ _ Hva Ea) as (bsa & Happa & Hruna).
      destruct (runs_push_int _ _ _ Hvb Eb) as (bsb & Happb & Hrunb).
      split.
      * exists ((bsa ++ bsb ++ [EVMOpcode.SSTORE]) ++ bs2), (3 + k2)%nat.
        split.
        { eapply appended_trans; [|exact Happ2].
          eapply appended_trans; [exact Happa|].
          eapply appended_trans; [exact Happb|apply emit_appended]. }
        intros st mem sto.
        eapply runs_app; [|apply Hrun2].
        apply (runs_app bsa _ 1 2 _ _ _ (Hruna st mem sto)).
        apply (runs_app bsb _ 1 1 _ _ _ (Hrunb _ mem sto)).
        apply runs_sstore.
      * intros name slot' v Hin Hv.
        apply elem_of_cons in Hin as [Heq|Hin].
        -- injection Heq as -> ->. rewrite Ed in Hv. injection Hv as <-.
           split; assumption.
        -- apply (Hpos2 _ _ _ Hin Hv).
    + injection E as <-. split.
      * exists bs2, k2. split; [exact Happ2|exact Hrun2].
      * intros name slot' v Hin Hv.
        apply elem_of_cons in Hin as [Heq|Hin].
        -- injection Heq as -> ->. rewrite Ed in Hv. discriminate Hv.
        -- apply (Hpos2 _ _ _ Hin Hv).
Qed.

Lemma constructor_storage_other (vars : list (string * Z))
    (state : ContractState) (sto : gmap Z Z) (k : Z) :
  (forall name slot, (name, slot) ∈ vars -> slot mod EVM.modulus <> k) ->
  constructor_storage vars state sto !! k = sto !! k.
Proof.
  revert sto. induction vars as [|[var_name slot] vars IH]; intros sto Hk.
  - reflexivity.
  - cbn [constructor_storage]. rewrite IH.
    + destruct (default (PyInt 0) _); [|reflexivity].
      apply lookup_insert_ne. apply (Hk var_name). apply list_elem_of_here.
    + intros name slot' Hin. apply (Hk name).
      apply list_elem_of_further. exact Hin.
Qed.

Lemma constructor_storage_lookup (vars : list (string * Z))
    (state : ContractState) (sto : gmap Z Z) (name : string) (slot : Z) :
  NoDup ((fun p : string * Z => p.2 mod EVM.modulus) <$> vars) ->
  (name, slot) ∈ vars ->
  constructor_storage vars state sto !! (slot mod EVM.modulus)
  = match default (PyInt 0) (dict_get name (initial_values state)) with
    | PyInt v => Some (v mod EVM.modulus)
    | PyOther => sto !! (slot mod EVM.modulus)
    end.
Proof.
  revert sto. induction vars as [|[var_name slot'] vars IH];
    intros sto Hnd Hin.
  - apply elem_of_nil in Hin. destruct Hin.
  - rewrite fmap_cons in Hnd. apply NoDup_cons in Hnd as [Hnotin Hnd].
    cbn [snd] in Hnotin.
    cbn [constructor_storage].
    apply elem_of_cons in Hin as [Heq|Hin].
    + injection Heq as <- <-.
      rewrite constructor_storage_other.
      * destruct (default (PyInt 0) _); [|reflexivity].
        apply lookup_insert_eq.
      * intros name' s Hin' Heq. apply Hnotin. rewrite <- Heq.
        apply (list_elem_of_fmap_2
                 (fun p : string * Z => p.2 mod EVM.modulus) _ _ Hin').
    + rewrite (IH _ Hnd Hin).
      destruct (default (PyInt 0) (dict_get name (initial_values state)));
        [reflexivity|].
      destruct (default (PyInt 0) _); [|reflexivity].
      apply lookup_insert_ne. intros Heq. apply Hnotin. rewrite Heq.
      apply (list_elem_of_fmap_2
               (fun p : string * Z => p.2 mod EVM.modulus) _ _ Hin).
Qed.

(** [generate_constructor_layout], with the storage the stores leave. *)
Lemma generate_constructor_storage (state : ContractState) (size : nat)
    (g g' : generator) :
  current_mode g = "init" ->
  generate_constructor state size g = Ok g' ->
  exists stores k,
    init_code g'
    = init_code g ++ stores ++ copy_code size (length (init_code g')) /\
    runtime_code g' = runtime_code g /\
    (forall st mem sto,
       runs stores k (st, mem, sto)
         (st, mem, constructor_storage (variables state) state sto)) /\
    Z.of_nat size < 65536 /\
    Z.of_nat (length (init_code g')) < 65536.
Proof.
  intros Hm H. unfold generate_constructor in H.
  apply bind_Ok in H as (g1 & E1 & H).
  destruct (constructor_stores_exact _ _ _ _ E1)
    as ((stores & k & Ha1 & Hrun) & _).
  apply bind_Ok in H as (g2 & E2 & H).
  apply emit_push2_inv in E2 as [Hsize Ha2].
  apply bind_Ok in H as (g3 & E3 & H).
  apply emit_push2_inv in E3 as [Hoff Ha3].
  apply bind_Ok in H as (g4 & E4 & H).
  destruct (push_int_appended 0 (emit EVMOpcode.DUP2 g3)
              (small_word 0 ltac:(lia)))
    as (g4' & E4' & Ha4). rewrite E4' in E4. injection E4 as ->.
  apply bind_Ok in H as (g5 & E5 & H).
  destruct (push_int_appended 0 (emit EVMOpcode.CODECOPY g4)
              (small_word 0 ltac:(lia)))
    as (g5' & E5' & Ha5). rewrite E5' in E5. injection E5 as ->.
  injection H as <-.
  pose proof (appended_trans _ _ _ _ _ Ha1
    (appended_trans _ _ _ _ _ Ha2
      (appended_trans _ _ _ _ _ Ha3
        (appended_trans _ _ _ _ _ (emit_appended EVMOpcode.DUP2 g3)
          (appended_trans _ _ _ _ _ Ha4
            (appended_trans _ _ _ _ _ (emit_appended EVMOpcode.CODECOPY g4)
              (appended_trans _ _ _ _ _ Ha5
                 (emit_appended EVMOpcode.RETURN g5)))))))) as Hall.
  destruct Hall as (Hact & Hinact & Hmode).
  destruct Ha1 as (Hact1 & _ & Hmode1).
  unfold active_code, inactive_code in Hact, Hinact, Hact1.
  rewrite Hmode, Hm in Hact, Hinact. rewrite Hmode1, Hm in Hact1.
  cbn [String.eqb Ascii.eqb Bool.eqb] in Hact, Hinact, Hact1.
  assert (Hlen : length (init_code (emit EVMOpcode.RETURN g5))
                 = (length (init_code g1) + 13)%nat).
  { rewrite Hact, Hact1. change (push_code 0) with [EVMOpcode.PUSH1; 0].
    rewrite !length_app, !length_be_bytes. simpl length. lia. }
  exists stores, k. split; [|split; [exact Hinact|split; [exact Hrun|]]].
  - rewrite Hlen. rewrite Hact. unfold copy_code. reflexivity.
  - split; [lia|]. rewrite Hlen. lia.
Qed.

(** Creation runs the stores, then the copy sequence, and returns. *)
Lemma copy_code_creates_storage (stores runtime : list Z)
    (k size offset : nat) (F : gmap Z Z -> gmap Z Z) :
  (forall st mem sto, runs stores k (st, mem, sto) (st, mem, F sto)) ->
  Z.of_nat size < 65536 -> Z.of_nat offset < 65536 ->
  let artifact := stores ++ copy_code size offset ++ runtime in
  exists data m,
    EVM.create (k + 7) artifact = EVM.Returned data m /\
    EVM.storage m = F ∅.
Proof.
  intros Hstores Hsize Hoffset artifact.
  pose proof (Hstores [] [] ∅) as Hrun0.
  set (sto := F ∅) in *.
  set (e := {| EVM.code := artifact; EVM.calldata := [] |}).
  set (pushes := ([EVMOpcode.PUSH2] ++ be_bytes 2 (Z.of_nat size)) ++
                 ([EVMOpcode.PUSH2] ++ be_bytes 2 (Z.of_nat offset)) ++
                 [EVMOpcode.DUP2] ++ [EVMOpcode.PUSH1; 0]).
  set (tail := [EVMOpcode.CODECOPY; EVMOpcode.PUSH1; 0; EVMOpcode.RETURN]).
  assert (Hlp : length pushes = 9%nat) by reflexivity.
  assert (Hart : artifact = [] ++ (stores ++ pushes) ++ tail ++ runtime).
  { unfold artifact, copy_code, pushes, tail. cbn [be_bytes app].
    rewrite <- app_assoc. reflexivity. }
  assert (HB : runs pushes 4 ([], [], sto)
                 ([0; Z.of_nat size; Z.of_nat offset; Z.of_nat size],
                  [], sto)).
  { unfold pushes.
    apply (runs_app _ _ 1 3 _ ([Z.of_nat size], [], sto)).
    { apply (runs_push 2); [lia|]. change (256 ^ Z.of_nat 2) with 65536. lia. }
    apply (runs_app _ _ 1 2 _ ([Z.of_nat offset; Z.of_nat size], [], sto)).
    { apply (runs_push 2); [lia|]. change (256 ^ Z.of_nat 2) with 65536. lia. }
    apply (runs_app _ _ 1 1 _
             ([Z.of_nat size; Z.of_nat offset; Z.of_nat size], [], sto)).
    { apply runs_dup2. }
    apply (runs_push_code 0). apply small_word. lia. }
  pose proof (runs_app _ _ _ _ _ _ _ Hrun0 HB [] (tail ++ runtime) [])
    as HAB.
  rewrite <- Hart in HAB. fold e in HAB.
  cbn [fst snd] in HAB. rewrite length_app, Hlp in HAB.
  cbn [length Nat.add] in HAB.
  assert (Hop : forall i op,
            tail !! i = Some op ->
            EVM.code e !! (length stores + 9 + i)%nat = Some op).
  { intros i op Hi. cbn [EVM.code e]. rewrite Hart. cbn [app].
    rewrite lookup_app_r by (rewrite length_app, Hlp; lia).
    rewrite length_app, Hlp.
    replace (length stores + 9 + i - (length stores + 9))%nat with i by lia.
    rewrite lookup_app_l by (apply lookup_lt_Some in Hi; exact Hi).
    exact Hi. }
  pose proof (Hop 0%nat _ eq_refl) as H0. rewrite Nat.add_0_r in H0.
  pose proof (Hop 1%nat _ eq_refl) as H1.
  pose proof (Hop 2%nat _ eq_refl) as H2.
  pose proof (Hop 3%nat _ eq_refl) as H3.
  replace (length stores + 9 + 1)%nat with (S (length stores + 9)) in H1
    by lia.
  replace (length stores + 9 + 2)%nat with (S (S (length stores + 9))) in H2
    by lia.
  replace (length stores + 9 + 3)%nat
    with (S (length stores + 9) + 1 + 1)%nat in H3 by lia.
  eexists _, _. unfold EVM.create. fold e.
  replace (k + 7)%nat with ((k + 4) + 3)%nat by lia.
  rewrite (run_add _ _ _ _ _ HAB).
  cbn [EVM.run].
  rewrite (step_codecopy e _ _ _ _ _ _ _ H0).
  rewrite (step_push1 e _ _ _ _ _ H1 H2).
  rewrite (step_return e _ _ _ _ _ _ H3).
  split; reflexivity.
Qed.

End ConstructorStorage.

(** X17. Creation initialises the storage.  Run as creation code, every
    artifact the assembler produces executes the stores of the
    constructor and returns; the storage it leaves holds, at the slot of
    each state variable, the variable's initial value, or 0 when the
    contract gives none, and nothing at any other slot.  A variable whose
    initial value is not an integer gets no store.  Compilation succeeds
    only when the integer initial values and the slots are not
    negative. *)
Theorem creation_initialises_storage (state : ContractState)
    (g : generator) :
  assemble state new_generator = Ok g ->
  (exists fuel data m,
     EVM.create fuel (init_code g ++ runtime_code g) = EVM.Returned data m /\
     EVM.storage m = constructor_storage (variables state) state ∅) /\
  (forall name slot v,
     (name, slot) ∈ variables state ->
     default (PyInt 0) (dict_get name (initial_values state)) = PyInt v ->
     0 <= v /\ 0 <= slot) /\
  (NoDup ((fun p : string * Z => p.2 mod 2 ^ 256) <$> variables state) ->
   forall name slot,
     (name, slot) ∈ variables state ->
     constructor_storage (variables state) state ∅ !! (slot mod 2 ^ 256)
     = match default (PyInt 0) (dict_get name (initial_values state)) with
       | PyInt v => Some (v mod 2 ^ 256)
       | PyOther => None
       end) /\
  (forall k : Z,
     (forall name slot,
        (name, slot) ∈ variables state -> slot mod 2 ^ 256 <> k) ->
     constructor_storage (variables state) state ∅ !! k = None).
Proof.
  intros H. split; [|split; [|split]].
  - unfold assemble in H.
    apply bind_Ok in H as ([g1 ph] & Hd & H).
    apply bind_Ok in H as (g2 & Hb & H).
    apply generate_function_dispatcher_keeps in Hd; [|reflexivity].
    destruct (keeps_ready 0 _ _ Hd eq_refl ltac:(lia)) as [Hm1 Hn1].
    apply (function_bodies_keeps 0) in Hb; [|intros; lia|exact Hm1|exact Hn1].
    destruct (keeps_trans 0 _ _ _ Hd Hb) as (Hm2 & Hin2 & _).
    unfold inactive_code in Hin2. rewrite Hm2 in Hin2.
    cbn [set_mode current_mode init_code new_generator
         String.eqb Ascii.eqb Bool.eqb] in Hin2.
    apply generate_constructor_storage in H; [|reflexivity].
    destruct H as (stores & k & Hinit & Hrt & Hrun & Hsize & Hlen).
    cbn [set_mode init_code runtime_code] in Hinit, Hrt.
    rewrite Hin2 in Hinit. cbn [app] in Hinit.
    destruct (copy_code_creates_storage stores (runtime_code g) k
                (length (runtime_code g2)) (length (init_code g))
                _ Hrun Hsize Hlen) as (data & m & Hm & Hs).
    exists (k + 7)%nat, data, m. split; [|exact Hs].
    rewrite Hinit at 1. rewrite <- !app_assoc. exact Hm.
  - unfold assemble in H.
    apply bind_Ok in H as ([g1 ph] & _ & H).
    apply bind_Ok in H as (g2 & _ & H).
    unfold generate_constructor in H.
    apply bind_Ok in H as (g3 & E & _).
    apply (constructor_stores_exact _ _ _ _ E).
  - intros Hnd name slot Hin.
    rewrite (constructor_storage_lookup _ _ _ name slot Hnd Hin).
    destruct (default (PyInt 0) _); [reflexivity|apply lookup_empty].
  - intros k Hk. rewrite constructor_storage_other by exact Hk.
    apply lookup_empty.
Qed.

Lemma creation_initialises_storage_witness :
  let state := {| variables := [("count", 0); ("owner", 1); ("name", 2)];
                  functions := [];
                  initial_values := [("count", PyInt 5); ("name", PyOther)] |} in
  exists g,
    assemble state new_generator = Ok g /\
    (exists fuel data m,
       EVM.create fuel (init_code g ++ runtime_code g)
       = EVM.Returned data m /\
       EVM.storage m = constructor_storage (variables state) state ∅) /\
    constructor_storage (variables state) state ∅ !! 0 = Some 5 /\
    constructor_storage (variables state) state ∅ !! 1 = Some 0 /\
    constructor_storage (variables state) state ∅ !! 2 = None.
Proof.
  intros state.
  assert (E : exists g, assemble state new_generator = Ok g)
    by (eexists; vm_compute; reflexivity).
  destruct E as [g E]. exists g. split; [exact E|].
  destruct (creation_initialises_storage state g E)
    as (Hrun & _ & Hlook & _).
  split; [exact Hrun|].
  assert (Hnd : NoDup ((fun p : string * Z => p.2 mod 2 ^ 256)
                         <$> variables state)).
  { cbn. repeat constructor; rewrite ?elem_of_cons, ?elem_of_nil;
      intros H; intuition discriminate. }
  split; [|split].
  - apply (Hlook Hnd "count" 0). cbn. rewrite elem_of_cons. left. reflexivity.
  - apply (Hlook Hnd "owner" 1). cbn. rewrite !elem_of_cons. right. left.
    reflexivity.
  - apply (Hlook Hnd "name" 2). cbn. rewrite !elem_of_cons. right. right.
    left. reflexivity.
Defined.

(** ** Function arguments *)

Section Arguments.

Lemma arg_map_from_notin (l : list string) (i : nat) (m : gmap string nat)
    (a : string) :
  a ∉ l -> arg_map_from i l m !! a = m !! a.
Proof.
  revert i m. induction l as [|b l IH]; intros i m Hnotin; [reflexivity|].
  cbn [arg_map_from]. apply not_elem_of_cons in Hnotin as [Hne Hnotin].
  rewrite IH by exact Hnotin. apply lookup_insert_ne. congruence.
Qed.

Lemma arg_map_from_lookup (l : list string) (i j : nat)
    (m : gmap string nat) (a : string) :
  NoDup l -> l !! j = Some a -> arg_map_from i l m !! a = Some (i + j)%nat.
Proof.
  revert i j m. induction l as [|b l IH]; intros i j m Hnd Hj;
    [discriminate Hj|].
  apply NoDup_cons in Hnd as [Hnotin Hnd]. cbn [arg_map_from].
  destruct j as [|j].
  - injection Hj as ->. rewrite arg_map_from_notin by exact Hnotin.
    rewrite lookup_insert_eq, Nat.add_0_r. reflexivity.
  - cbn [lookup list_lookup] in Hj. rewrite (IH _ j _ Hnd Hj).
    f_equal. lia.
Qed.

Lemma drop_concat_words (ws : list (list Z)) (i : nat) :
  Forall (fun w => length w = 32%nat) ws ->
  drop (32 * i) (concat ws) = concat (drop i ws).
Proof.
  revert i. induction ws as [|w ws IH]; intros i Hws.
  - cbn [concat]. rewrite !drop_nil. reflexivity.
  - apply Forall_cons in Hws as [Hw Hws]. destruct i as [|i].
    + reflexivity.
    + cbn [concat drop]. rewrite drop_app_ge by lia.
      rewrite Hw. replace (32 * S i - 32)%nat with (32 * i)%nat by lia.
      apply IH. exact Hws.
Qed.

Lemma encode_uint256_inv (v : Z) (w : list Z) :
  ABIEncoder.encode_uint256 v = Ok w ->
  w = be_bytes 32 v /\ 0 <= v < 2 ^ 256.
Proof.
  unfold ABIEncoder.encode_uint256. intros H.
  destruct (Z_lt_dec v 0) as [Hlo|Hlo];
    [rewrite to_bytes_overflow in H by (left; exact Hlo); discriminate H|].
  destruct (Z_le_dec (2 ^ 256) v) as [Hhi|Hhi];
    [rewrite to_bytes_overflow in H
       by (right; change (256 ^ Z.of_nat 32) with (2 ^ 256); exact Hhi);
     discriminate H|].
  rewrite to_bytes_ok in H
    by (change (256 ^ Z.of_nat 32) with (2 ^ 256); lia).
  split; [congruence|lia].
Qed.

(** The word of the [i]-th argument in ABI-encoded calldata. *)
Lemma read_argument_word (sel : list Z) (vals : list Z)
    (ws : list (list Z)) (i : nat) (v : Z) :
  length sel = 4%nat ->
  Forall2 (fun v w => ABIEncoder.encode_uint256 v = Ok w) vals ws ->
  vals !! i = Some v ->
  from_bytes (EVM.read_bytes (4 + 32 * i) 32 (sel ++ concat ws)) = v.
Proof.
  intros Hsel Hws Hv.
  assert (Hlen : Forall (fun w => length w = 32%nat) ws).
  { clear Hv. induction Hws as [|x w vals' ws' Hx _ IH]; constructor;
      [|exact IH].
    apply encode_uint256_inv in Hx as [-> _]. apply length_be_bytes. }
  destruct (Forall2_lookup_l _ _ _ _ _ Hws Hv) as (w & Hw & Henc).
  apply encode_uint256_inv in Henc as [-> Hrange].
  unfold EVM.read_bytes.
  rewrite drop_app_ge by lia. rewrite Hsel.
  replace (4 + 32 * i - 4)%nat with (32 * i)%nat by lia.
  rewrite (drop_concat_words _ _ Hlen).
  rewrite (drop_S _ _ _ Hw). cbn [concat].
  rewrite <- app_assoc.
  rewrite take_app_length' by (symmetry; apply length_be_bytes).
  rewrite from_bytes_be_bytes. apply Z.mod_small.
  change (256 ^ Z.of_nat 32) with (2 ^ 256). exact Hrange.
Qed.

End Arguments.

(** X18. Parameters are read from the calldata by position.  For a
    function whose parameter names are distinct, with calldata made of a
    4-byte selector followed by the arguments as [encode_uint256] encodes
    them, the code compiled for the name of the [i]-th parameter pushes
    the [i]-th argument; the code compiled for a name that is not a
    parameter (a local variable, say) pushes 0. *)
Theorem parameter_reads_argument (args : list string) (i : nat)
    (a : string) (sel vals : list Z) (ws : list (list Z)) (v : Z)
    (state : ContractState) (g g' : generator) :
  NoDup args -> args !! i = Some a ->
  length sel = 4%nat ->
  Forall2 (fun v w => ABIEncoder.encode_uint256 v = Ok w) vals ws ->
  vals !! i = Some v ->
  4 + Z.of_nat i * 32 < 2 ^ 256 ->
  _compile_expression (ast.Name a) (arg_map_of args) state g = Ok g' ->
  pushes (sel ++ concat ws) g g' (fun _ => v) /\
  (forall (b : string) (g1 : generator),
     b ∉ args ->
     _compile_expression (ast.Name b) (arg_map_of args) state g = Ok g1 ->
     pushes (sel ++ concat ws) g g1 (fun _ => 0)).
Proof.
  intros Hnd Hi Hsel Hws Hv Hbound H. split.
  - apply (compile_expression_pushes (sel ++ concat ws) (ast.Name a) _ _
             eq_refl) in H.
    eapply pushes_ext; [|exact H]. intros sto. cbn [eval_expr].
    unfold arg_map_of. rewrite (arg_map_from_lookup _ 0 i _ _ Hnd Hi).
    cbn [Nat.add]. cbv zeta.
    rewrite Z.mod_small by (unfold EVM.modulus; lia).
    replace (Z.to_nat (4 + Z.of_nat i * 32)) with (4 + 32 * i)%nat by lia.
    apply (read_argument_word _ _ _ _ _ Hsel Hws Hv).
  - intros b g1 Hb H1.
    apply (compile_expression_pushes (sel ++ concat ws) (ast.Name b) _ _
             eq_refl) in H1.
    eapply pushes_ext; [|exact H1]. intros sto. cbn [eval_expr].
    unfold arg_map_of. rewrite (arg_map_from_notin _ _ _ _ Hb).
    rewrite lookup_empty. reflexivity.
Qed.

Lemma parameter_reads_argument_witness :
  let args := ["to"; "amount"] in
  let sel := [0xa9; 0x05; 0x9c; 0xbb] in
  let g := set_mode "runtime" new_generator in
  exists g',
    _compile_expression (ast.Name "amount") (arg_map_of args) empty_contract g
    = Ok g' /\
    pushes (sel ++ concat [be_bytes 32 7; be_bytes 32 1000]) g g'
      (fun _ => 1000).
Proof.
  intros args sel g.
  destruct (_compile_expression (ast.Name "amount") (arg_map_of args)
              empty_contract g) as [g'|] eqn:E; [|discriminate E].
  exists g'. split; [reflexivity|].
  apply (proj1 (parameter_reads_argument args 1 "amount" sel [7; 1000]
                  [be_bytes 32 7; be_bytes 32 1000] 1000 empty_contract g g'
                  ltac:(cbn; repeat constructor;
                        rewrite ?elem_of_cons, ?elem_of_nil;
                        intros H; intuition discriminate)
                  eq_refl eq_refl
                  ltac:(repeat constructor)
                  eq_refl eq_refl E)).
Defined.

(** X19. [calculate_mapping_slot] hashes the key followed by the base
    slot as a 32-byte word.  An [int] key is first written as a 32-byte
    word, so the call raises [OverflowError] when the key or the base
    slot is negative or needs more than 32 bytes; a [bytes] key is hashed
    as it is, whatever its length, without any padding, and gives the
    slot of the [int] key exactly when it is the key's 32-byte word.  The
    result is always a 256-bit word. *)
Theorem calculate_mapping_slot_range (k p : Z) (bs : list Z) :
  (0 <= k < 2 ^ 256 -> 0 <= p < 2 ^ 256 ->
   calculate_mapping_slot (PInt k) p = Ok (mapping_slot_word k p) /\
   calculate_mapping_slot (PBytes (be_bytes 32 k)) p
   = Ok (mapping_slot_word k p)) /\
  (k < 0 \/ 2 ^ 256 <= k \/ p < 0 \/ 2 ^ 256 <= p ->
   calculate_mapping_slot (PInt k) p = Err OverflowError) /\
  (0 <= p < 2 ^ 256 ->
   calculate_mapping_slot (PBytes bs) p
   = Ok (from_bytes (keccak256 (bs ++ be_bytes 32 p)))) /\
  (forall key slot,
     calculate_mapping_slot key p = Ok slot -> 0 <= slot < 2 ^ 256).
Proof.
  unfold calculate_mapping_slot, mapping_slot_word.
  split; [|split; [|split]].
  - intros Hk Hp. cbn [mbind result_bind].
    rewrite !to_bytes_ok
      by (change (256 ^ Z.of_nat 32) with (2 ^ 256); assumption).
    split; reflexivity.
  - intros H.
    destruct (Z_lt_dec k 0) as [Hk|Hk];
      [rewrite (to_bytes_overflow k) by (left; exact Hk); reflexivity|].
    destruct (Z_le_dec (2 ^ 256) k) as [Hk'|Hk'];
      [rewrite (to_bytes_overflow k)
         by (right; change (256 ^ Z.of_nat 32) with (2 ^ 256); exact Hk');
       reflexivity|].
    rewrite (to_bytes_ok k)
      by (change (256 ^ Z.of_nat 32) with (2 ^ 256); lia).
    cbn [mbind result_bind].
    rewrite (to_bytes_overflow p); [reflexivity|].
    change (256 ^ Z.of_nat 32) with (2 ^ 256). lia.
  - intros Hp. cbn [mbind result_bind].
    rewrite to_bytes_ok
      by (change (256 ^ Z.of_nat 32) with (2 ^ 256); assumption).
    reflexivity.
  - intros key slot H.
    apply bind_Ok in H as (kb & _ & H). apply bind_Ok in H as (sb & _ & H).
    injection H as <-.
    pose proof (from_bytes_bound _ (keccak256_is_byte (kb ++ sb))) as Hb.
    change (length (keccak256 (kb ++ sb))) with 32%nat in Hb.
    change (256 ^ Z.of_nat 32) with (2 ^ 256) in Hb. exact Hb.
Qed.

Lemma calculate_mapping_slot_range_witness :
  (calculate_mapping_slot (PInt 7) 1 = Ok (mapping_slot_word 7 1) /\
   calculate_mapping_slot (PBytes (be_bytes 32 7)) 1
   = Ok (mapping_slot_word 7 1)) /\
  calculate_mapping_slot (PInt (-1)) 1 = Err OverflowError /\
  calculate_mapping_slot (PBytes [7]) 1
  = Ok (from_bytes (keccak256 ([7] ++ be_bytes 32 1))).
Proof.
  pose proof (calculate_mapping_slot_range 7 1 [7]) as (H1 & _ & H3 & _).
  pose proof (calculate_mapping_slot_range (-1) 1 []) as (_ & H2 & _).
  split; [|split].
  - apply H1; (split; [discriminate|reflexivity]).
  - apply H2. left. reflexivity.
  - apply H3. split; [discriminate|reflexivity].
Defined.

(** ** Execution of the fixed contracts of [evm_compiler.py] *)

Section FixedContracts.

Lemma run_step (e : EVM.env) (m m' : EVM.machine) (n : nat) :
  EVM.step e m = EVM.Running m' -> EVM.run (S n) e m = EVM.run n e m'.
Proof. intros H. cbn [EVM.run]. rewrite H. reflexivity. Qed.

Lemma run_stopped (e : EVM.env) (m m' : EVM.machine) (n : nat) :
  EVM.step e m = EVM.Stopped m' -> EVM.run (S n) e m = EVM.Stopped m'.
Proof. intros H. cbn [EVM.run]. rewrite H. reflexivity. Qed.

Lemma run_returned (e : EVM.env) (m m' : EVM.machine) (data : list Z)
    (n : nat) :
  EVM.step e m = EVM.Returned data m' ->
  EVM.run (S n) e m = EVM.Returned data m'.
Proof. intros H. cbn [EVM.run]. rewrite H. reflexivity. Qed.

Lemma run_fault (e : EVM.env) (m : EVM.machine) (n : nat) :
  EVM.step e m = EVM.Fault -> EVM.run (S n) e m = EVM.Fault.
Proof. intros H. cbn [EVM.run]. rewrite H. reflexivity. Qed.

Variable e : EVM.env.
Variables (pc : nat) (st mem : list Z) (sto : gmap Z Z).

Ltac one_step H :=
  unfold EVM.step; cbn [EVM.pc EVM.stack EVM.memory EVM.storage];
  rewrite H; reflexivity.

Lemma step_push (pc' : nat) (op v : Z) :
  EVM.code e !! pc = Some op ->
  (0x60 <=? op) && (op <=? 0x7f) = true ->
  from_bytes (EVM.read_bytes (S pc) (Z.to_nat (op - 0x5f)) (EVM.code e)) = v ->
  (pc + 1 + Z.to_nat (op - 0x5f))%nat = pc' ->
  EVM.step e {| EVM.pc := pc; EVM.stack := st;
                EVM.memory := mem; EVM.storage := sto |}
  = EVM.Running {| EVM.pc := pc'; EVM.stack := v :: st;
                   EVM.memory := mem; EVM.storage := sto |}.
Proof.
  intros H Hop <- <-. unfold EVM.step.
  cbn [EVM.pc EVM.stack EVM.memory EVM.storage]. rewrite H, Hop.
  reflexivity.
Qed.

Lemma step_stop :
  EVM.code e !! pc = Some EVMOpcode.STOP ->
  EVM.step e {| EVM.pc := pc; EVM.stack := st;
                EVM.memory := mem; EVM.storage := sto |}
  = EVM.Stopped {| EVM.pc := pc; EVM.stack := st;
                   EVM.memory := mem; EVM.storage := sto |}.
Proof. intros H. one_step H. Qed.

Lemma step_jumpdest :
  EVM.code e !! pc = Some EVMOpcode.JUMPDEST ->
  EVM.step e {| EVM.pc := pc; EVM.stack := st;
                EVM.memory := mem; EVM.storage := sto |}
  = EVM.Running {| EVM.pc := S pc; EVM.stack := st;
                   EVM.memory := mem; EVM.storage := sto |}.
Proof. intros H. one_step H. Qed.

Lemma step_calldataload (a : Z) :
  EVM.code e !! pc = Some EVMOpcode.CALLDATALOAD ->
  EVM.step e {| EVM.pc := pc; EVM.stack := a :: st;
                EVM.memory := mem; EVM.storage := sto |}
  = EVM.Running {| EVM.pc := S pc;
                   EVM.stack := calldata_word (EVM.calldata e) (Z.to_nat a)
                                :: st;
                   EVM.memory := mem; EVM.storage := sto |}.
Proof. intros H. one_step H. Qed.

Lemma step_dup1 (a : Z) :
  EVM.code e !! pc = Some EVMOpcode.DUP1 ->
  EVM.step e {| EVM.pc := pc; EVM.stack := a :: st;
                EVM.memory := mem; EVM.storage := sto |}
  = EVM.Running {| EVM.pc := S pc; EVM.stack := a :: a :: st;
                   EVM.memory := mem; EVM.storage := sto |}.
Proof. intros H. one_step H. Qed.

Lemma step_sload (a : Z) :
  EVM.code e !! pc = Some EVMOpcode.SLOAD ->
  EVM.step e {| EVM.pc := pc; EVM.stack := a :: st;
                EVM.memory := mem; EVM.storage := sto |}
  = EVM.Running {| EVM.pc := S pc;
                   EVM.stack := default 0 (sto !! a) :: st;
                   EVM.memory := mem; EVM.storage := sto |}.
Proof. intros H. one_step H. Qed.

Lemma step_shr (a b : Z) :
  EVM.code e !! pc = Some EVMOpcode.SHR ->
  EVM.step e {| EVM.pc := pc; EVM.stack := a :: b :: st;
                EVM.memory := mem; EVM.storage := sto |}
  = EVM.Running {| EVM.pc := S pc;
                   EVM.stack := (if 256 <=? a then 0 else Z.shiftr b a)
                                :: st;
                   EVM.memory := mem; EVM.storage := sto |}.
Proof. intros H. one_step H. Qed.

Lemma step_eq (a b : Z) :
  EVM.code e !! pc = Some EVMOpcode.EQ ->
  EVM.step e {| EVM.pc := pc; EVM.stack := a :: b :: st;
                EVM.memory := mem; EVM.storage := sto |}
  = EVM.Running {| EVM.pc := S pc;
                   EVM.stack := EVM.bool_word (a =? b) :: st;
                   EVM.memory := mem; EVM.storage := sto |}.
Proof. intros H. one_step H. Qed.

Lemma step_sstore (a b : Z) :
  EVM.code e !! pc = Some EVMOpcode.SSTORE ->
  EVM.step e {| EVM.pc := pc; EVM.stack := a :: b :: st;
                EVM.memory := mem; EVM.storage := sto |}
  = EVM.Running {| EVM.pc := S pc; EVM.stack := st;
                   EVM.memory := mem; EVM.storage := <[a := b]> sto |}.
Proof. intros H. one_step H. Qed.

Lemma step_mstore (a b : Z) :
  EVM.code e !! pc = Some EVMOpcode.MSTORE ->
  EVM.step e {| EVM.pc := pc; EVM.stack := a :: b :: st;
                EVM.memory := mem; EVM.storage := sto |}
  = EVM.Running {| EVM.pc := S pc; EVM.stack := st;
                   EVM.memory := EVM.write_bytes (Z.to_nat a)
                                   (be_bytes 32 b) mem;
                   EVM.storage := sto |}.
Proof. intros H. one_step H. Qed.

Lemma step_jumpi_taken (a b : Z) :
  EVM.code e !! pc = Some EVMOpcode.JUMPI ->
  b <> 0 -> EVM.valid_jumpdest (EVM.code e) a = true ->
  EVM.step e {| EVM.pc := pc; EVM.stack := a :: b :: st;
                EVM.memory := mem; EVM.storage := sto |}
  = EVM.Running {| EVM.pc := Z.to_nat a; EVM.stack := st;
                   EVM.memory := mem; EVM.storage := sto |}.
Proof.
  intros H Hb Hv. apply Z.eqb_neq in Hb.
  transitivity
    (if b =? 0
     then EVM.Running {| EVM.pc := S pc; EVM.stack := st;
                         EVM.memory := mem; EVM.storage := sto |}
     else if EVM.valid_jumpdest (EVM.code e) a
          then EVM.Running {| EVM.pc := Z.to_nat a; EVM.stack := st;
                              EVM.memory := mem; EVM.storage := sto |}
          else EVM.Fault).
  - one_step H.
  - rewrite Hb, Hv. reflexivity.
Qed.

Lemma step_jumpi_skip (a b : Z) :
  EVM.code e !! pc = Some EVMOpcode.JUMPI -> b = 0 ->
  EVM.step e {| EVM.pc := pc; EVM.stack := a :: b :: st;
                EVM.memory := mem; EVM.storage := sto |}
  = EVM.Running {| EVM.pc := S pc; EVM.stack := st;
                   EVM.memory := mem; EVM.storage := sto |}.
Proof. intros H ->. one_step H. Qed.

(** 0x2b is not an instruction. *)
Lemma step_undefined_2b (a b : Z) :
  EVM.code e !! pc = Some 0x2b ->
  EVM.step e {| EVM.pc := pc; EVM.stack := a :: b :: st;
                EVM.memory := mem; EVM.storage := sto |}
  = EVM.Fault.
Proof. intros H. one_step H. Qed.

End FixedContracts.

Section Calldata.

Lemma from_bytes_app (a b : list Z) :
  from_bytes (a ++ b)
  = from_bytes a * 256 ^ Z.of_nat (length b) + from_bytes b.
Proof.
  induction b as [|x b IH] using rev_ind.
  - rewrite app_nil_r. change (from_bytes []) with 0. cbn [length].
    change (256 ^ Z.of_nat 0) with 1. lia.
  - rewrite app_assoc, !from_bytes_snoc, IH, length_app. cbn [length].
    rewrite Nat2Z.inj_add, Z.pow_add_r by lia.
    change (256 ^ Z.of_nat 1) with 256. ring.
Qed.

Lemma zeros_is_byte (n : nat) : Forall is_byte (repeat 0 n).
Proof.
  induction n as [|n IH]; cbn [repeat]; constructor; [|exact IH].
  unfold is_byte. lia.
Qed.

Lemma read_bytes_is_byte (off n : nat) (bs : list Z) :
  Forall is_byte bs -> Forall is_byte (EVM.read_bytes off n bs).
Proof.
  intros H. unfold EVM.read_bytes. apply Forall_take. apply Forall_app.
  split; [apply Forall_drop; exact H|apply zeros_is_byte].
Qed.

Lemma length_read_bytes (off n : nat) (bs : list Z) :
  length (EVM.read_bytes off n bs) = n.
Proof.
  unfold EVM.read_bytes. rewrite length_take, length_app, repeat_length. lia.
Qed.

Lemma calldata_word_bound (cd : list Z) (off : nat) :
  Forall is_byte cd -> 0 <= calldata_word cd off < 2 ^ 256.
Proof.
  intros H. unfold calldata_word.
  pose proof (from_bytes_bound _ (read_bytes_is_byte off 32 cd H)) as Hb.
  rewrite length_read_bytes in Hb. exact Hb.
Qed.

Lemma shiftr_high_bytes (a b : list Z) :
  Forall is_byte b ->
  Z.shiftr (from_bytes (a ++ b)) (8 * Z.of_nat (length b)) = from_bytes a.
Proof.
  intros Hb. rewrite from_bytes_app, Z.shiftr_div_pow2 by lia.
  pose proof (from_bytes_bound _ Hb) as Hbound.
  replace (2 ^ (8 * Z.of_nat (length b))) with (256 ^ Z.of_nat (length b))
    by (change 256 with (2 ^ 8); rewrite <- Z.pow_mul_r by lia; reflexivity).
  symmetry. apply Z.div_unique with (from_bytes b); [lia|ring].
Qed.

(** The selector of calldata that begins with four bytes [sel]. *)
Lemma calldata_selector_prefix (sel rest : list Z) :
  length sel = 4%nat -> Forall is_byte rest ->
  calldata_selector (sel ++ rest) = from_bytes sel.
Proof.
  intros Hsel Hrest. unfold calldata_selector, calldata_word, EVM.read_bytes.
  rewrite drop_0, <- app_assoc.
  rewrite take_app_ge by lia. rewrite Hsel.
  set (t := take (32 - 4) (rest ++ repeat 0 32)).
  assert (Ht : length t = 28%nat).
  { unfold t. rewrite length_take, length_app, repeat_length. lia. }
  replace 224 with (8 * Z.of_nat (length t)) by (rewrite Ht; reflexivity).
  apply shiftr_high_bytes. unfold t. apply Forall_take, Forall_app.
  split; [exact Hrest|apply zeros_is_byte].
Qed.

(** The first argument word of calldata made of a selector and a word. *)
Lemma calldata_word_argument (sel w rest : list Z) :
  length sel = 4%nat -> length w = 32%nat ->
  calldata_word (sel ++ w ++ rest) 4 = from_bytes w.
Proof.
  intros Hsel Hw. unfold calldata_word, EVM.read_bytes.
  rewrite drop_app_length' by (symmetry; exact Hsel).
  rewrite <- app_assoc. rewrite take_app_length' by (symmetry; exact Hw).
  reflexivity.
Qed.

End Calldata.

Ltac exec lem :=
  erewrite run_step;
  [|eapply lem; first [reflexivity | vm_compute; reflexivity]].

Ltac exec_push :=
  erewrite run_step;
  [|eapply step_push;
    [reflexivity | reflexivity | vm_compute; reflexivity
    | vm_compute; reflexivity]].

Ltac exec_jump :=
  erewrite run_step;
  [|eapply step_jumpi_taken;
    [reflexivity | vm_compute; discriminate | vm_compute; reflexivity]].

Section SimpleStorage.

Variables (cd : list Z) (sto : gmap Z Z).

Let e : EVM.env :=
  {| EVM.code := EVMBytecodeGenerator.simple_storage_runtime;
     EVM.calldata := cd |}.

(** The selector load and the first selector check. *)
Lemma simple_storage_first_check (k : nat) :
  EVM.run (8 + k) e (EVM.initial sto)
  = EVM.run k e
      {| EVM.pc := 16;
         EVM.stack := [0x20;
                       EVM.bool_word (0x60fe47b1 =? calldata_selector cd);
                       calldata_selector cd];
         EVM.memory := []; EVM.storage := sto |}.
Proof.
  unfold EVM.initial. cbn [Nat.add].
  exec_push. exec step_calldataload. exec_push. exec step_shr.
  change (if 256 <=? 224 then 0
          else Z.shiftr (calldata_word (EVM.calldata e) (Z.to_nat 0)) 224)
    with (calldata_selector cd).
  exec step_dup1. exec_push. exec step_eq. exec_push.
  reflexivity.
Qed.

Lemma simple_storage_set (k : nat) :
  calldata_selector cd = 0x60fe47b1 ->
  EVM.run (15 + k) e (EVM.initial sto)
  = EVM.Stopped
      {| EVM.pc := 39; EVM.stack := [0x60fe47b1]; EVM.memory := [];
         EVM.storage := <[0 := calldata_word cd 4]> sto |}.
Proof.
  intros Hsel.
  change (15 + k)%nat with (8 + (7 + k))%nat.
  rewrite simple_storage_first_check, Hsel. cbn [Nat.add].
  exec_jump. exec step_jumpdest. exec_push. exec step_calldataload.
  exec_push. exec step_sstore.
  erewrite run_stopped; [|eapply step_stop; reflexivity].
  reflexivity.
Qed.

Lemma simple_storage_get (k : nat) :
  calldata_selector cd = 0x6d4ce63c ->
  exists m,
    EVM.run (22 + k) e (EVM.initial sto)
    = EVM.Returned (be_bytes 32 (default 0 (sto !! 0))) m /\
    EVM.storage m = sto.
Proof.
  intros Hsel.
  change (22 + k)%nat with (8 + (14 + k))%nat.
  rewrite simple_storage_first_check, Hsel. cbn [Nat.add].
  exec step_jumpi_skip.
  exec step_dup1. exec_push. exec step_eq. exec_push.
  exec_jump. exec step_jumpdest. exec_push. exec step_sload.
  exec_push. exec step_mstore. exec_push. exec_push.
  erewrite run_returned; [|eapply step_return; reflexivity].
  change (Z.to_nat 0) with 0%nat. change (Z.to_nat 32) with 32%nat.
  rewrite read_after_write by apply length_be_bytes.
  eexists. split; reflexivity.
Qed.

Lemma simple_storage_other (k : nat) :
  calldata_selector cd <> 0x60fe47b1 ->
  calldata_selector cd <> 0x6d4ce63c ->
  EVM.run (15 + k) e (EVM.initial sto)
  = EVM.Stopped
      {| EVM.pc := 28; EVM.stack := [calldata_selector cd];
         EVM.memory := []; EVM.storage := sto |}.
Proof.
  intros Hset Hget.
  change (15 + k)%nat with (8 + (7 + k))%nat.
  rewrite simple_storage_first_check. cbn [Nat.add].
  assert (E1 : EVM.bool_word (0x60fe47b1 =? calldata_selector cd) = 0).
  { unfold EVM.bool_word.
    rewrite (proj2 (Z.eqb_neq _ _)) by congruence. reflexivity. }
  assert (E2 : EVM.bool_word (0x6d4ce63c =? calldata_selector cd) = 0).
  { unfold EVM.bool_word.
    rewrite (proj2 (Z.eqb_neq _ _)) by congruence. reflexivity. }
  rewrite E1. exec step_jumpi_skip.
  exec step_dup1. exec_push. exec step_eq. exec_push.
  rewrite E2. exec step_jumpi_skip.
  erewrite run_stopped; [|eapply step_stop; reflexivity].
  reflexivity.
Qed.

End SimpleStorage.

(** Set, then get, for any four bytes that read as the two selectors. *)
Lemma simple_storage_roundtrip (sset sget : list Z) (v : Z)
    (rest rest' : list Z) (sto : gmap Z Z) (fuel : nat) :
  length sset = 4%nat -> from_bytes sset = 0x60fe47b1 ->
  length sget = 4%nat -> from_bytes sget = 0x6d4ce63c ->
  0 <= v < 2 ^ 256 ->
  Forall is_byte rest -> Forall is_byte rest' ->
  (22 <= fuel)%nat ->
  exists m1 m2,
    EVM.call fuel EVMBytecodeGenerator.simple_storage_runtime
      (sset ++ be_bytes 32 v ++ rest) sto
    = EVM.Stopped m1 /\
    EVM.storage m1 = <[0 := v]> sto /\
    EVM.call fuel EVMBytecodeGenerator.simple_storage_runtime
      (sget ++ rest') (EVM.storage m1)
    = EVM.Returned (be_bytes 32 v) m2 /\
    EVM.storage m2 = EVM.storage m1.
Proof.
  intros Hls Hs Hlg Hg Hv Hrest Hrest' Hfuel.
  assert (Hset : calldata_selector (sset ++ be_bytes 32 v ++ rest)
                 = 0x60fe47b1).
  { rewrite calldata_selector_prefix; [exact Hs|exact Hls|].
    apply Forall_app. split; [apply be_bytes_is_byte|exact Hrest]. }
  assert (Hget : calldata_selector (sget ++ rest') = 0x6d4ce63c).
  { rewrite calldata_selector_prefix; [exact Hg|exact Hlg|exact Hrest']. }
  assert (Harg : calldata_word (sset ++ be_bytes 32 v ++ rest) 4 = v).
  { rewrite calldata_word_argument; [|exact Hls|apply length_be_bytes].
    rewrite from_bytes_be_bytes. apply Z.mod_small.
    change (256 ^ Z.of_nat 32) with (2 ^ 256). exact Hv. }
  pose proof (simple_storage_set (sset ++ be_bytes 32 v ++ rest) sto
                (fuel - 15) Hset) as Hrun1.
  rewrite Harg in Hrun1.
  destruct (simple_storage_get (sget ++ rest') (<[0 := v]> sto)
              (fuel - 22) Hget) as (m2 & Hrun2 & Hsto2).
  rewrite lookup_insert_eq in Hrun2. cbn [default] in Hrun2.
  replace (15 + (fuel - 15))%nat with fuel in Hrun1 by lia.
  replace (22 + (fuel - 22))%nat with fuel in Hrun2 by lia.
  eexists _, m2. unfold EVM.call.
  split; [exact Hrun1|]. split; [reflexivity|].
  split; [exact Hrun2|exact Hsto2].
Qed.

(** X20. The runtime code of the simple storage contract works as a
    get/set store.  A call whose calldata is the selector of
    [set(uint256)] followed by a 32-byte word stores that word in slot 0
    and stops; a call with the selector of [get()] then returns that same
    word as 32 bytes and leaves the storage alone.  A call whose first
    four bytes are neither selector, or that is shorter than four bytes,
    stops without touching the storage. *)
Theorem simple_storage_set_then_get (v : Z) (rest rest' : list Z)
    (sto : gmap Z Z) (fuel : nat) :
  0 <= v < 2 ^ 256 ->
  Forall is_byte rest -> Forall is_byte rest' ->
  (22 <= fuel)%nat ->
  (exists m1 m2,
     EVM.call fuel EVMBytecodeGenerator.simple_storage_runtime
       (function_selector "set(uint256)" ++ be_bytes 32 v ++ rest) sto
     = EVM.Stopped m1 /\
     EVM.storage m1 = <[0 := v]> sto /\
     EVM.call fuel EVMBytecodeGenerator.simple_storage_runtime
       (function_selector "get()" ++ rest') (EVM.storage m1)
     = EVM.Returned (be_bytes 32 v) m2 /\
     EVM.storage m2 = EVM.storage m1) /\
  (forall cd : list Z,
     calldata_selector cd <> 0x60fe47b1 ->
     calldata_selector cd <> 0x6d4ce63c ->
     exists m,
       EVM.call fuel EVMBytecodeGenerator.simple_storage_runtime cd sto
       = EVM.Stopped m /\
       EVM.storage m = sto).
Proof.
  intros Hv Hrest Hrest' Hfuel. split.
  - exact (simple_storage_roundtrip _ _ v rest rest' sto fuel
             (length_function_selector _) selector_set
             (length_function_selector _) selector_get
             Hv Hrest Hrest' Hfuel).
  - intros cd Hs Hg.
    pose proof (simple_storage_other cd sto (fuel - 15) Hs Hg) as Hrun.
    replace (15 + (fuel - 15))%nat with fuel in Hrun by lia.
    eexists. unfold EVM.call. split; [exact Hrun|reflexivity].
Qed.

Lemma simple_storage_set_then_get_witness :
  (exists m1 m2,
     EVM.call 22 EVMBytecodeGenerator.simple_storage_runtime
       (function_selector "set(uint256)" ++ be_bytes 32 42 ++ []) ∅
     = EVM.Stopped m1 /\
     EVM.storage m1 = <[0 := 42]> ∅ /\
     EVM.call 22 EVMBytecodeGenerator.simple_storage_runtime
       (function_selector "get()" ++ []) (EVM.storage m1)
     = EVM.Returned (be_bytes 32 42) m2 /\
     EVM.storage m2 = EVM.storage m1) /\
  (forall cd : list Z,
     calldata_selector cd <> 0x60fe47b1 ->
     calldata_selector cd <> 0x6d4ce63c ->
     exists m,
       EVM.call 22 EVMBytecodeGenerator.simple_storage_runtime cd ∅
       = EVM.Stopped m /\
       EVM.storage m = ∅).
Proof.
  apply (simple_storage_set_then_get 42 [] [] ∅ 22).
  - split; [discriminate|reflexivity].
  - constructor.
  - constructor.
  - apply le_n.
Defined.

Section Counter.

Lemma shr_by_itself (w : Z) :
  0 <= w -> (if 256 <=? w then 0 else Z.shiftr w w) = 0.
Proof.
  intros Hw. destruct (Z.leb_spec 256 w); [reflexivity|].
  rewrite Z.shiftr_div_pow2 by exact Hw. apply Z.div_small.
  split; [exact Hw|]. apply Z.pow_gt_lin_r; lia.
Qed.

End Counter.

(** X21. No function of the counter contract can be called.  Its
    dispatcher shifts the first calldata word right by that same word,
    which leaves 0, so no selector check succeeds; and each check ends in
    a stray PUSH2 opcode that swallows the two bytes after it, so
    execution reaches the byte 0x2b, which is not an instruction.  Every
    call of the runtime code, whatever its calldata and the storage, ends
    in an exceptional halt. *)
Theorem counter_runtime_always_faults (cd : list Z) (sto : gmap Z Z)
    (fuel : nat) :
  Forall is_byte cd -> (12 <= fuel)%nat ->
  EVM.call fuel EVMBytecodeGenerator.counter_runtime cd sto = EVM.Fault.
Proof.
  intros Hcd Hfuel. unfold EVM.call, EVM.initial.
  replace fuel with (12 + (fuel - 12))%nat by lia.
  generalize (fuel - 12)%nat. intros k. cbn [Nat.add].
  set (e := {| EVM.code := EVMBytecodeGenerator.counter_runtime;
               EVM.calldata := cd |}).
  exec_push. exec step_calldataload. exec_push. exec step_calldataload.
  exec step_shr.
  rewrite (shr_by_itself (calldata_word (EVM.calldata e) (Z.to_nat 0)))
    by (apply calldata_word_bound; exact Hcd).
  exec step_dup1. exec_push. exec step_eq. exec_push.
  exec step_jumpi_skip. exec_push.
  erewrite run_fault; [reflexivity|].
  eapply step_undefined_2b. reflexivity.
Qed.

Lemma counter_runtime_always_faults_witness :
  EVM.call 100 EVMBytecodeGenerator.counter_runtime
    [0xd0; 0x9d; 0xe0; 0x8a] ∅ = EVM.Fault.
Proof.
  apply (counter_runtime_always_faults [0xd0; 0x9d; 0xe0; 0x8a] ∅ 100).
  - repeat constructor; discriminate.
  - repeat constructor.
Defined.

Section Token.

(** A first calldata word with a non-zero first byte, shifted right by
    14 bits, is not a 32-bit number. *)
Lemma shifted_word_large (b : Z) (rest : list Z) :
  is_byte b -> b <> 0 -> Forall is_byte rest ->
  2 ^ 32 <= Z.shiftr (calldata_word (b :: rest) 0) 14.
Proof.
  intros Hb Hnz Hrest. unfold is_byte in Hb.
  unfold calldata_word, EVM.read_bytes. rewrite drop_0.
  change ((b :: rest) ++ repeat 0 32) with ([b] ++ rest ++ repeat 0 32).
  rewrite take_app_ge by (cbn [length]; lia). cbn [length].
  set (t := take (32 - 1) (rest ++ repeat 0 32)).
  assert (Ht : length t = 31%nat).
  { unfold t. rewrite length_take, length_app, repeat_length. lia. }
  assert (Hbt : Forall is_byte t).
  { unfold t. apply Forall_take, Forall_app.
    split; [exact Hrest|apply zeros_is_byte]. }
  rewrite from_bytes_app, Ht.
  pose proof (from_bytes_bound _ Hbt) as Hbound.
  change (from_bytes [b]) with (0 * 256 + b). rewrite Z.add_0_l.
  rewrite Z.shiftr_div_pow2 by lia.
  apply Z.div_le_lower_bound; [lia|].
  change (256 ^ Z.of_nat 31) with (2 ^ 248).
  assert (1 * 2 ^ 248 <= b * 2 ^ 248) by (apply Z.mul_le_mono_nonneg_r; lia).
  assert (2 ^ 14 * 2 ^ 32 <= 2 ^ 248) by (vm_compute; discriminate).
  lia.
Qed.

End Token.

(** X22. The three functions of the token contract cannot be reached
    through their selectors.  Its dispatcher shifts the first calldata
    word right by 14 bits instead of 224, so for calldata whose first
    byte is not zero, as the first byte of each of the three selectors
    is, the value compared is not a 32-bit number: every selector check
    fails and the call stops without touching the storage. *)
Theorem token_runtime_never_dispatches (b : Z) (rest : list Z)
    (sto : gmap Z Z) (fuel : nat) :
  is_byte b -> b <> 0 -> Forall is_byte rest -> (20 <= fuel)%nat ->
  exists m,
    EVM.call fuel EVMBytecodeGenerator.token_runtime (b :: rest) sto
    = EVM.Stopped m /\
    EVM.storage m = sto /\ EVM.pc m = 39%nat.
Proof.
  intros Hb Hnz Hrest Hfuel.
  pose proof (shifted_word_large b rest Hb Hnz Hrest) as Hlarge.
  unfold EVM.call, EVM.initial.
  replace fuel with (20 + (fuel - 20))%nat by lia.
  generalize (fuel - 20)%nat. intros k. cbn [Nat.add].
  set (e := {| EVM.code := EVMBytecodeGenerator.token_runtime;
               EVM.calldata := b :: rest |}).
  exec_push. exec step_calldataload. exec_push. exec step_shr.
  change (if 256 <=? 14 then 0
          else Z.shiftr (calldata_word (EVM.calldata e) (Z.to_nat 0)) 14)
    with (Z.shiftr (calldata_word (b :: rest) 0) 14).
  revert Hlarge. generalize (Z.shiftr (calldata_word (b :: rest) 0) 14).
  intros s Hs.
  assert (Hne : forall sel, sel < 2 ^ 32 -> EVM.bool_word (sel =? s) = 0).
  { intros sel Hsel. unfold EVM.bool_word.
    rewrite (proj2 (Z.eqb_neq sel s)) by lia. reflexivity. }
  exec step_dup1. exec_push. exec step_eq. exec_push.
  rewrite Hne by reflexivity. exec step_jumpi_skip.
  exec step_dup1. exec_push. exec step_eq. exec_push.
  rewrite Hne by reflexivity. exec step_jumpi_skip.
  exec step_dup1. exec_push. exec step_eq. exec_push.
  rewrite Hne by reflexivity. exec step_jumpi_skip.
  erewrite run_stopped; [|eapply step_stop; reflexivity].
  eexists. split; [reflexivity|]. split; reflexivity.
Qed.

Lemma token_runtime_never_dispatches_witness :
  exists m,
    EVM.call 20 EVMBytecodeGenerator.token_runtime
      [0x12; 0x49; 0xc5; 0x8b] {[ 0 := 5 ]}
    = EVM.Stopped m /\
    EVM.storage m = {[ 0 := 5 ]} /\ EVM.pc m = 39%nat.
Proof.
  apply (token_runtime_never_dispatches 0x12 [0x49; 0xc5; 0x8b]
           {[ 0 := 5 ]} 20).
  - split; [discriminate|reflexivity].
  - discriminate.
  - repeat constructor; discriminate.
  - apply le_n.
Defined.

(** X23. The artifacts of [generate_working_bytecode] do not deploy
    their runtime code.  For every contract type the result is "0x"
    followed by the hexadecimal text of an 18-byte constructor and the
    runtime code; run as creation code it returns as many bytes as the
    runtime code has, but not the runtime code: as in the transpiler, the
    constructor's CODECOPY takes the size of the runtime code as source
    offset and its offset as length, so the bytes returned are the last
    18 bytes of the artifact followed by zeros. *)
Theorem working_bytecode_creation (contract_type : string) :
  let code := EVMBytecodeGenerator.working_code contract_type in
  let runtime := EVMBytecodeGenerator.working_runtime contract_type in
  generate_working_bytecode contract_type
  = String.append "0x" (EVMBytecodeGenerator.hex code) /\
  EVMBytecodeGenerator.fromhex (EVMBytecodeGenerator.hex code) = code /\
  drop 18 code = runtime /\
  exists m,
    EVM.create 10 code
    = EVM.Returned
        (drop (length runtime) code ++ repeat 0 (length runtime - 18)) m /\
    drop (length runtime) code ++ repeat 0 (length runtime - 18) <> runtime.
Proof.
  unfold generate_working_bytecode, EVMBytecodeGenerator.working_code,
    EVMBytecodeGenerator.working_runtime.
  destruct (String.eqb contract_type "storage");
    [|destruct (String.eqb contract_type "counter");
      [|destruct (String.eqb contract_type "token")]];
    cbv zeta;
    (split; [reflexivity|]);
    (split; [vm_compute; reflexivity|]);
    (split; [vm_compute; reflexivity|]);
    (eexists; split; [vm_compute; reflexivity|vm_compute; discriminate]).
Qed.

(** ** The layout of a conditional *)

Section Conditional.

(** The layout of a conditional: the three pieces of code, the
    generators they were compiled from, and the two patched operands. *)
Lemma if_statement_code_pieces
    (ct cb co : generator -> result generator) (g g' : generator) :
  (forall g g', current_mode g = "runtime" -> ct g = Ok g' ->
                exists bs, appended g g' bs) ->
  (forall g g', current_mode g = "runtime" -> cb g = Ok g' ->
                exists bs, appended g g' bs) ->
  (forall g g', current_mode g = "runtime" -> co g = Ok g' ->
                exists bs, appended g g' bs) ->
  current_mode g = "runtime" ->
  if_statement_code ct cb co g = Ok g' ->
  exists (t b o : list Z) (g1 gb g5 go g9 : generator),
    ct g = Ok g1 /\ appended g g1 t /\
    appended g1 gb
      [EVMOpcode.ISZERO; EVMOpcode.PUSH2; 0xDE; 0xAD; EVMOpcode.JUMPI] /\
    cb gb = Ok g5 /\ appended gb g5 b /\
    appended g5 go
      [EVMOpcode.PUSH2; 0xBE; 0xEF; EVMOpcode.JUMP; EVMOpcode.JUMPDEST] /\
    co go = Ok g9 /\ appended go g9 o /\
    let else_offset :=
      (length (active_code g) + length t + 5 + length b + 4)%nat in
    let end_offset := (else_offset + 1 + length o)%nat in
    active_code g'
    = active_code g ++ t ++ [EVMOpcode.ISZERO; EVMOpcode.PUSH2] ++
      be_bytes 2 (Z.of_nat else_offset) ++ [EVMOpcode.JUMPI] ++ b ++
      [EVMOpcode.PUSH2] ++ be_bytes 2 (Z.of_nat end_offset) ++
      [EVMOpcode.JUMP; EVMOpcode.JUMPDEST] ++ o ++ [EVMOpcode.JUMPDEST] /\
    Z.of_nat end_offset <= 0xFFFF /\
    current_mode g' = "runtime" /\
    inactive_code g' = inactive_code g.
Proof.
  intros Ht Hb Ho Hm H. unfold if_statement_code in H.
  apply bind_Ok in H as (g1 & E1 & H).
  destruct (Ht _ _ Hm E1) as [t A1].
  pose proof (emit_appended EVMOpcode.ISZERO g1) as A2.
  set (g2 := emit EVMOpcode.ISZERO g1) in *.
  apply bind_Ok in H as (g3 & E3 & H).
  apply emit_push2_inv in E3 as [_ A3].
  pose proof (emit_appended EVMOpcode.JUMPI g3) as A4.
  set (g4 := emit EVMOpcode.JUMPI g3) in *.
  assert (M2 : current_mode g2 = "runtime").
  { rewrite (appended_mode _ _ _ A2), (appended_mode _ _ _ A1). exact Hm. }
  assert (M4 : current_mode g4 = "runtime").
  { rewrite (appended_mode _ _ _ A4), (appended_mode _ _ _ A3). exact M2. }
  apply bind_Ok in H as (g5 & E5 & H).
  destruct (Hb _ _ M4 E5) as [b A5].
  assert (M5 : current_mode g5 = "runtime")
    by (rewrite (appended_mode _ _ _ A5); exact M4).
  apply bind_Ok in H as (g6 & E6 & H).
  apply emit_push2_inv in E6 as [_ A6].
  pose proof (emit_appended EVMOpcode.JUMP g6) as A7.
  set (g7 := emit EVMOpcode.JUMP g6) in *.
  pose proof (emit_appended EVMOpcode.JUMPDEST g7) as A8.
  set (g8 := emit EVMOpcode.JUMPDEST g7) in *.
  assert (M7 : current_mode g7 = "runtime").
  { rewrite (appended_mode _ _ _ A7), (appended_mode _ _ _ A6). exact M5. }
  assert (M8 : current_mode g8 = "runtime")
    by (rewrite (appended_mode _ _ _ A8); exact M7).
  apply bind_Ok in H as (g9 & E9 & H).
  destruct (Ho _ _ M8 E9) as [o A9].
  assert (M9 : current_mode g9 = "runtime")
    by (rewrite (appended_mode _ _ _ A9); exact M8).
  pose proof (emit_appended EVMOpcode.JUMPDEST g9) as A10.
  set (g10 := emit EVMOpcode.JUMPDEST g9) in *.
  apply bind_Ok in H as (g11 & E11 & H).
  apply backpatch2_inv in E11 as [_ ->].
  apply backpatch2_inv in H as [Hend ->].
  rewrite (get_offset_runtime g2 M2), (get_offset_runtime g5 M5),
    (get_offset_runtime g7 M7), (get_offset_runtime g9 M9) in *.
  (* the lengths along the way *)
  pose proof (appended_length _ _ _ A1) as L1.
  pose proof (appended_length _ _ _ A2) as L2.
  pose proof (appended_length _ _ _ A3) as L3.
  pose proof (appended_length _ _ _ A4) as L4.
  pose proof (appended_length _ _ _ A5) as L5.
  pose proof (appended_length _ _ _ A6) as L6.
  pose proof (appended_length _ _ _ A7) as L7.
  pose proof (appended_length _ _ _ A8) as L8.
  pose proof (appended_length _ _ _ A9) as L9.
  rewrite !length_app, !length_be_bytes in *. cbn [length] in *.
  (* the code before the two backpatches *)
  pose proof (appended_trans _ _ _ _ _ A1
    (appended_trans _ _ _ _ _ A2
      (appended_trans _ _ _ _ _ A3
        (appended_trans _ _ _ _ _ A4
          (appended_trans _ _ _ _ _ A5
            (appended_trans _ _ _ _ _ A6
              (appended_trans _ _ _ _ _ A7
                (appended_trans _ _ _ _ _ A8
                  (appended_trans _ _ _ _ _ A9 A10))))))))) as Hall.
  destruct Hall as (Hact & Hinact & Hmode).
  assert (Hgb : appended g1 g4
                  [EVMOpcode.ISZERO; EVMOpcode.PUSH2; 0xDE; 0xAD;
                   EVMOpcode.JUMPI]).
  { exact (appended_trans _ _ _ _ _ A2 (appended_trans _ _ _ _ _ A3 A4)). }
  assert (Hgo : appended g5 g8
                  [EVMOpcode.PUSH2; 0xBE; 0xEF; EVMOpcode.JUMP;
                   EVMOpcode.JUMPDEST]).
  { exact (appended_trans _ _ _ _ _ A6 (appended_trans _ _ _ _ _ A7 A8)). }
  exists t, b, o, g1, g4, g5, g8, g9.
  split; [exact E1|]. split; [exact A1|]. split; [exact Hgb|].
  split; [exact E5|]. split; [exact A5|]. split; [exact Hgo|].
  split; [exact E9|]. split; [exact A9|].
  cbv zeta.
  replace (length (active_code g) + length t + 5 + length b + 4)%nat
    with (length (active_code g7)) by lia.
  replace (length (active_code g7) + 1 + length o)%nat
    with (length (active_code g9)) by lia.
  set (else_offset := length (active_code g7)) in *.
  set (end_offset := length (active_code g9)) in *.
  rewrite !active_set_active, !mode_set_active, !inactive_set_active.
  split; [|split; [|split]].
  - rewrite Hact.
    change (be_bytes 2 57005) with [0xDE; 0xAD].
    change (be_bytes 2 48879) with [0xBE; 0xEF].
    set (A := active_code g) in *.
    set (e1 := be_bytes 2 (Z.of_nat else_offset)).
    set (e2 := be_bytes 2 (Z.of_nat end_offset)).
    pose proof (patch_middle
                  (A ++ t ++ [EVMOpcode.ISZERO; EVMOpcode.PUSH2])
                  ([EVMOpcode.JUMPI] ++ b ++
                   [EVMOpcode.PUSH2; 0xBE; 0xEF; EVMOpcode.JUMP;
                    EVMOpcode.JUMPDEST] ++ o ++ [EVMOpcode.JUMPDEST])
                  e1 0xDE 0xAD (length (active_code g2) + 1)) as P1.
    rewrite <- !app_assoc in P1. cbn [app] in P1 |- *.
    rewrite P1 by (rewrite !length_app; cbn [length]; fold A; lia).
    pose proof (patch_middle
                  (A ++ t ++ [EVMOpcode.ISZERO; EVMOpcode.PUSH2] ++ e1 ++
                   [EVMOpcode.JUMPI] ++ b ++ [EVMOpcode.PUSH2])
                  ([EVMOpcode.JUMP; EVMOpcode.JUMPDEST] ++ o ++
                   [EVMOpcode.JUMPDEST])
                  e2 0xBE 0xEF (length (active_code g5) + 1)) as P2.
    rewrite <- !app_assoc in P2. cbn [app] in P2 |- *.
    rewrite P2; [reflexivity|].
    assert (Le1 : length e1 = 2%nat) by apply length_be_bytes.
    repeat (rewrite length_app || cbn [length]).
    rewrite Le1. fold A. lia.
  - exact Hend.
  - rewrite Hmode. exact Hm.
  - exact Hinact.
Qed.

End Conditional.

(** X24. The jumps of a conditional are patched to its own labels.
    Compiled in runtime mode, [if test: body else: orelse] leaves, after
    what the region held: the code [t] that the test compiles to there;
    ISZERO, PUSH2 with a two-byte operand, JUMPI; the code [b] that the
    body compiles to after those bytes (placeholder included); PUSH2
    with a two-byte operand, JUMP, JUMPDEST; the code [o] that the else
    block compiles to after those; a final JUMPDEST.  The first operand
    is the offset of the JUMPDEST that precedes the else block,
    [len + |t| + 5 + |b| + 4], and the second the offset of the final
    JUMPDEST, [|o| + 1] bytes further and the last byte of the region.
    No placeholder remains; the other region and the mode are the same. *)
Theorem if_statement_jump_targets (test : ast.expr)
    (body orelse : list ast.stmt) (arg_map : gmap string nat)
    (state : ContractState) (g g' : generator) :
  current_mode g = "runtime" ->
  _compile_statement (ast.If test body orelse) arg_map state g = Ok g' ->
  exists (t b o : list Z) (g1 gb g5 go g9 : generator),
    _compile_expression test arg_map state g = Ok g1 /\
    appended g g1 t /\
    appended g1 gb
      [EVMOpcode.ISZERO; EVMOpcode.PUSH2; 0xDE; 0xAD; EVMOpcode.JUMPI] /\
    compile_statements body arg_map state gb = Ok g5 /\
    appended gb g5 b /\
    appended g5 go
      [EVMOpcode.PUSH2; 0xBE; 0xEF; EVMOpcode.JUMP; EVMOpcode.JUMPDEST] /\
    compile_statements orelse arg_map state go = Ok g9 /\
    appended go g9 o /\
    let else_offset :=
      (length (active_code g) + length t + 5 + length b + 4)%nat in
    let end_offset := (else_offset + 1 + length o)%nat in
    active_code g'
    = active_code g ++ t ++ [EVMOpcode.ISZERO; EVMOpcode.PUSH2] ++
      be_bytes 2 (Z.of_nat else_offset) ++ [EVMOpcode.JUMPI] ++ b ++
      [EVMOpcode.PUSH2] ++ be_bytes 2 (Z.of_nat end_offset) ++
      [EVMOpcode.JUMP; EVMOpcode.JUMPDEST] ++ o ++ [EVMOpcode.JUMPDEST] /\
    active_code g' !! else_offset = Some EVMOpcode.JUMPDEST /\
    active_code g' !! end_offset = Some EVMOpcode.JUMPDEST /\
    length (active_code g') = S end_offset /\
    from_bytes (be_bytes 2 (Z.of_nat else_offset)) = Z.of_nat else_offset /\
    from_bytes (be_bytes 2 (Z.of_nat end_offset)) = Z.of_nat end_offset /\
    inactive_code g' = inactive_code g /\
    current_mode g' = "runtime".
Proof.
  intros Hm H. rewrite compile_statement_if in H.
  unfold _compile_if_statement in H.
  apply if_statement_code_pieces in H; [|intros g0 g0' Hm0 E..|exact Hm].
  - destruct H as (t & b & o & g1 & gb & g5 & go & g9 & E1 & A1 & Agb & E5 &
                   A5 & Ago & E9 & A9 & H).
    cbv zeta in H. destruct H as (Hact & Hmax & Hmode & Hinact).
    exists t, b, o, g1, gb, g5, go, g9.
    split; [exact E1|]. split; [exact A1|]. split; [exact Agb|].
    split; [exact E5|]. split; [exact A5|]. split; [exact Ago|].
    split; [exact E9|]. split; [exact A9|].
    cbv zeta.
    set (else_offset :=
           (length (active_code g) + length t + 5 + length b + 4)%nat) in *.
    set (end_offset := (else_offset + 1 + length o)%nat) in *.
    set (e1 := be_bytes 2 (Z.of_nat else_offset)) in *.
    set (e2 := be_bytes 2 (Z.of_nat end_offset)) in *.
    assert (Le1 : length e1 = 2%nat) by apply length_be_bytes.
    assert (Le2 : length e2 = 2%nat) by apply length_be_bytes.
    split; [exact Hact|].
    split; [|split; [|split; [|split; [|split; [|split]]]]].
    + rewrite Hact.
      replace (active_code g ++ t ++ [EVMOpcode.ISZERO; EVMOpcode.PUSH2] ++
               e1 ++ [EVMOpcode.JUMPI] ++ b ++ [EVMOpcode.PUSH2] ++ e2 ++
               [EVMOpcode.JUMP; EVMOpcode.JUMPDEST] ++ o ++
               [EVMOpcode.JUMPDEST])
        with ((active_code g ++ t ++ [EVMOpcode.ISZERO; EVMOpcode.PUSH2] ++
               e1 ++ [EVMOpcode.JUMPI] ++ b ++ [EVMOpcode.PUSH2] ++ e2 ++
               [EVMOpcode.JUMP]) ++
              EVMOpcode.JUMPDEST :: o ++ [EVMOpcode.JUMPDEST])
        by (rewrite <- !app_assoc; reflexivity).
      replace else_offset
        with (length (active_code g ++ t ++
                      [EVMOpcode.ISZERO; EVMOpcode.PUSH2] ++ e1 ++
                      [EVMOpcode.JUMPI] ++ b ++ [EVMOpcode.PUSH2] ++ e2 ++
                      [EVMOpcode.JUMP])) at 1.
      * apply lookup_middle.
      * repeat (rewrite length_app || cbn [length]).
        rewrite Le1, Le2. unfold else_offset. lia.
    + rewrite Hact.
      replace (active_code g ++ t ++ [EVMOpcode.ISZERO; EVMOpcode.PUSH2] ++
               e1 ++ [EVMOpcode.JUMPI] ++ b ++ [EVMOpcode.PUSH2] ++ e2 ++
               [EVMOpcode.JUMP; EVMOpcode.JUMPDEST] ++ o ++
               [EVMOpcode.JUMPDEST])
        with ((active_code g ++ t ++ [EVMOpcode.ISZERO; EVMOpcode.PUSH2] ++
               e1 ++ [EVMOpcode.JUMPI] ++ b ++ [EVMOpcode.PUSH2] ++ e2 ++
               [EVMOpcode.JUMP; EVMOpcode.JUMPDEST] ++ o) ++
              EVMOpcode.JUMPDEST :: [])
        by (rewrite <- !app_assoc; reflexivity).
      replace end_offset
        with (length (active_code g ++ t ++
                      [EVMOpcode.ISZERO; EVMOpcode.PUSH2] ++ e1 ++
                      [EVMOpcode.JUMPI] ++ b ++ [EVMOpcode.PUSH2] ++ e2 ++
                      [EVMOpcode.JUMP; EVMOpcode.JUMPDEST] ++ o)) at 1.
      * apply lookup_middle.
      * repeat (rewrite length_app || cbn [length]).
        rewrite Le1, Le2. unfold end_offset, else_offset. lia.
    + rewrite Hact. repeat (rewrite length_app || cbn [length]).
      rewrite Le1, Le2. unfold end_offset, else_offset. lia.
    + unfold e1. rewrite from_bytes_be_bytes. apply Z.mod_small.
      change (256 ^ Z.of_nat 2) with 65536. unfold end_offset in Hmax. lia.
    + unfold e2. rewrite from_bytes_be_bytes. apply Z.mod_small.
      change (256 ^ Z.of_nat 2) with 65536. lia.
    + exact Hinact.
    + exact Hmode.
  - apply keeps_split.
    apply (compile_expression_keeps _ _ _ _ _ _ E).
  - apply keeps_split.
    apply (compile_statements_keeps _ _ _ _ _ _ Hm0 (le_n _) E).
  - apply keeps_split.
    apply (compile_statements_keeps _ _ _ _ _ _ Hm0 (le_n _) E).
Qed.

Lemma if_statement_jump_targets_witness :
  let test := ast.Compare (ast.Name "amount") [ast.Gt]
                [ast.Constant (ast.CInt 0)] in
  let body := [ast.Assign [self_attr "count"] (ast.Name "amount")] in
  let orelse := [ast.Return None] in
  let g := set_mode "runtime" new_generator in
  exists g' (t b o : list Z),
    _compile_statement (ast.If test body orelse) (arg_map_of ["amount"])
      test_contract g = Ok g' /\
    let else_offset :=
      (length (active_code g) + length t + 5 + length b + 4)%nat in
    let end_offset := (else_offset + 1 + length o)%nat in
    active_code g'
    = active_code g ++ t ++ [EVMOpcode.ISZERO; EVMOpcode.PUSH2] ++
      be_bytes 2 (Z.of_nat else_offset) ++ [EVMOpcode.JUMPI] ++ b ++
      [EVMOpcode.PUSH2] ++ be_bytes 2 (Z.of_nat end_offset) ++
      [EVMOpcode.JUMP; EVMOpcode.JUMPDEST] ++ o ++ [EVMOpcode.JUMPDEST] /\
    active_code g' !! else_offset = Some EVMOpcode.JUMPDEST /\
    active_code g' !! end_offset = Some EVMOpcode.JUMPDEST /\
    length (active_code g') = S end_offset.
Proof.
  intros test body orelse g.
  assert (E : exists g',
             _compile_statement (ast.If test body orelse)
               (arg_map_of ["amount"]) test_contract g = Ok g')
    by (eexists; vm_compute; reflexivity).
  destruct E as [g' E].
  destruct (if_statement_jump_targets test body orelse
              (arg_map_of ["amount"]) test_contract g g' eq_refl E)
    as (t & b & o & g1 & gb & g5 & go & g9 & _ & _ & _ & _ & _ & _ & _ & _ &
        H).
  cbv zeta in H. destruct H as (H1 & H2 & H3 & H4 & _).
  exists g', t, b, o.
  split; [exact E|]. cbv zeta. split; [exact H1|]. split; [exact H2|].
  split; [exact H3|exact H4].
Defined.

(** The code of a conditional, as bytes. *)
Example if_statement_bytes :
  exists g',
    _compile_statement
      (ast.If (ast.Name "flag")
         [ast.Assign [self_attr "count"] (ast.Constant (ast.CInt 1))]
         [ast.Assign [self_attr "count"] (ast.Constant (ast.CInt 2))])
      (arg_map_of ["flag"]) test_contract
      (set_mode "runtime" new_generator) = Ok g' /\
    runtime_code g'
    = [0x60; 0x04; 0x35; 0x15; 0x61; 0x00; 0x11; 0x57;
       0x60; 0x01; 0x60; 0x00; 0x55; 0x61; 0x00; 0x17; 0x56;
       0x5b; 0x60; 0x02; 0x60; 0x00; 0x55; 0x5b].
Proof. eexists. split; vm_compute; reflexivity. Qed.

